(** * mpi-plus: a resource-managed C++ layer over MPI

    Shallow embedding of [mpi-plus.cpp] (classes [mpi::Request],
    [mpi::Status], [mpi::Communicator]) and of the earlier revision of the
    same classes kept in the repository (module [Part000]).

    The C++ methods are state transformers over a [World]: the transport
    (communicator table, table of in-flight operations, message queue, log
    of transport calls) together with the store of C++ objects whose
    identity matters (assignment operators take two objects that may be the
    same one).  A call either returns, throws a C++ exception, blocks
    forever in this world, has undefined behaviour, or dies on a transport
    fault. *)

From Stdlib Require Import ZArith Lia Strings.Byte Strings.String.
From stdpp Require Import gmap list.

Local Open Scope Z_scope.

(** ** Values of the C++ side *)

Abbreviation byte := Byte.byte.
Abbreviation bytes := (list Byte.byte).

(** [std::string(n, 0)] and [std::vector<T>(n, T())] *)
Definition zero_byte : byte := Byte.x00.

(** The exceptions the source throws; [std::invalid_argument] and
    [std::length_error] derive from [std::logic_error]. *)
Inductive exception : Type :=
| logic_error (what : string)
| invalid_argument (what : string)
| length_error (what : string).


(** Handles of <mpi.h>.  The null handles are 0. *)
Abbreviation MPI_Comm := nat.
Abbreviation MPI_Request := nat.
Definition MPI_COMM_NULL : MPI_Comm := 0%nat.
Definition MPI_REQUEST_NULL : MPI_Request := 0%nat.

(** The wildcards are negative constants of <mpi.h> (the values of MPICH). *)
Definition MPI_ANY_SOURCE : Z := -2.
Definition MPI_ANY_TAG : Z := -1.
Definition any_tag : Z := MPI_ANY_TAG.
Definition any_source : Z := MPI_ANY_SOURCE.

(** [MPI_Status]: source, tag, and the byte count [MPI_Get_count] reads. *)
Record MPI_Status : Type := mkMPI_Status {
  MPI_SOURCE : Z;
  MPI_TAG : Z;
  status_count : Z
}.

(** What an uninitialised [MPI_Status] member holds is never read. *)
Definition MPI_Status_indeterminate : MPI_Status := mkMPI_Status 0 0 0.

(** ** The transport *)

(** A communication context is named by the path of duplications that led
    to it, so that all ranks duplicating the same communicator in the same
    order agree on the new context. *)
Abbreviation context := (list nat).

Record Message : Type := mkMessage {
  msg_context : context;
  msg_source : Z;
  msg_dest : Z;
  msg_tag : Z;
  msg_data : bytes
}.

Record CommInfo : Type := mkCommInfo {
  comm_context : context;
  comm_size : Z;
  comm_rank : Z;
  comm_children : nat
}.

(** Where a non-blocking receive writes, seen from the C++ objects: the
    memory given to [MPI_Irecv] is the storage of the buffer of the Request
    that tracks the operation, or it is memory that no Request owns. *)
Inductive Destination : Type :=
| RequestBuffer
| OtherMemory.

(** A posted receive: context, receiving rank, source and tag filters,
    capacity of the receive buffer, and where it writes. *)
Record RecvSpec : Type := mkRecvSpec {
  rs_context : context;
  rs_me : Z;
  rs_source : Z;
  rs_tag : Z;
  rs_count : nat;
  rs_dest : Destination
}.

(** State of an in-flight operation behind a non-null [MPI_Request]. *)
Inductive Operation : Type :=
| SendOp (m : Message)            (* MPI_Isend, payload buffered by the transport *)
| RecvPosted (r : RecvSpec)       (* MPI_Irecv, no matching message yet *)
| RecvMatched (m : Message) (count : nat) (* MPI_Irecv matched with m, not yet completed *)
| RecvStray (m : Message) (count : nat)   (* the same, writing to memory no Request owns *)
| Cancelled.                      (* successfully cancelled, not yet completed or freed *)

(** A receive matched with [m], by where it writes. *)
Definition matched (d : Destination) (m : Message) (count : nat) : Operation :=
  match d with
  | RequestBuffer => RecvMatched m count
  | OtherMemory => RecvStray m count
  end.

(** Calls into the transport, in the order they were made. *)
Inductive Event : Type :=
| EvCommDup (c new : MPI_Comm)
| EvCommFree (c : MPI_Comm)
| EvCommSize (c : MPI_Comm)
| EvCommRank (c : MPI_Comm)
| EvProbe (source tag : Z) (c : MPI_Comm)
| EvIprobe (source tag : Z) (c : MPI_Comm) (flag : bool)
| EvRecv (count : Z) (source tag : Z) (c : MPI_Comm)
| EvIrecv (count : Z) (source tag : Z) (c : MPI_Comm) (h : MPI_Request)
| EvSend (data : bytes) (dest tag : Z) (c : MPI_Comm)
| EvIsend (data : bytes) (dest tag : Z) (c : MPI_Comm) (h : MPI_Request)
| EvWait (h : MPI_Request)
| EvTest (h : MPI_Request) (flag : bool)
| EvRequestGetStatus (h : MPI_Request) (flag : bool)
| EvCancel (h : MPI_Request)
| EvRequestFree (h : MPI_Request)
| EvBarrier (c : MPI_Comm)
| EvAlltoall (sendcount recvcount : Z) (c : MPI_Comm)
| EvAllgather (sendcount recvcount : Z) (c : MPI_Comm)
| EvAllgatherv (sendcount : Z) (recvcounts displs : list Z) (c : MPI_Comm).

(** ** The C++ objects *)

(** [class mpi::Request]: private members [request] and [buffer]. *)
Record Request : Type := mkRequest {
  request : MPI_Request;
  buffer : bytes
}.

(** [class mpi::Status]: private members [status] and [null]. *)
Record Status : Type := mkStatus {
  status : MPI_Status;
  null : bool
}.

(** [class mpi::Communicator]: private member [comm]. *)
Record Communicator : Type := mkCommunicator {
  comm : MPI_Comm
}.

Abbreviation addr := nat.

Record World : Type := mkWorld {
  comms : gmap nat CommInfo;           (* valid communicator handles *)
  operations : gmap nat Operation;     (* active request handles *)
  posted : list nat;                   (* unmatched posted receives, oldest first *)
  mailbox : list Message;              (* sent and not yet matched, oldest first *)
  trace : list Event;                  (* transport calls, oldest first *)
  request_objects : gmap nat Request;            (* Request objects by address *)
  communicator_objects : gmap nat Communicator   (* Communicator objects by address *)
}.

Definition set_comms (f : gmap nat CommInfo -> gmap nat CommInfo) (w : World) : World :=
  mkWorld (f (comms w)) (operations w) (posted w) (mailbox w) (trace w)
          (request_objects w) (communicator_objects w).
Definition set_operations (f : gmap nat Operation -> gmap nat Operation) (w : World) : World :=
  mkWorld (comms w) (f (operations w)) (posted w) (mailbox w) (trace w)
          (request_objects w) (communicator_objects w).
Definition set_posted (f : list nat -> list nat) (w : World) : World :=
  mkWorld (comms w) (operations w) (f (posted w)) (mailbox w) (trace w)
          (request_objects w) (communicator_objects w).
Definition set_mailbox (f : list Message -> list Message) (w : World) : World :=
  mkWorld (comms w) (operations w) (posted w) (f (mailbox w)) (trace w)
          (request_objects w) (communicator_objects w).
Definition log (e : Event) (w : World) : World :=
  mkWorld (comms w) (operations w) (posted w) (mailbox w) (trace w ++ [e])
          (request_objects w) (communicator_objects w).
Definition set_request_objects (f : gmap nat Request -> gmap nat Request) (w : World) : World :=
  mkWorld (comms w) (operations w) (posted w) (mailbox w) (trace w)
          (f (request_objects w)) (communicator_objects w).
Definition set_communicator_objects
    (f : gmap nat Communicator -> gmap nat Communicator) (w : World) : World :=
  mkWorld (comms w) (operations w) (posted w) (mailbox w) (trace w)
          (request_objects w) (f (communicator_objects w)).

(** ** Outcomes and the monad of calls *)

Inductive outcome (A : Type) : Type :=
| Returns (a : A) (w : World)       (* normal return *)
| Throws (e : exception) (w : World) (* a C++ exception leaves the call *)
| Blocks                            (* a blocking transport call cannot complete *)
| Undefined                         (* undefined behaviour *)
| Fault.                            (* the transport reports an error and aborts *)
Arguments Returns {A} a w.
Arguments Throws {A} e w.
Arguments Blocks {A}.
Arguments Undefined {A}.
Arguments Fault {A}.

Definition M (A : Type) : Type := World -> outcome A.

Definition ret {A} (a : A) : M A := fun w => Returns a w.

Definition bind {A B} (m : M A) (k : A -> M B) : M B :=
  fun w =>
    match m w with
    | Returns a w' => k a w'
    | Throws e w' => Throws e w'
    | Blocks => Blocks
    | Undefined => Undefined
    | Fault => Fault
    end.

Definition throw {A} (e : exception) : M A := fun w => Throws e w.
Definition block {A} : M A := fun _ => Blocks.
Definition undefined {A} : M A := fun _ => Undefined.
Definition fault {A} : M A := fun _ => Fault.
Definition get_world : M World := fun w => Returns w w.
Definition modify (f : World -> World) : M unit := fun w => Returns tt (f w).

Declare Scope call_scope.
Delimit Scope call_scope with call.
Notation "x <- c1 ;; c2" := (bind c1 (fun x => c2))
  (at level 100, c1 at next level, right associativity) : call_scope.
Notation "c1 ;;; c2" := (bind c1 (fun _ => c2))
  (at level 100, right associativity) : call_scope.
Local Open Scope call_scope.

(** ** The transport's calls

    Point-to-point matching follows the MPI rules: a receive takes the
    oldest message of its context addressed to the receiving rank that
    passes the source and tag filters; a message that arrives when a posted
    receive accepts it is bound to the oldest such receive.  The sends are
    modelled as buffered: the payload is handed to the transport at once;
    a receive delivers its payload when it completes.  A negative count is
    a transport fault; a count above the buffer it comes with is undefined
    behaviour. *)

Definition matches (ctx : context) (me source tag : Z) (m : Message) : bool :=
  bool_decide (msg_context m = ctx) && (msg_dest m =? me)
  && ((source =? MPI_ANY_SOURCE) || (msg_source m =? source))
  && ((tag =? MPI_ANY_TAG) || (msg_tag m =? tag)).

Fixpoint remove_first (p : Message -> bool) (q : list Message) : list Message :=
  match q with
  | [] => []
  | m :: q' => if p m then q' else m :: remove_first p q'
  end.

(** The oldest posted receive that accepts [m]. *)
Fixpoint accepting (ops : gmap nat Operation) (m : Message) (hs : list nat)
  : option (nat * RecvSpec) :=
  match hs with
  | [] => None
  | h :: hs' =>
      match ops !! h with
      | Some (RecvPosted r) =>
          if matches (rs_context r) (rs_me r) (rs_source r) (rs_tag r) m
          then Some (h, r) else accepting ops m hs'
      | _ => accepting ops m hs'
      end
  end.

Definition deliver (m : Message) (w : World) : World :=
  match accepting (operations w) m (posted w) with
  | Some (h, r) =>
      set_operations (insert h (matched (rs_dest r) m (rs_count r)))
        (set_posted (List.remove Nat.eq_dec h) w)
  | None => set_mailbox (fun q => q ++ [m]) w
  end.

(** A handle that is neither null nor in use. *)
Definition fresh_handle {V} (t : gmap nat V) : nat := fresh ({[0%nat]} ∪ dom t).

(** Using the null handle, or one that is not valid, is a transport fault. *)
Definition lookup_comm (c : MPI_Comm) : M CommInfo :=
  fun w => if Nat.eqb c MPI_COMM_NULL then Fault else
           match comms w !! c with
           | Some i => Returns i w
           | None => Fault
           end.

Definition lookup_operation (h : MPI_Request) : M Operation :=
  fun w => if Nat.eqb h MPI_REQUEST_NULL then Fault else
           match operations w !! h with
           | Some o => Returns o w
           | None => Fault
           end.

Definition MPI_Comm_size (c : MPI_Comm) : M Z :=
  i <- lookup_comm c ;;
  modify (log (EvCommSize c)) ;;;
  ret (comm_size i).

Definition MPI_Comm_rank (c : MPI_Comm) : M Z :=
  i <- lookup_comm c ;;
  modify (log (EvCommRank c)) ;;;
  ret (comm_rank i).

(** [MPI_Comm_dup(c, &new)]: a new handle on a new context with the group of [c]. *)
Definition MPI_Comm_dup (c : MPI_Comm) : M MPI_Comm :=
  i <- lookup_comm c ;;
  w <- get_world ;;
  let new := fresh_handle (comms w) in
  let child := mkCommInfo (comm_context i ++ [comm_children i]) (comm_size i) (comm_rank i) 0 in
  let parent := mkCommInfo (comm_context i) (comm_size i) (comm_rank i) (S (comm_children i)) in
  modify (set_comms (fun t => <[new := child]> (<[c := parent]> t))) ;;;
  modify (log (EvCommDup c new)) ;;;
  ret new.

(** [MPI_Comm_free(&c)]: releases the handle; returns what it leaves in [c]. *)
Definition MPI_Comm_free (c : MPI_Comm) : M MPI_Comm :=
  _ <- lookup_comm c ;;
  modify (set_comms (delete c)) ;;;
  modify (log (EvCommFree c)) ;;;
  ret MPI_COMM_NULL.

Definition status_of (m : Message) : MPI_Status :=
  mkMPI_Status (msg_source m) (msg_tag m) (Z.of_nat (length (msg_data m))).

(** [MPI_Get_count(&status, MPI_CHAR, &count)] *)
Definition MPI_Get_count (s : MPI_Status) : Z := status_count s.

Definition MPI_Probe (source tag : Z) (c : MPI_Comm) : M MPI_Status :=
  i <- lookup_comm c ;;
  w <- get_world ;;
  match List.find (matches (comm_context i) (comm_rank i) source tag) (mailbox w) with
  | Some m => modify (log (EvProbe source tag c)) ;;; ret (status_of m)
  | None => block
  end.

(** [MPI_Iprobe(source, tag, c, &flag, &status)]: the flag, and the status
    when the flag is set. *)
Definition MPI_Iprobe (source tag : Z) (c : MPI_Comm) : M (bool * MPI_Status) :=
  i <- lookup_comm c ;;
  w <- get_world ;;
  match List.find (matches (comm_context i) (comm_rank i) source tag) (mailbox w) with
  | Some m => modify (log (EvIprobe source tag c true)) ;;; ret (true, status_of m)
  | None => modify (log (EvIprobe source tag c false)) ;;;
            ret (false, MPI_Status_indeterminate)
  end.

(** Writing a payload at the start of a buffer. *)
Definition overwrite (data buf : bytes) : bytes := data ++ drop (length data) buf.

(** [MPI_Recv(&buf[0], count, MPI_CHAR, source, tag, c, MPI_STATUS_IGNORE)]:
    returns the buffer after the call. *)
Definition MPI_Recv (buf : bytes) (count : Z) (source tag : Z) (c : MPI_Comm) : M bytes :=
  i <- lookup_comm c ;;
  if count <? 0 then fault else
  if Z.of_nat (length buf) <? count then undefined else
  w <- get_world ;;
  let p := matches (comm_context i) (comm_rank i) source tag in
  match List.find p (mailbox w) with
  | Some m =>
      if count <? Z.of_nat (length (msg_data m)) then fault else
      modify (set_mailbox (remove_first p)) ;;;
      modify (log (EvRecv count source tag c)) ;;;
      ret (overwrite (msg_data m) buf)
  | None => block
  end.

Definition valid_dest (i : CommInfo) (dest tag : Z) : bool :=
  (0 <=? dest) && (dest <? comm_size i) && (0 <=? tag).

(** [MPI_Send(&buf[0], count, MPI_CHAR, dest, tag, c)] *)
Definition MPI_Send (buf : bytes) (count : Z) (dest tag : Z) (c : MPI_Comm) : M unit :=
  i <- lookup_comm c ;;
  if count <? 0 then fault else
  if Z.of_nat (length buf) <? count then undefined else
  if negb (valid_dest i dest tag) then fault else
  let data := take (Z.to_nat count) buf in
  modify (deliver (mkMessage (comm_context i) (comm_rank i) dest tag data)) ;;;
  modify (log (EvSend data dest tag c)).

(** [MPI_Isend(&buf[0], count, MPI_CHAR, dest, tag, c, &request)] *)
Definition MPI_Isend (buf : bytes) (count : Z) (dest tag : Z) (c : MPI_Comm) : M MPI_Request :=
  i <- lookup_comm c ;;
  if count <? 0 then fault else
  if Z.of_nat (length buf) <? count then undefined else
  if negb (valid_dest i dest tag) then fault else
  let data := take (Z.to_nat count) buf in
  let m := mkMessage (comm_context i) (comm_rank i) dest tag data in
  modify (deliver m) ;;;
  w <- get_world ;;
  let h := fresh_handle (operations w) in
  modify (set_operations (insert h (SendOp m))) ;;;
  modify (log (EvIsend data dest tag c h)) ;;;
  ret h.

(** [MPI_Irecv(&buf[0], count, MPI_CHAR, source, tag, c, &request)], with
    [dest] saying whose memory [&buf[0]] is. *)
Definition MPI_Irecv (dest : Destination) (count : Z) (source tag : Z) (c : MPI_Comm)
  : M MPI_Request :=
  i <- lookup_comm c ;;
  if count <? 0 then fault else
  w <- get_world ;;
  let h := fresh_handle (operations w) in
  let p := matches (comm_context i) (comm_rank i) source tag in
  match List.find p (mailbox w) with
  | Some m =>
      modify (set_mailbox (remove_first p)) ;;;
      modify (set_operations (insert h (matched dest m (Z.to_nat count))))
  | None =>
      let r := mkRecvSpec (comm_context i) (comm_rank i) source tag (Z.to_nat count) dest in
      modify (set_operations (insert h (RecvPosted r))) ;;;
      modify (set_posted (fun hs => hs ++ [h]))
  end ;;;
  modify (log (EvIrecv count source tag c h)) ;;;
  ret h.

Definition release (h : MPI_Request) (w : World) : World :=
  set_operations (delete h) (set_posted (List.remove Nat.eq_dec h) w).

(** [MPI_Wait(&request, MPI_STATUS_IGNORE)] from a Request whose buffer is
    [buf]: what it leaves in [request], and the buffer after the call.  A
    receive that writes to memory no Request owns completes there and
    leaves [buf] as it is. *)
Definition MPI_Wait (h : MPI_Request) (buf : bytes) : M (MPI_Request * bytes) :=
  if Nat.eqb h MPI_REQUEST_NULL
  then modify (log (EvWait h)) ;;; ret (MPI_REQUEST_NULL, buf)
  else
    o <- lookup_operation h ;;
    match o with
    | RecvPosted _ => block
    | RecvMatched m count =>
        if (count <? length (msg_data m))%nat then fault else
        if (length buf <? length (msg_data m))%nat then undefined else
        modify (release h) ;;;
        modify (log (EvWait h)) ;;;
        ret (MPI_REQUEST_NULL, overwrite (msg_data m) buf)
    | RecvStray m count =>
        if (count <? length (msg_data m))%nat then fault else
        modify (release h) ;;;
        modify (log (EvWait h)) ;;;
        ret (MPI_REQUEST_NULL, buf)
    | SendOp _ | Cancelled =>
        modify (release h) ;;;
        modify (log (EvWait h)) ;;;
        ret (MPI_REQUEST_NULL, buf)
    end.

(** [MPI_Request_get_status(request, &flag, MPI_STATUS_IGNORE)] *)
Definition MPI_Request_get_status (h : MPI_Request) : M bool :=
  if Nat.eqb h MPI_REQUEST_NULL
  then modify (log (EvRequestGetStatus h true)) ;;; ret true
  else
    o <- lookup_operation h ;;
    match o with
    | RecvPosted _ => modify (log (EvRequestGetStatus h false)) ;;; ret false
    | _ => modify (log (EvRequestGetStatus h true)) ;;; ret true
    end.

(** [MPI_Test(&request, &flag, MPI_STATUS_IGNORE)] *)
Definition MPI_Test (h : MPI_Request) (buf : bytes) : M (MPI_Request * bytes * bool) :=
  if Nat.eqb h MPI_REQUEST_NULL
  then modify (log (EvTest h true)) ;;; ret (MPI_REQUEST_NULL, buf, true)
  else
    o <- lookup_operation h ;;
    match o with
    | RecvPosted _ => modify (log (EvTest h false)) ;;; ret (h, buf, false)
    | RecvMatched m count =>
        if (count <? length (msg_data m))%nat then fault else
        if (length buf <? length (msg_data m))%nat then undefined else
        modify (release h) ;;;
        modify (log (EvTest h true)) ;;;
        ret (MPI_REQUEST_NULL, overwrite (msg_data m) buf, true)
    | RecvStray m count =>
        if (count <? length (msg_data m))%nat then fault else
        modify (release h) ;;;
        modify (log (EvTest h true)) ;;;
        ret (MPI_REQUEST_NULL, buf, true)
    | SendOp _ | Cancelled =>
        modify (release h) ;;;
        modify (log (EvTest h true)) ;;;
        ret (MPI_REQUEST_NULL, buf, true)
    end.

(** [MPI_Cancel(&request)]: a receive that has not matched is withdrawn;
    an operation that already went through is left to complete. *)
Definition MPI_Cancel (h : MPI_Request) : M unit :=
  o <- lookup_operation h ;;
  match o with
  | RecvPosted _ =>
      modify (set_operations (insert h Cancelled)) ;;;
      modify (set_posted (List.remove Nat.eq_dec h)) ;;;
      modify (log (EvCancel h))
  | _ => modify (log (EvCancel h))
  end.

(** [MPI_Request_free(&request)]: releases the handle; returns what it
    leaves in [request]. *)
Definition MPI_Request_free (h : MPI_Request) : M MPI_Request :=
  _ <- lookup_operation h ;;
  modify (release h) ;;;
  modify (log (EvRequestFree h)) ;;;
  ret MPI_REQUEST_NULL.

(** [MPI_Barrier(c)], every rank of the group having entered it. *)
Definition MPI_Barrier (c : MPI_Comm) : M unit :=
  _ <- lookup_comm c ;;
  modify (log (EvBarrier c)).

(** *** The all-to-all collective

    A collective call of one rank depends on what the other ranks of the
    group pass to the same call: [peers j] is the send buffer and the send
    count rank [j] enters [MPI_Alltoall] with.  Block [j] of a send buffer
    goes to rank [j]; the block received from rank [j] lands in block [j]
    of the receive buffer. *)

Definition ranks (n : Z) : list Z := Z.of_nat <$> seq 0 (Z.to_nat n).

Definition share (k : Z) (j : Z) (buf : bytes) : bytes :=
  take (Z.to_nat k) (drop (Z.to_nat (j * k)) buf).

(** The send buffer and the send count of rank [j], for the rank [me] that
    passes [own] and [count] itself. *)
Definition contribution (peers : Z -> bytes * Z) (me : Z) (own : bytes) (j : Z) : bytes :=
  if j =? me then own else fst (peers j).

Definition contributed_count (peers : Z -> bytes * Z) (me : Z) (count : Z) (j : Z) : Z :=
  if j =? me then count else snd (peers j).

(** [MPI_Alltoall(&sendbuf[0], sendcount, MPI_CHAR, &recvbuf[0], recvcount,
    MPI_CHAR, c)]: returns the receive buffer after the call. *)
Definition MPI_Alltoall (peers : Z -> bytes * Z)
    (sendbuf : bytes) (sendcount : Z) (recvbuf : bytes) (recvcount : Z)
    (c : MPI_Comm) : M bytes :=
  i <- lookup_comm c ;;
  let n := comm_size i in
  let me := comm_rank i in
  let buffer_of := contribution peers me sendbuf in
  let count_of := contributed_count peers me sendcount in
  if (sendcount <? 0) || (recvcount <? 0) then fault else
  if negb (forallb (fun j => n * count_of j <=? Z.of_nat (length (buffer_of j))) (ranks n))
  then undefined else
  if Z.of_nat (length recvbuf) <? n * recvcount then undefined else
  if negb (forallb (fun j => count_of j =? recvcount) (ranks n)) then fault else
  modify (log (EvAlltoall sendcount recvcount c)) ;;;
  ret (overwrite (concat ((fun j => share recvcount me (buffer_of j)) <$> ranks n)) recvbuf).

(** *** The all-gather collectives

    Every rank contributes one block; the block of rank [j] lands in block
    [j] of the receive buffer ([MPI_Allgather]) or at the displacement the
    receiver gives for rank [j] ([MPI_Allgatherv]). *)

(** [MPI_Allgather(&value, sendcount, MPI_CHAR, &recvbuf[0], recvcount,
    MPI_CHAR, c)]: returns the receive buffer after the call. *)
Definition MPI_Allgather (peers : Z -> bytes * Z)
    (sendbuf : bytes) (sendcount : Z) (recvbuf : bytes) (recvcount : Z)
    (c : MPI_Comm) : M bytes :=
  i <- lookup_comm c ;;
  let n := comm_size i in
  let me := comm_rank i in
  let buffer_of := contribution peers me sendbuf in
  let count_of := contributed_count peers me sendcount in
  if (sendcount <? 0) || (recvcount <? 0) then fault else
  if negb (forallb (fun j => count_of j <=? Z.of_nat (length (buffer_of j))) (ranks n))
  then undefined else
  if Z.of_nat (length recvbuf) <? n * recvcount then undefined else
  if negb (forallb (fun j => count_of j =? recvcount) (ranks n)) then fault else
  modify (log (EvAllgather sendcount recvcount c)) ;;;
  ret (overwrite (concat ((fun j => take (Z.to_nat recvcount) (buffer_of j)) <$> ranks n))
                 recvbuf).

(** Writing a payload into a buffer at an offset. *)
Definition write_at (offset : nat) (data buf : bytes) : bytes :=
  take offset buf ++ data ++ drop (offset + length data) buf.

(** [MPI_Allgatherv(&values[0], sendcount, MPI_CHAR, &recvbuf[0],
    &recvcounts[0], &displs[0], MPI_CHAR, c)]: returns the receive buffer
    after the call. *)
Definition MPI_Allgatherv (peers : Z -> bytes * Z)
    (sendbuf : bytes) (sendcount : Z) (recvbuf : bytes) (recvcounts displs : list Z)
    (c : MPI_Comm) : M bytes :=
  i <- lookup_comm c ;;
  let n := comm_size i in
  let me := comm_rank i in
  let buffer_of := contribution peers me sendbuf in
  let count_of := contributed_count peers me sendcount in
  let recvcount j := nth (Z.to_nat j) recvcounts 0 in
  let displ j := nth (Z.to_nat j) displs 0 in
  if (Z.of_nat (length recvcounts) <? n) || (Z.of_nat (length displs) <? n)
  then undefined else
  if sendcount <? 0 then fault else
  if negb (forallb (fun j => (0 <=? recvcount j) && (0 <=? displ j)) (ranks n))
  then fault else
  if negb (forallb (fun j => count_of j <=? Z.of_nat (length (buffer_of j))) (ranks n))
  then undefined else
  if negb (forallb (fun j => displ j + recvcount j <=? Z.of_nat (length recvbuf)) (ranks n))
  then undefined else
  if negb (forallb (fun j => count_of j =? recvcount j) (ranks n)) then fault else
  modify (log (EvAllgatherv sendcount recvcounts displs c)) ;;;
  ret (foldl (fun buf j =>
                write_at (Z.to_nat (displ j))
                         (take (Z.to_nat (recvcount j)) (buffer_of j)) buf)
             recvbuf (ranks n)).

(** ** Trivially copyable types

    A type the source may pass to [std::memcpy]: [sizeof(T)] bytes of
    object representation, from which the value is recovered. *)

Class TriviallyCopyable (T : Type) : Type := {
  sizeof : nat;
  value_init : T;                       (* T() *)
  object_bytes : T -> bytes;            (* the bytes at &value *)
  from_bytes : bytes -> T;              (* the value whose bytes these are *)
  sizeof_pos : (0 < sizeof)%nat;
  object_bytes_length : forall v, length (object_bytes v) = sizeof;
  from_object_bytes : forall v, from_bytes (object_bytes v) = v
}.
Arguments sizeof T {_}.
Arguments value_init T {_}.

(** [std::memcpy(&buf[0], &value, sizeof(T))] *)
Definition memcpy_from_value {T} `{TriviallyCopyable T} (buf : bytes) (value : T) : M bytes :=
  if (length buf <? sizeof T)%nat then undefined
  else ret (overwrite (object_bytes value) buf).

(** [std::memcpy(&value, &buf[0], sizeof(T))] *)
Definition memcpy_to_value {T} `{TriviallyCopyable T} (buf : bytes) : M T :=
  if (length buf <? sizeof T)%nat then undefined
  else ret (from_bytes (take (sizeof T) buf)).

(** [std::string(n, 0)] with [n] an [int]: the conversion to [size_type]
    turns a negative [n] into a length above [max_size()]. *)
Definition string_fill (n : Z) : M bytes :=
  if n <? 0 then throw (length_error "basic_string")
  else ret (replicate (Z.to_nat n) zero_byte).

(** A [std::string] keeps up to [sso_capacity] characters inside the object
    (15 in libstdc++) and longer contents in a heap block.  [std::move]
    hands a heap block to the target, so that memory taken with [&buf[0]]
    before the move is the target's afterwards; characters kept inside the
    object are copied, and memory taken with [&buf[0]] stays with the
    source. *)
Definition sso_capacity : nat := 15.

(** Whose memory [&buf[0]] is once [buf] has been moved into the buffer of
    a Request. *)
Definition storage_after_move (buf : bytes) : Destination :=
  if (sso_capacity <? length buf)%nat then RequestBuffer else OtherMemory.

(** ** Some trivially copyable types *)

Definition byte_of_Z (z : Z) : byte :=
  default zero_byte (Byte.of_N (Z.to_N (z mod 256))).

Definition Z_of_byte (b : byte) : Z := Z.of_N (Byte.to_N b).

(** Little-endian base-256 digits. *)
Fixpoint le_bytes (n : nat) (u : Z) : bytes :=
  match n with
  | O => []
  | S n' => byte_of_Z u :: le_bytes n' (u / 256)
  end.

Fixpoint le_value (b : bytes) : Z :=
  match b with
  | [] => 0
  | x :: b' => Z_of_byte x + 256 * le_value b'
  end.

(** A 32-bit two's complement [int]. *)
Definition int_range (z : Z) : Prop := - 2 ^ 31 <= z < 2 ^ 31.

Definition int : Type := dsig int_range.

(** The [int] an unsigned 32-bit pattern stands for. *)
Definition to_signed (u : Z) : Z :=
  let v := u mod 2 ^ 32 in
  if v <? 2 ^ 31 then v else v - 2 ^ 32.

Lemma to_signed_range (u : Z) : int_range (to_signed u).
Proof.
  unfold to_signed, int_range.
  pose proof (Z.mod_pos_bound u (2 ^ 32) ltac:(lia)).
  destruct (Z.ltb_spec (u mod 2 ^ 32) (2 ^ 31)); lia.
Qed.

Definition int_of_Z (z : Z) : int := dexist (to_signed z) (to_signed_range z).

Definition int_bytes (v : int) : bytes := le_bytes 4 (`v mod 2 ^ 32).

Definition int_from_bytes (b : bytes) : int := int_of_Z (le_value (take 4 b)).

Lemma Z_of_byte_range (b : byte) : 0 <= Z_of_byte b < 256.
Proof.
  unfold Z_of_byte. pose proof (Byte.to_N_bounded b). lia.
Qed.

Lemma Z_of_byte_of_Z (z : Z) : Z_of_byte (byte_of_Z z) = z mod 256.
Proof.
  unfold Z_of_byte, byte_of_Z.
  pose proof (Z.mod_pos_bound z 256 ltac:(lia)) as Hb.
  destruct (Byte.of_N (Z.to_N (z mod 256))) as [b|] eqn:E.
  - apply Byte.to_of_N in E. simpl. rewrite E. lia.
  - apply Byte.of_N_None_iff in E. lia.
Qed.

Lemma byte_of_Z_of_byte (b : byte) : byte_of_Z (Z_of_byte b) = b.
Proof.
  unfold byte_of_Z. rewrite Z.mod_small by apply Z_of_byte_range.
  unfold Z_of_byte. rewrite N2Z.id, Byte.of_to_N. reflexivity.
Qed.

Lemma le_bytes_length (n : nat) (u : Z) : length (le_bytes n u) = n.
Proof. revert u. induction n as [|n IH]; intros u; simpl; [reflexivity|]. now rewrite IH. Qed.

Lemma le_value_bytes (n : nat) (u : Z) :
  le_value (le_bytes n u) = u mod 256 ^ Z.of_nat n.
Proof.
  revert u. induction n as [|n IH]; intros u.
  - simpl. now rewrite Z.mod_1_r.
  - cbn [le_bytes le_value]. rewrite IH, Z_of_byte_of_Z.
    rewrite Nat2Z.inj_succ, Z.pow_succ_r by lia.
    rewrite (Z.rem_mul_r u 256 (256 ^ Z.of_nat n)) by lia.
    reflexivity.
Qed.

Lemma int_round_trip (v : int) : int_from_bytes (int_bytes v) = v.
Proof.
  destruct v as [z Hz].
  pose proof (bool_decide_unpack _ Hz) as Hr. unfold int_range in Hr.
  apply dsig_eq. unfold int_from_bytes, int_bytes, int_of_Z.
  rewrite take_ge by (rewrite le_bytes_length; lia).
  cbn [proj1_sig dexist].
  rewrite (le_value_bytes 4). unfold to_signed.
  change (256 ^ Z.of_nat 4) with 4294967296.
  change (2 ^ 32) with 4294967296 in *. change (2 ^ 31) with 2147483648 in *.
  rewrite !Z.mod_mod by lia.
  match goal with |- context [?a <? ?b] => destruct (Z.ltb_spec a b) end;
    Z.div_mod_to_equations; lia.
Qed.

#[export] Instance int_copyable : TriviallyCopyable int := {|
  sizeof := 4;
  value_init := int_of_Z 0;
  object_bytes := int_bytes;
  from_bytes := int_from_bytes;
  sizeof_pos := ltac:(lia);
  object_bytes_length := fun v => le_bytes_length 4 _;
  from_object_bytes := int_round_trip
|}.

(** [char] *)
Definition char_from_bytes (b : bytes) : byte :=
  match b with
  | x :: _ => x
  | [] => zero_byte
  end.

#[export] Instance char_copyable : TriviallyCopyable byte := {|
  sizeof := 1;
  value_init := zero_byte;
  object_bytes := fun c => [c];
  from_bytes := char_from_bytes;
  sizeof_pos := ltac:(lia);
  object_bytes_length := fun _ => eq_refl;
  from_object_bytes := fun _ => eq_refl
|}.

(** A struct of two members laid out one after the other. *)
Lemma pair_bytes_length (A B : Type) `{TriviallyCopyable A} `{TriviallyCopyable B}
    (v : A * B) :
  length (object_bytes (fst v) ++ object_bytes (snd v)) = (sizeof A + sizeof B)%nat.
Proof. now rewrite length_app, !object_bytes_length. Qed.

Lemma pair_round_trip (A B : Type) `{TriviallyCopyable A} `{TriviallyCopyable B}
    (v : A * B) :
  (from_bytes (take (sizeof A) (object_bytes (fst v) ++ object_bytes (snd v))),
   from_bytes (take (sizeof B)
                 (drop (sizeof A) (object_bytes (fst v) ++ object_bytes (snd v)))))
  = v.
Proof.
  destruct v as [a b]. cbn [fst snd].
  rewrite take_app_length', drop_app_length' by (symmetry; apply object_bytes_length).
  rewrite take_ge by (rewrite object_bytes_length; lia).
  now rewrite !from_object_bytes.
Qed.

#[export] Instance pair_copyable (A B : Type)
    `{TriviallyCopyable A} `{TriviallyCopyable B} : TriviallyCopyable (A * B) := {|
  sizeof := sizeof A + sizeof B;
  value_init := (value_init A, value_init B);
  object_bytes := fun v => object_bytes (fst v) ++ object_bytes (snd v);
  from_bytes := fun b =>
    (from_bytes (take (sizeof A) b), from_bytes (take (sizeof B) (drop (sizeof A) b)));
  sizeof_pos := ltac:(pose proof (sizeof_pos (T := A)); lia);
  object_bytes_length := pair_bytes_length A B;
  from_object_bytes := pair_round_trip A B
|}.

(** ** class mpi::Status *)

Module Status.

(** [Status() {}] *)
Definition default : Status := mkStatus MPI_Status_indeterminate true.

(** [Status(MPI_Status status) : status(status), null(false) {}] *)
Definition of_MPI_Status (s : MPI_Status) : Status := mkStatus s false.

Definition is_null (s : Status) : bool := null s.

Definition count (s : Status) : Z :=
  if is_null s then 0 else MPI_Get_count (status s).

Definition source (s : Status) : Z :=
  if is_null s then -1 else MPI_SOURCE (status s).

Definition tag (s : Status) : Z :=
  if is_null s then -1 else MPI_TAG (status s).

End Status.

(** ** class mpi::Request

    A method that may change the object returns the object after the call
    next to its result; the operators that involve two objects work on the
    store of objects.  Whether the memory a non-blocking receive writes to
    is the buffer of the Request that tracks it is part of the operation
    ([RecvMatched] or [RecvStray]): [get()] and [get<T>()] read the
    Request's buffer either way. *)

Definition wrong_size : string := "received message has wrong size for data type".

Module Request.

(** [Request() {}] *)
Definition default : Request := mkRequest MPI_REQUEST_NULL [].

Definition is_null (r : Request) : bool := Nat.eqb (request r) MPI_REQUEST_NULL.

(** [void cancel()] *)
Definition cancel (r : Request) : M Request :=
  if negb (is_null r) then
    MPI_Cancel (request r) ;;;
    h <- MPI_Request_free (request r) ;;
    ret (mkRequest h (buffer r))
  else ret r.

Definition is_ready (r : Request) : M bool :=
  MPI_Request_get_status (request r).

(** [const std::string& get()] *)
Definition get (r : Request) : M (bytes * Request) :=
  x <- MPI_Wait (request r) (buffer r) ;;
  let r' := mkRequest (fst x) (snd x) in
  ret (buffer r', r').

(** [template <typename T> T get()] *)
Definition get_T (T : Type) `{TriviallyCopyable T} (r : Request) : M (T * Request) :=
  if negb (Nat.eqb (length (buffer r)) (sizeof T))
  then throw (logic_error wrong_size)
  else
    x <- MPI_Wait (request r) (buffer r) ;;
    let r' := mkRequest (fst x) (snd x) in
    value <- memcpy_to_value (buffer r') ;;
    ret (value, r').

(** *** Objects in the store *)

Definition load (this : addr) : M Request :=
  fun w => match request_objects w !! this with
           | Some r => Returns r w
           | None => Undefined
           end.

Definition store (this : addr) (r : Request) : M unit :=
  modify (set_request_objects (insert this r)).

Definition write_request (this : addr) (h : MPI_Request) : M unit :=
  r <- load this ;; store this (mkRequest h (buffer r)).

Definition write_buffer (this : addr) (b : bytes) : M unit :=
  r <- load this ;; store this (mkRequest (request r) b).

(** [buffer = std::move(other.buffer)]: the target takes the characters,
    then the source string is left empty (also when it is the target). *)
Definition move_buffer (this other : addr) : M unit :=
  o <- load other ;;
  write_buffer this (buffer o) ;;;
  write_buffer other [].

(** [Request(Request&& other)] constructing the object at [this] *)
Definition move_construct (this other : addr) : M unit :=
  store this default ;;;
  move_buffer this other ;;;
  o <- load other ;;
  write_request this (request o) ;;;
  write_request other MPI_REQUEST_NULL.

(** [Request& operator=(Request&& other)] *)
Definition move_assign (this other : addr) : M unit :=
  r <- load this ;;
  r' <- cancel r ;;
  store this r' ;;;
  move_buffer this other ;;;
  o <- load other ;;
  write_request this (request o) ;;;
  write_request other MPI_REQUEST_NULL.

(** [~Request()] of the object at [this]; its storage ends with it. *)
Definition destroy (this : addr) : M unit :=
  r <- load this ;;
  _ <- cancel r ;;
  modify (set_request_objects (delete this)).

End Request.

(** The conversion of an [int] to [std::size_t], and the unsigned division
    and remainder, undefined for a zero divisor. *)
Definition to_size_t (z : Z) : Z := z mod 2 ^ 64.

Definition size_t_div (a b : Z) : M Z :=
  if b =? 0 then undefined else ret (a / b).

Definition size_t_rem (a b : Z) : M Z :=
  if b =? 0 then undefined else ret (a mod b).

(** The bytes of a [std::vector<T>], and the vector a run of bytes holds. *)
Definition vector_bytes {T} `{TriviallyCopyable T} (v : list T) : bytes :=
  concat (object_bytes <$> v).

Fixpoint vector_of_bytes {T} `{TriviallyCopyable T} (n : nat) (b : bytes) : list T :=
  match n with
  | O => []
  | S n' => from_bytes (take (sizeof T) b) :: vector_of_bytes n' (drop (sizeof T) b)
  end.

(** [std::vector<T>(n)] and [std::vector<T>(n, T())] with [n] a
    [size_type]: value-initialised elements; above [max_size()] the
    constructor throws. *)
Definition vector_fill (T : Type) `{TriviallyCopyable T} (n : Z) : M (list T) :=
  if 2 ^ 63 - 1 <? n * Z.of_nat (sizeof T) then throw (length_error "vector")
  else ret (replicate (Z.to_nat n) (value_init T)).

(** [&v[0]] on a [std::vector]: undefined when the vector is empty. *)
Definition first_element {A} (v : list A) : M unit :=
  match v with
  | [] => undefined
  | _ :: _ => ret tt
  end.

(** ** class mpi::Communicator *)

Definition not_divisible : string :=
  "all_to_all send buffer must be divisible by the comm size".
Definition not_comm_size : string :=
  "all_to_all send buffer must equal the comm size".

Module Communicator.

(** [Communicator() {}] *)
Definition default : Communicator := mkCommunicator MPI_COMM_NULL.

Definition is_null (c : Communicator) : bool := Nat.eqb (comm c) MPI_COMM_NULL.

(** [void close()] *)
Definition close (c : Communicator) : M Communicator :=
  if negb (is_null c) then
    _ <- MPI_Comm_free (comm c) ;;
    ret (mkCommunicator MPI_COMM_NULL)
  else ret c.

Definition size (c : Communicator) : M Z :=
  if is_null c then ret 0 else MPI_Comm_size (comm c).

Definition rank (c : Communicator) : M Z :=
  if is_null c then ret (-1) else MPI_Comm_rank (comm c).

Definition barrier (c : Communicator) : M unit := MPI_Barrier (comm c).

Definition probe (c : Communicator) (rank tag : Z) : M Status :=
  s <- MPI_Probe rank tag (comm c) ;;
  ret (Status.of_MPI_Status s).

Definition iprobe (c : Communicator) (rank tag : Z) : M Status :=
  x <- MPI_Iprobe rank tag (comm c) ;;
  if negb (fst x) then ret Status.default
  else ret (Status.of_MPI_Status (snd x)).

(** [std::string recv(int source, int tag) const] *)
Definition recv (c : Communicator) (source tag : Z) : M bytes :=
  status <- probe c source tag ;;
  buf <- string_fill (Status.count status) ;;
  MPI_Recv buf (Z.of_nat (length buf)) source tag (comm c).

(** [Request irecv(int source, int tag) const]: the receive is started on
    [&buf[0]] of the local string [buf], which is then moved into the
    Request that is returned. *)
Definition irecv (c : Communicator) (source tag : Z) : M Request :=
  status <- iprobe c source tag ;;
  if Status.is_null status then ret Request.default
  else
    buf <- string_fill (Status.count status) ;;
    request <- MPI_Irecv (storage_after_move buf) (Z.of_nat (length buf))
                 source tag (comm c) ;;
    ret (mkRequest request buf).

(** [void send(std::string buf, int rank, int tag) const]: [buf.size()]
    is converted to the [int] count of the call. *)
Definition send (c : Communicator) (buf : bytes) (rank tag : Z) : M unit :=
  MPI_Send buf (to_signed (Z.of_nat (length buf))) rank tag (comm c).

(** [Request isend(std::string buf, int rank, int tag) const]: [buf.size()]
    is converted to the [int] count of the call. *)
Definition isend (c : Communicator) (buf : bytes) (rank tag : Z) : M Request :=
  request <- MPI_Isend buf (to_signed (Z.of_nat (length buf))) rank tag (comm c) ;;
  ret (mkRequest request buf).

Section Typed.
Context (T : Type) `{TriviallyCopyable T}.

(** [template <typename T> void send(const T& value, int rank, int tag) const] *)
Definition send_T (c : Communicator) (value : T) (rank tag : Z) : M unit :=
  let buf := replicate (sizeof T) zero_byte in
  buf <- memcpy_from_value buf value ;;
  send c buf rank tag.

(** [template <typename T> Request isend(const T& value, int rank, int tag) const] *)
Definition isend_T (c : Communicator) (value : T) (rank tag : Z) : M Request :=
  let buf := replicate (sizeof T) zero_byte in
  buf <- memcpy_from_value buf value ;;
  isend c buf rank tag.

(** [template <typename T> T recv(int rank, int tag) const] *)
Definition recv_T (c : Communicator) (rank tag : Z) : M T :=
  buf <- recv c rank tag ;;
  if negb (Nat.eqb (length buf) (sizeof T))
  then throw (logic_error wrong_size)
  else memcpy_to_value buf.

(** [template <typename T> std::vector<T> all_to_all(const std::vector<T>& sendbuf) const]:
    the counts, computed in [std::size_t], are converted to [int]. *)
Definition all_to_all_T (peers : Z -> bytes * Z) (c : Communicator) (sendbuf : list T)
  : M (list T) :=
  n <- size c ;;
  if negb (Z.of_nat (length sendbuf) =? to_size_t n)
  then throw (invalid_argument not_comm_size)
  else
    let recvbuf := replicate (length sendbuf) (value_init T) in
    n1 <- size c ;;
    q1 <- size_t_div (Z.of_nat (length sendbuf)) (to_size_t n1) ;;
    n2 <- size c ;;
    q2 <- size_t_div (Z.of_nat (length recvbuf)) (to_size_t n2) ;;
    b <- MPI_Alltoall peers
           (vector_bytes sendbuf) (to_signed (q1 * Z.of_nat (sizeof T)))
           (vector_bytes recvbuf) (to_signed (q2 * Z.of_nat (sizeof T))) (comm c) ;;
    ret (vector_of_bytes (length recvbuf) b).
(** [template <typename T> std::vector<T> all_gather(const T& value) const] *)
Definition all_gather_T (peers : Z -> bytes * Z) (c : Communicator) (value : T)
  : M (list T) :=
  n <- size c ;;
  recvbuf <- vector_fill T (to_size_t n) ;;
  first_element recvbuf ;;;
  b <- MPI_Allgather peers
         (object_bytes value) (Z.of_nat (sizeof T))
         (vector_bytes recvbuf) (Z.of_nat (sizeof T)) (comm c) ;;
  ret (vector_of_bytes (length recvbuf) b).
End Typed.

(** The first loop of the variable-length all-gather: [displs.push_back(last);
    last += count], with [last] a [std::size_t] and the displacements and
    counts [int]s. *)
Fixpoint displacements (recvcounts : list int) (last : Z) : list int * Z :=
  match recvcounts with
  | [] => ([], last)
  | count :: rest =>
      let r := displacements rest (to_size_t (last + `count)) in
      (int_of_Z last :: fst r, snd r)
  end.

Section TypedVector.
Context (T : Type) `{TriviallyCopyable T}.

(** Its last loops: row [i] is resized to [recvcounts[i]] and filled from
    the running iterator [recv]. *)
Fixpoint fill_rows (rows i : nat) (recvcounts : list int) (recv : list T)
  : M (list (list T)) :=
  match rows with
  | O => ret []
  | S rows' =>
      match recvcounts !! i with
      | None => undefined
      | Some count =>
          if `count <? 0 then throw (length_error "vector::resize")
          else if Z.of_nat (length recv) <? `count then undefined
          else
            rest <- fill_rows rows' (S i) recvcounts (drop (Z.to_nat (`count)) recv) ;;
            ret (take (Z.to_nat (`count)) recv :: rest)
      end
  end.

(** [template <typename T> std::vector<std::vector<T>>
    all_gather(const std::vector<T>& values) const] *)
Definition all_gather_vector_T (peers_counts peers_values : Z -> bytes * Z)
    (c : Communicator) (values : list T) : M (list (list T)) :=
  recvcounts <- all_gather_T int peers_counts c (int_of_Z (Z.of_nat (length values))) ;;
  let d := displacements recvcounts 0 in
  recvbuf <- vector_fill T (snd d) ;;
  first_element values ;;;
  first_element recvbuf ;;;
  first_element recvcounts ;;;
  first_element (fst d) ;;;
  b <- MPI_Allgatherv peers_values
         (vector_bytes values) (to_signed (Z.of_nat (length values)))
         (vector_bytes recvbuf) (proj1_sig <$> recvcounts) (proj1_sig <$> fst d)
         (comm c) ;;
  n <- size c ;;
  fill_rows (Z.to_nat (to_size_t n)) 0 recvcounts (vector_of_bytes (length recvbuf) b).
End TypedVector.

(** [std::string all_to_all(const std::string& sendbuf) const]: the
    counts, computed in [std::size_t], are converted to [int]. *)
Definition all_to_all (peers : Z -> bytes * Z) (c : Communicator) (sendbuf : bytes)
  : M bytes :=
  n <- size c ;;
  r <- size_t_rem (Z.of_nat (length sendbuf)) (to_size_t n) ;;
  if negb (r =? 0)
  then throw (invalid_argument not_divisible)
  else
    let recvbuf := replicate (length sendbuf) zero_byte in
    n1 <- size c ;;
    q1 <- size_t_div (Z.of_nat (length sendbuf)) (to_size_t n1) ;;
    n2 <- size c ;;
    q2 <- size_t_div (Z.of_nat (length recvbuf)) (to_size_t n2) ;;
    MPI_Alltoall peers sendbuf (to_signed q1) recvbuf (to_signed q2) (comm c).

(** *** Objects in the store *)

Definition load (this : addr) : M Communicator :=
  fun w => match communicator_objects w !! this with
           | Some c => Returns c w
           | None => Undefined
           end.

Definition store (this : addr) (c : Communicator) : M unit :=
  modify (set_communicator_objects (insert this c)).

(** [Communicator(const Communicator& other)] constructing the object at [this] *)
Definition copy_construct (this other : addr) : M unit :=
  store this default ;;;
  o <- load other ;;
  if negb (is_null o) then
    h <- MPI_Comm_dup (comm o) ;;
    store this (mkCommunicator h)
  else ret tt.

(** [Communicator(Communicator&& other)] constructing the object at [this] *)
Definition move_construct (this other : addr) : M unit :=
  store this default ;;;
  o <- load other ;;
  store this (mkCommunicator (comm o)) ;;;
  store other (mkCommunicator MPI_COMM_NULL).

(** [Communicator& operator=(const Communicator& other)] *)
Definition copy_assign (this other : addr) : M unit :=
  c <- load this ;;
  c' <- close c ;;
  store this c' ;;;
  o <- load other ;;
  if negb (is_null o) then
    h <- MPI_Comm_dup (comm o) ;;
    store this (mkCommunicator h)
  else ret tt.

(** [Communicator& operator=(Communicator&& other)] *)
Definition move_assign (this other : addr) : M unit :=
  c <- load this ;;
  c' <- close c ;;
  store this c' ;;;
  o <- load other ;;
  store this (mkCommunicator (comm o)) ;;;
  store other (mkCommunicator MPI_COMM_NULL).

(** [~Communicator()] of the object at [this] *)
Definition destroy (this : addr) : M unit :=
  c <- load this ;;
  _ <- close c ;;
  modify (set_communicator_objects (delete this)).

End Communicator.

(** [mpi::comm_world()], [world] being the calling process's
    [MPI_COMM_WORLD]. *)
Definition comm_world (world : MPI_Comm) : M Communicator :=
  h <- MPI_Comm_dup world ;;
  ret (mkCommunicator h).

(** ** The earlier revision of [mpi::Request]

    The second source file of the repository holds an earlier revision of
    the three classes.  [Status] and the methods of [Communicator] it has
    are the same text as above (its typed methods ask for a standard-layout
    type where the current ones ask for a trivially copyable one, and it
    has no collectives); [Request] differs: it has [test] and [wait],
    guarded by [throw_if_null], no [cancel], and a move assignment that
    overwrites. *)

Definition null_request : string := "method call on null request".

Module Part000.
Module Request.

Definition default : Request := mkRequest MPI_REQUEST_NULL [].

Definition is_null (r : Request) : bool := Nat.eqb (request r) MPI_REQUEST_NULL.

(** [void throw_if_null()] *)
Definition throw_if_null (r : Request) : M unit :=
  if is_null r then throw (logic_error null_request) else ret tt.

(** [bool test()] *)
Definition test (r : Request) : M (bool * Request) :=
  throw_if_null r ;;;
  x <- MPI_Test (request r) (buffer r) ;;
  ret (snd x, mkRequest (fst (fst x)) (snd (fst x))).

(** [void wait()] *)
Definition wait (r : Request) : M Request :=
  throw_if_null r ;;;
  x <- MPI_Wait (request r) (buffer r) ;;
  ret (mkRequest (fst x) (snd x)).

(** [const std::string& get()] *)
Definition get (r : Request) : M (bytes * Request) :=
  r' <- wait r ;;
  ret (buffer r', r').

(** [template <typename T> T get()] *)
Definition get_T (T : Type) `{TriviallyCopyable T} (r : Request) : M (T * Request) :=
  if negb (Nat.eqb (length (buffer r)) (sizeof T))
  then throw (logic_error wrong_size)
  else
    r' <- wait r ;;
    value <- memcpy_to_value (buffer r') ;;
    ret (value, r').

(** [Request& operator=(Request&& other)] *)
Definition move_assign (this other : addr) : M unit :=
  Request.move_buffer this other ;;;
  o <- Request.load other ;;
  Request.write_request this (request o) ;;;
  Request.write_request other MPI_REQUEST_NULL.

(** [~Request()] of the object at [this] *)
Definition destroy (this : addr) : M unit :=
  r <- Request.load this ;;
  (if negb (is_null r) then
     MPI_Cancel (request r) ;;;
     _ <- MPI_Request_free (request r) ;;
     ret tt
   else ret tt) ;;;
  modify (set_request_objects (delete this)).

End Request.
End Part000.

(** ** A small job to run the calls on

    Two ranks on one context: handle 1 is the communicator of rank 0,
    handle 2 that of rank 1. *)

Definition two_ranks : World :=
  mkWorld (<[1%nat := mkCommInfo [] 2 0 0]> (<[2%nat := mkCommInfo [] 2 1 0]> ∅))
          ∅ [] [] [] ∅ ∅.

Definition comm_of_rank0 : Communicator := mkCommunicator 1.
Definition comm_of_rank1 : Communicator := mkCommunicator 2.

(** The world a call leaves, when it returns or throws. *)
Definition world_after {A} (o : outcome A) (w : World) : World :=
  match o with
  | Returns _ w' => w'
  | Throws _ w' => w'
  | _ => w
  end.

(** The message a receive or probe of [c] with these filters takes in [w]. *)
Definition pending (w : World) (c : MPI_Comm) (source tag : Z) : option Message :=
  if Nat.eqb c MPI_COMM_NULL then None else
  match comms w !! c with
  | Some i => List.find (matches (comm_context i) (comm_rank i) source tag) (mailbox w)
  | None => None
  end.

(** Taking that message out of the queue. *)
Definition consume (c : MPI_Comm) (source tag : Z) (w : World) : World :=
  match comms w !! c with
  | Some i => set_mailbox (remove_first (matches (comm_context i) (comm_rank i) source tag)) w
  | None => w
  end.

(** Rank 0 has sent the two bytes "hi" to rank 1 with tag 7. *)
Definition hi : bytes := ["h"%byte; "i"%byte].
Definition hi_message : Message := mkMessage [] 0 1 7 hi.
Definition two_ranks_hi : World :=
  mkWorld (comms two_ranks) ∅ [] [hi_message] [EvSend hi 1 7 1%nat] ∅ ∅.

(** Rank 1 has started a receive of that message: request 1 tracks it, with
    a two-byte buffer. *)
Definition two_ranks_hi_started : World :=
  mkWorld (comms two_ranks) {[1%nat := RecvMatched hi_message 2]} [] []
          [EvSend hi 1 7 1%nat; EvIprobe 0 7 2%nat true; EvIrecv 2 0 7 2%nat 1%nat] ∅ ∅.
Definition request_for_hi : Request := mkRequest 1 [zero_byte; zero_byte].

(** [Request::get<T>()] in the order the specification words it: wait,
    then validate the size, then reinterpret the bytes. *)
Definition get_T_wait_first (T : Type) `{TriviallyCopyable T} (r : Request) : M (T * Request) :=
  x <- MPI_Wait (request r) (buffer r) ;;
  let r' := mkRequest (fst x) (snd x) in
  if negb (Nat.eqb (length (buffer r')) (sizeof T))
  then throw (logic_error wrong_size)
  else
    value <- memcpy_to_value (buffer r') ;;
    ret (value, r').

(** The other ranks of an [n]-rank group enter the all-to-all with send
    buffers of [len] bytes and the send count [k]. *)
Definition peers_enter (peers : Z -> bytes * Z) (n me len k : Z) : Prop :=
  forall j, 0 <= j < n -> j <> me ->
    snd (peers j) = k /\ Z.of_nat (length (fst (peers j))) = len.

(** Rank 0 enters an all-to-all with the two bytes "01" (one byte per
    rank), and with the two chars '0', '1' in the typed form. *)
Definition zero_one : bytes := ["0"%byte; "1"%byte].
Definition peer_zero_one : Z -> bytes * Z := fun _ => (zero_one, 1).
Definition a_b : bytes := ["a"%byte; "b"%byte].
Definition a_b_c_d : bytes := ["a"%byte; "b"%byte; "c"%byte; "d"%byte].

(** Rank 0 has two sends in flight, tracked by the Request objects at
    addresses 20 and 21; its Communicator object is at address 10, and a
    null Communicator object at address 11. *)
Definition two_ranks_objects : World :=
  mkWorld (comms two_ranks)
          {[1%nat := SendOp hi_message; 2%nat := SendOp hi_message]} []
          [hi_message; hi_message]
          [EvIsend hi 1 7 1%nat 1%nat; EvIsend hi 1 7 1%nat 2%nat]
          {[20%nat := mkRequest 1 hi; 21%nat := mkRequest 2 hi]}
          {[10%nat := comm_of_rank0; 11%nat := Communicator.default]}.

(** Two handles on the same group: same number of ranks, same rank. *)
Definition same_group (w : World) (h h' : MPI_Comm) : Prop :=
  exists i i', comms w !! h = Some i /\ comms w !! h' = Some i'
               /\ comm_size i = comm_size i' /\ comm_rank i = comm_rank i'.

(** An operation of the transport that no Request object tracks. *)
Definition dangling (w : World) (h : MPI_Request) : Prop :=
  is_Some (operations w !! h)
  /\ forall a r, request_objects w !! a = Some r -> request r <> h.

(** Every operation of the transport is tracked by some Request object. *)
Definition all_tracked (w : World) : Prop := forall h, ~ dangling w h.

(** What [close()] leaves, for a communicator that is null or holds a
    valid group. *)
Definition closed (c : Communicator) (w : World) : World :=
  if Communicator.is_null c then w
  else log (EvCommFree (comm c)) (set_comms (delete (comm c)) w).

(** * Properties *)

(** ** Null objects *)

Lemma status_null_sentinels (s : Status) :
  Status.is_null s = true ->
  Status.count s = 0 /\ Status.source s = -1 /\ Status.tag s = -1.
Proof.
  intros Hn. unfold Status.count, Status.source, Status.tag.
  rewrite Hn. repeat split.
Qed.

Lemma lookup_comm_valid (c : MPI_Comm) (i : CommInfo) (w : World) :
  c <> MPI_COMM_NULL -> comms w !! c = Some i -> lookup_comm c w = Returns i w.
Proof.
  intros Hc Hi. unfold lookup_comm.
  destruct (Nat.eqb_spec c MPI_COMM_NULL) as [->|_]; [contradiction|].
  now rewrite Hi.
Qed.

Lemma is_null_false (c : Communicator) :
  Communicator.is_null c = false -> comm c <> MPI_COMM_NULL.
Proof. unfold Communicator.is_null. now intros H%Nat.eqb_neq. Qed.

Lemma iprobe_idle (c : Communicator) (i : CommInfo) (source tag : Z) (w : World) :
  Communicator.is_null c = false ->
  comms w !! comm c = Some i ->
  List.find (matches (comm_context i) (comm_rank i) source tag) (mailbox w) = None ->
  Communicator.iprobe c source tag w
  = Returns Status.default (log (EvIprobe source tag (comm c) false) w).
Proof.
  intros Hc%is_null_false Hi Hq.
  unfold Communicator.iprobe, MPI_Iprobe, bind.
  rewrite (lookup_comm_valid _ i) by assumption.
  cbn. now rewrite Hq.
Qed.

(** C9. On a null Communicator [size()] returns 0 and [rank()] returns -1
    in every world, without failing; [iprobe] with no matching message
    pending returns a null Status, and on a null Status [is_null()] is true
    and [count()], [source()], [tag()] are 0, -1, -1. *)
Theorem null_state_accessors
    (cn c : Communicator) (i : CommInfo) (source tag : Z) (s : Status) (w : World) :
  Communicator.is_null cn = true ->
  Status.is_null s = true ->
  Communicator.is_null c = false ->
  comms w !! comm c = Some i ->
  List.find (matches (comm_context i) (comm_rank i) source tag) (mailbox w) = None ->
  Communicator.size cn w = Returns 0 w
  /\ Communicator.rank cn w = Returns (-1) w
  /\ (Status.count s = 0 /\ Status.source s = -1 /\ Status.tag s = -1)
  /\ exists s' w',
       Communicator.iprobe c source tag w = Returns s' w'
       /\ Status.is_null s' = true
       /\ Status.count s' = 0 /\ Status.source s' = -1 /\ Status.tag s' = -1.
Proof.
  intros Hcn Hs Hc Hi Hq.
  split; [|split; [|split]].
  - unfold Communicator.size. now rewrite Hcn.
  - unfold Communicator.rank. now rewrite Hcn.
  - now apply status_null_sentinels.
  - exists Status.default, (log (EvIprobe source tag (comm c) false) w).
    split; [now apply (iprobe_idle c i)|].
    split; [reflexivity|]. now apply status_null_sentinels.
Qed.

Lemma null_state_accessors_witness :
  Communicator.size Communicator.default two_ranks = Returns 0 two_ranks
  /\ Communicator.rank Communicator.default two_ranks = Returns (-1) two_ranks
  /\ (Status.count Status.default = 0 /\ Status.source Status.default = -1
      /\ Status.tag Status.default = -1)
  /\ exists s' w',
       Communicator.iprobe comm_of_rank1 any_source any_tag two_ranks = Returns s' w'
       /\ Status.is_null s' = true
       /\ Status.count s' = 0 /\ Status.source s' = -1 /\ Status.tag s' = -1.
Proof.
  apply (null_state_accessors Communicator.default comm_of_rank1
           (mkCommInfo [] 2 1 0) any_source any_tag Status.default two_ranks);
    reflexivity.
Defined.


(** ** The transport's calls, when they go through *)

Lemma bind_returns {A B} (m : M A) (k : A -> M B) (w w' : World) (a : A) :
  m w = Returns a w' -> bind m k w = k a w'.
Proof. intros E. unfold bind. now rewrite E. Qed.

Lemma bind_throws {A B} (m : M A) (k : A -> M B) (w w' : World) (e : exception) :
  m w = Throws e w' -> bind m k w = Throws e w'.
Proof. intros E. unfold bind. now rewrite E. Qed.

Lemma pending_inv (w : World) (c : MPI_Comm) (source tag : Z) (m : Message) :
  pending w c source tag = Some m ->
  exists i, c <> MPI_COMM_NULL /\ comms w !! c = Some i
    /\ List.find (matches (comm_context i) (comm_rank i) source tag) (mailbox w) = Some m.
Proof.
  unfold pending. destruct (Nat.eqb_spec c MPI_COMM_NULL) as [|Hc]; [discriminate|].
  destruct (comms w !! c) as [i|]; [|discriminate].
  intros E. exists i. auto.
Qed.

Lemma pending_none_inv (w : World) (c : MPI_Comm) (i : CommInfo) (source tag : Z) :
  c <> MPI_COMM_NULL -> comms w !! c = Some i ->
  pending w c source tag = None ->
  List.find (matches (comm_context i) (comm_rank i) source tag) (mailbox w) = None.
Proof.
  intros Hc Hi. unfold pending.
  destruct (Nat.eqb_spec c MPI_COMM_NULL); [contradiction|]. now rewrite Hi.
Qed.

Lemma MPI_Probe_pending (w : World) (c : MPI_Comm) (source tag : Z) (m : Message) :
  pending w c source tag = Some m ->
  MPI_Probe source tag c w = Returns (status_of m) (log (EvProbe source tag c) w).
Proof.
  intros (i & Hc & Hi & Hq)%pending_inv.
  unfold MPI_Probe. rewrite (bind_returns _ _ _ _ _ (lookup_comm_valid c i w Hc Hi)).
  cbn. now rewrite Hq.
Qed.

Lemma MPI_Probe_returns (w w' : World) (c : MPI_Comm) (source tag : Z) (s : MPI_Status) :
  MPI_Probe source tag c w = Returns s w' ->
  exists m, pending w c source tag = Some m /\ s = status_of m
            /\ w' = log (EvProbe source tag c) w.
Proof.
  unfold MPI_Probe, pending, bind, lookup_comm.
  destruct (Nat.eqb c MPI_COMM_NULL); [discriminate|].
  destruct (comms w !! c) as [i|]; [|discriminate]. cbn.
  destruct (List.find _ (mailbox w)) as [m|]; [|discriminate].
  cbn. intros [= <- <-]. now exists m.
Qed.

Lemma MPI_Iprobe_pending (w : World) (c : MPI_Comm) (source tag : Z) (m : Message) :
  pending w c source tag = Some m ->
  MPI_Iprobe source tag c w
  = Returns (true, status_of m) (log (EvIprobe source tag c true) w).
Proof.
  intros (i & Hc & Hi & Hq)%pending_inv.
  unfold MPI_Iprobe. rewrite (bind_returns _ _ _ _ _ (lookup_comm_valid c i w Hc Hi)).
  cbn. now rewrite Hq.
Qed.

Lemma pending_log (e : Event) (w : World) (c : MPI_Comm) (source tag : Z) :
  pending (log e w) c source tag = pending w c source tag.
Proof. reflexivity. Qed.

Lemma length_overwrite (data buf : bytes) :
  (length data <= length buf)%nat -> length (overwrite data buf) = length buf.
Proof.
  intros Hle. unfold overwrite. rewrite length_app, length_drop. lia.
Qed.

Lemma overwrite_same_length (data buf : bytes) :
  length data = length buf -> overwrite data buf = data.
Proof.
  intros E. unfold overwrite. rewrite drop_ge by lia. apply app_nil_r.
Qed.

Lemma MPI_Recv_pending (w : World) (c : MPI_Comm) (source tag : Z) (m : Message)
    (buf : bytes) :
  pending w c source tag = Some m ->
  length buf = length (msg_data m) ->
  MPI_Recv buf (Z.of_nat (length buf)) source tag c w
  = Returns (msg_data m)
      (log (EvRecv (Z.of_nat (length buf)) source tag c) (consume c source tag w)).
Proof.
  intros (i & Hc & Hi & Hq)%pending_inv Hlen.
  unfold MPI_Recv. rewrite (bind_returns _ _ _ _ _ (lookup_comm_valid c i w Hc Hi)).
  destruct (Z.ltb_spec (Z.of_nat (length buf)) 0); [lia|].
  rewrite Z.ltb_irrefl. cbn. rewrite Hq, Hlen, Z.ltb_irrefl. cbn.
  unfold consume. rewrite Hi. now rewrite overwrite_same_length.
Qed.

Lemma string_fill_nat (n : nat) (w : World) :
  string_fill (Z.of_nat n) w = Returns (replicate n zero_byte) w.
Proof.
  unfold string_fill. destruct (Z.ltb_spec (Z.of_nat n) 0); [lia|].
  now rewrite Nat2Z.id.
Qed.

(** ** Blocking receive *)

Lemma probe_pending (c : Communicator) (source tag : Z) (m : Message) (w : World) :
  pending w (comm c) source tag = Some m ->
  Communicator.probe c source tag w
  = Returns (Status.of_MPI_Status (status_of m)) (log (EvProbe source tag (comm c)) w).
Proof.
  intros Hm. unfold Communicator.probe.
  now rewrite (bind_returns _ _ _ _ _ (MPI_Probe_pending _ _ _ _ _ Hm)).
Qed.

Lemma probe_returns (c : Communicator) (source tag : Z) (st : Status) (w w1 : World) :
  Communicator.probe c source tag w = Returns st w1 ->
  exists m, pending w (comm c) source tag = Some m
            /\ st = Status.of_MPI_Status (status_of m).
Proof.
  intros Hp. unfold Communicator.probe, bind in Hp.
  destruct (MPI_Probe source tag (comm c) w) as [s w0| | | |] eqn:E; try discriminate.
  cbn in Hp. injection Hp as <- <-.
  apply MPI_Probe_returns in E as (m & Hm & -> & ->). now exists m.
Qed.

Lemma recv_pending (c : Communicator) (source tag : Z) (m : Message) (w : World) :
  pending w (comm c) source tag = Some m ->
  Communicator.recv c source tag w
  = Returns (msg_data m)
      (log (EvRecv (Z.of_nat (length (msg_data m))) source tag (comm c))
         (consume (comm c) source tag (log (EvProbe source tag (comm c)) w))).
Proof.
  intros Hm. unfold Communicator.recv.
  rewrite (bind_returns _ _ _ _ _ (probe_pending _ _ _ _ _ Hm)).
  cbn [Status.count Status.of_MPI_Status Status.is_null null status
       MPI_Get_count status_of status_count].
  rewrite (bind_returns _ _ _ _ _ (string_fill_nat _ _)).
  rewrite MPI_Recv_pending with (m := m);
    [|now rewrite pending_log|now rewrite length_replicate].
  now rewrite length_replicate.
Qed.

(** C2. When a probe for (source, tag) returns a status in some world, the
    untyped [recv] for the same pair in that world returns a buffer whose
    length is the [count()] of that status; the transport sees the probe,
    then one receive of exactly that many bytes, and the buffer holds the
    payload of the probed message. *)
Theorem recv_length_is_probe_count
    (c : Communicator) (source tag : Z) (st : Status) (w w1 : World) :
  Communicator.probe c source tag w = Returns st w1 ->
  exists buf w',
    Communicator.recv c source tag w = Returns buf w'
    /\ Z.of_nat (length buf) = Status.count st
    /\ Some buf = msg_data <$> pending w (comm c) source tag
    /\ trace w' = trace w ++ [EvProbe source tag (comm c);
                              EvRecv (Status.count st) source tag (comm c)].
Proof.
  intros (m & Hm & ->)%probe_returns.
  exists (msg_data m). eexists.
  split; [now apply recv_pending|].
  rewrite Hm. repeat split.
  cbn. unfold consume.
  destruct (comms _ !! comm c); cbn; now rewrite <- app_assoc.
Qed.

Lemma recv_length_is_probe_count_witness :
  exists buf w',
    Communicator.recv comm_of_rank1 0 7 two_ranks_hi = Returns buf w'
    /\ Z.of_nat (length buf) = Status.count (Status.of_MPI_Status (mkMPI_Status 0 7 2))
    /\ Some buf = msg_data <$> pending two_ranks_hi (comm comm_of_rank1) 0 7
    /\ trace w' = trace two_ranks_hi
                   ++ [EvProbe 0 7 (comm comm_of_rank1);
                       EvRecv (Status.count (Status.of_MPI_Status (mkMPI_Status 0 7 2)))
                              0 7 (comm comm_of_rank1)].
Proof.
  apply (recv_length_is_probe_count comm_of_rank1 0 7
           (Status.of_MPI_Status (mkMPI_Status 0 7 2)) two_ranks_hi
           (log (EvProbe 0 7 2%nat) two_ranks_hi)).
  reflexivity.
Defined.

(** ** Non-blocking receive *)

Lemma fresh_handle_not_null {V} (t : gmap nat V) : fresh_handle t <> 0%nat.
Proof.
  unfold fresh_handle. intros E.
  apply (is_fresh ({[0%nat]} ∪ dom t)). rewrite E. set_solver.
Qed.

Lemma fresh_handle_unused {V} (t : gmap nat V) : t !! fresh_handle t = None.
Proof.
  unfold fresh_handle. apply not_elem_of_dom. intros E.
  apply (is_fresh ({[0%nat]} ∪ dom t)). set_solver.
Qed.

Lemma iprobe_pending (c : Communicator) (source tag : Z) (m : Message) (w : World) :
  pending w (comm c) source tag = Some m ->
  Communicator.iprobe c source tag w
  = Returns (Status.of_MPI_Status (status_of m))
            (log (EvIprobe source tag (comm c) true) w).
Proof.
  intros Hm. unfold Communicator.iprobe.
  now rewrite (bind_returns _ _ _ _ _ (MPI_Iprobe_pending _ _ _ _ _ Hm)).
Qed.

Lemma MPI_Irecv_pending (w : World) (c : MPI_Comm) (source tag : Z) (m : Message)
    (n : nat) (dest : Destination) :
  pending w c source tag = Some m ->
  MPI_Irecv dest (Z.of_nat n) source tag c w
  = Returns (fresh_handle (operations w))
      (log (EvIrecv (Z.of_nat n) source tag c (fresh_handle (operations w)))
         (set_operations (insert (fresh_handle (operations w)) (matched dest m n))
            (consume c source tag w))).
Proof.
  intros (i & Hc & Hi & Hq)%pending_inv.
  unfold MPI_Irecv. rewrite (bind_returns _ _ _ _ _ (lookup_comm_valid c i w Hc Hi)).
  destruct (Z.ltb_spec (Z.of_nat n) 0); [lia|].
  cbn. rewrite Hq. cbn. unfold consume. rewrite Hi, Nat2Z.id. reflexivity.
Qed.

(** C8. [irecv] starts with a non-blocking probe.  With no matching message
    pending it returns a null Request and has made no other call.  With a
    message pending, the probe reports the message's byte count; [irecv]
    creates a zero-filled buffer of exactly that many bytes, starts one
    receive of that many bytes on the memory of that buffer, and returns a
    non-null Request that tracks the operation and owns a buffer of that
    size and content.  (The buffer is moved into the Request after the
    receive was started: a buffer longer than 15 bytes takes its memory
    along, so that the receive writes to the Request's buffer; a shorter
    one is copied, and the receive writes to memory the Request does not
    own.) *)
Theorem irecv_probes_then_receives
    (c : Communicator) (i : CommInfo) (source tag : Z) (w : World) :
  Communicator.is_null c = false ->
  comms w !! comm c = Some i ->
  match pending w (comm c) source tag with
  | None =>
      Communicator.irecv c source tag w
      = Returns Request.default (log (EvIprobe source tag (comm c) false) w)
      /\ Request.is_null Request.default = true
  | Some m =>
      exists r w' st w1,
        Communicator.irecv c source tag w = Returns r w'
        /\ Request.is_null r = false
        /\ Communicator.iprobe c source tag w = Returns st w1
        /\ Status.count st = Z.of_nat (length (msg_data m))
        /\ Z.of_nat (length (buffer r)) = Status.count st
        /\ buffer r = replicate (length (msg_data m)) zero_byte
        /\ operations w !! request r = None
        /\ operations w' !! request r
           = Some (if (15 <? length (msg_data m))%nat
                   then RecvMatched m (length (msg_data m))
                   else RecvStray m (length (msg_data m)))
        /\ trace w' = trace w ++ [EvIprobe source tag (comm c) true;
                                  EvIrecv (Z.of_nat (length (msg_data m)))
                                          source tag (comm c) (request r)]
  end.
Proof.
  intros Hc Hi.
  destruct (pending w (comm c) source tag) as [m|] eqn:Hm.
  - exists (mkRequest (fresh_handle (operations w))
                      (replicate (length (msg_data m)) zero_byte)).
    eexists. exists (Status.of_MPI_Status (status_of m)). eexists.
    split; [|split; [|split; [|split; [|split; [|split; [|split; [|split]]]]]]].
    + unfold Communicator.irecv.
      rewrite (bind_returns _ _ _ _ _ (iprobe_pending _ _ _ _ _ Hm)).
      cbn [Status.count Status.of_MPI_Status Status.is_null null status
           MPI_Get_count status_of status_count].
      rewrite (bind_returns _ _ _ _ _ (string_fill_nat _ _)).
      rewrite length_replicate.
      rewrite (bind_returns _ _ _ _ _
                 (MPI_Irecv_pending (log (EvIprobe source tag (comm c) true) w)
                    _ _ _ m _ _ Hm)).
      reflexivity.
    + unfold Request.is_null. cbn. apply Nat.eqb_neq, fresh_handle_not_null.
    + now apply iprobe_pending.
    + reflexivity.
    + cbn. now rewrite length_replicate.
    + reflexivity.
    + cbn. apply fresh_handle_unused.
    + cbn [request buffer]. unfold storage_after_move, sso_capacity.
      rewrite length_replicate.
      replace (if (15 <? length (msg_data m))%nat
               then RecvMatched m (length (msg_data m))
               else RecvStray m (length (msg_data m)))
        with (matched (if (15 <? length (msg_data m))%nat
                       then RequestBuffer else OtherMemory) m (length (msg_data m)))
        by now destruct (15 <? length (msg_data m))%nat.
      unfold consume, log, set_operations.
      destruct (comms _ !! comm c); cbn [operations]; apply lookup_insert_eq.
    + cbn. unfold consume.
      destruct (comms _ !! comm c); cbn; now rewrite <- app_assoc.
  - split; [|reflexivity].
    unfold Communicator.irecv.
    rewrite (bind_returns _ _ _ _ _ (iprobe_idle c i source tag w Hc Hi
               (pending_none_inv _ _ _ _ _ (is_null_false _ Hc) Hi Hm))).
    reflexivity.
Qed.

Lemma irecv_probes_then_receives_witness :
  Communicator.is_null comm_of_rank1 = false
  /\ comms two_ranks_hi !! comm comm_of_rank1 = Some (mkCommInfo [] 2 1 0)
  /\ exists r w' st w1,
       Communicator.irecv comm_of_rank1 0 7 two_ranks_hi = Returns r w'
       /\ Request.is_null r = false
       /\ Communicator.iprobe comm_of_rank1 0 7 two_ranks_hi = Returns st w1
       /\ Status.count st = 2
       /\ Z.of_nat (length (buffer r)) = Status.count st
       /\ buffer r = [zero_byte; zero_byte]
       /\ operations two_ranks_hi !! request r = None
       /\ operations w' !! request r = Some (RecvStray hi_message 2)
       /\ trace w' = trace two_ranks_hi
                      ++ [EvIprobe 0 7 (comm comm_of_rank1) true;
                          EvIrecv 2 0 7 (comm comm_of_rank1) (request r)].
Proof.
  split; [reflexivity|]. split; [reflexivity|].
  exact (irecv_probes_then_receives comm_of_rank1 (mkCommInfo [] 2 1 0) 0 7 two_ranks_hi
           eq_refl eq_refl).
Defined.

(** ** Typed receive *)

Lemma MPI_Wait_length (h h' : MPI_Request) (buf buf' : bytes) (w w' : World) :
  MPI_Wait h buf w = Returns (h', buf') w' ->
  h' = MPI_REQUEST_NULL /\ length buf' = length buf.
Proof.
  unfold MPI_Wait, bind, lookup_operation, modify, ret, fault, block, undefined.
  destruct (Nat.eqb h MPI_REQUEST_NULL); [now intros [= <- <- <-]|].
  destruct (operations w !! h) as [[m|r|m count|m count|]|]; try discriminate.
  - now intros [= <- <- <-].
  - destruct (count <? length (msg_data m))%nat; [discriminate|].
    destruct (Nat.ltb_spec (length buf) (length (msg_data m))); [discriminate|].
    intros [= <- <- <-]. split; [reflexivity|]. now apply length_overwrite.
  - destruct (count <? length (msg_data m))%nat; [discriminate|].
    now intros [= <- <- <-].
  - now intros [= <- <- <-].
Qed.

Lemma MPI_Wait_matched (h : MPI_Request) (m : Message) (buf : bytes) (w : World) :
  h <> MPI_REQUEST_NULL ->
  operations w !! h = Some (RecvMatched m (length buf)) ->
  length buf = length (msg_data m) ->
  MPI_Wait h buf w = Returns (MPI_REQUEST_NULL, msg_data m) (log (EvWait h) (release h w)).
Proof.
  intros Hh Ho Hlen. unfold MPI_Wait, bind, lookup_operation.
  destruct (Nat.eqb_spec h MPI_REQUEST_NULL); [contradiction|].
  rewrite Ho. unfold modify, ret. rewrite Hlen, Nat.ltb_irrefl.
  now rewrite overwrite_same_length.
Qed.

Lemma memcpy_to_value_exact (T : Type) `{TriviallyCopyable T} (buf : bytes) (w : World) :
  length buf = sizeof T -> memcpy_to_value buf w = Returns (from_bytes buf) w.
Proof.
  intros E. unfold memcpy_to_value. rewrite E, Nat.ltb_irrefl.
  now rewrite take_ge by lia.
Qed.



(** ** Order of validation and wait in [get<T>()] *)

Lemma get_T_wrong_size (T : Type) `{TriviallyCopyable T} (r : Request) (w : World) :
  length (buffer r) <> sizeof T ->
  Request.get_T T r w = Throws (logic_error wrong_size) w
  /\ Part000.Request.get_T T r w = Throws (logic_error wrong_size) w.
Proof.
  intros Hne. unfold Request.get_T, Part000.Request.get_T.
  now destruct (Nat.eqb_spec (length (buffer r)) (sizeof T)).
Qed.

Lemma get_T_right_size (T : Type) `{TriviallyCopyable T} (r : Request) (w : World) :
  length (buffer r) = sizeof T ->
  Request.get_T T r w
  = bind (MPI_Wait (request r) (buffer r))
         (fun x => ret (from_bytes (snd x), mkRequest (fst x) (snd x))) w.
Proof.
  intros E. unfold Request.get_T. rewrite E, Nat.eqb_refl. cbn [negb].
  unfold bind. destruct (MPI_Wait (request r) (buffer r) w) as [[h' buf'] w'| | | |] eqn:Ew;
    try reflexivity.
  apply MPI_Wait_length in Ew as [_ Hlen]. cbn [fst snd buffer].
  rewrite memcpy_to_value_exact by lia. reflexivity.
Qed.

Lemma part000_get_T_right_size (T : Type) `{TriviallyCopyable T} (r : Request) (w : World) :
  length (buffer r) = sizeof T ->
  Part000.Request.get_T T r w
  = bind (Part000.Request.wait r) (fun r' => ret (from_bytes (buffer r'), r')) w.
Proof.
  intros E. unfold Part000.Request.get_T. rewrite E, Nat.eqb_refl. cbn [negb].
  unfold bind at 1 3.
  destruct (Part000.Request.wait r w) as [r' w'| | | |] eqn:Ew; try reflexivity.
  assert (length (buffer r') = length (buffer r)) as Hlen.
  { unfold Part000.Request.wait, Part000.Request.throw_if_null, bind in Ew.
    destruct (Part000.Request.is_null r); [discriminate|]. cbn in Ew.
    destruct (MPI_Wait (request r) (buffer r) w) as [[h' buf'] w0| | | |] eqn:Ew0;
      try discriminate.
    apply MPI_Wait_length in Ew0 as [_ Hlen]. cbn in Ew. now injection Ew as <- <-. }
  unfold bind. rewrite memcpy_to_value_exact by lia. reflexivity.
Qed.

(** C3, as the code has it.  In both revisions [get<T>()] validates first:
    when the buffer's size is not [sizeof(T)] it throws the logic error at
    once, in the world it was called in, the operation still pending and no
    wait made; when the size is [sizeof(T)] it is exactly the wait (in the
    earlier revision [wait()], which throws on a null request) followed by
    the reinterpretation of the buffer's bytes. *)
Theorem get_T_validates_then_waits
    (T : Type) `{TriviallyCopyable T} (r : Request) (w : World) :
  (length (buffer r) <> sizeof T
   /\ Request.get_T T r w = Throws (logic_error wrong_size) w
   /\ Part000.Request.get_T T r w = Throws (logic_error wrong_size) w)
  \/
  (length (buffer r) = sizeof T
   /\ Request.get_T T r w
      = bind (MPI_Wait (request r) (buffer r))
             (fun x => ret (from_bytes (snd x), mkRequest (fst x) (snd x))) w
   /\ Part000.Request.get_T T r w
      = bind (Part000.Request.wait r) (fun r' => ret (from_bytes (buffer r'), r')) w
   /\ Request.get_T T r w = get_T_wait_first T r w).
Proof.
  destruct (Nat.eq_dec (length (buffer r)) (sizeof T)) as [E|E].
  - right. split; [assumption|].
    split; [now apply get_T_right_size|].
    split; [now apply part000_get_T_right_size|].
    rewrite get_T_right_size by assumption.
    unfold get_T_wait_first, bind.
    destruct (MPI_Wait (request r) (buffer r) w) as [[h' buf'] w'| | | |] eqn:Ew;
      try reflexivity.
    apply MPI_Wait_length in Ew as [_ Hlen]. cbn [fst snd buffer].
    rewrite Hlen, E, Nat.eqb_refl. cbn [negb].
    rewrite memcpy_to_value_exact by lia. reflexivity.
  - left. split; [assumption|]. now apply get_T_wrong_size.
Qed.

(** The order "wait, then validate" is not the code's: on a request that
    tracks a matched two-byte receive, [get<int>()] throws with the
    operation still pending and no wait in the trace, where waiting first
    would have completed the operation before throwing. *)
Lemma get_T_does_not_wait_first :
  Request.get_T int request_for_hi two_ranks_hi_started
  = Throws (logic_error wrong_size) two_ranks_hi_started
  /\ operations two_ranks_hi_started !! request request_for_hi
     = Some (RecvMatched hi_message 2)
  /\ get_T_wait_first int request_for_hi two_ranks_hi_started
     = Throws (logic_error wrong_size)
         (log (EvWait 1%nat) (release 1%nat two_ranks_hi_started))
  /\ Request.get_T int request_for_hi two_ranks_hi_started
     <> get_T_wait_first int request_for_hi two_ranks_hi_started
  /\ Part000.Request.get_T int request_for_hi two_ranks_hi_started
     <> get_T_wait_first int request_for_hi two_ranks_hi_started.
Proof.
  split; [reflexivity|]. split; [reflexivity|]. split; [reflexivity|].
  split; intros E; apply (f_equal (fun o => length (trace (world_after o two_ranks)))) in E;
    vm_compute in E; discriminate.
Qed.

(** ** Round trip of a typed value *)

Lemma to_signed_small (z : Z) : 0 <= z < 2 ^ 31 -> to_signed z = z.
Proof.
  intros Hz. unfold to_signed. rewrite Z.mod_small by lia.
  destruct (Z.ltb_spec z (2 ^ 31)); lia.
Qed.

Lemma find_app_last (p : Message -> bool) (q : list Message) (m : Message) :
  List.find p q = None -> p m = true -> List.find p (q ++ [m]) = Some m.
Proof.
  induction q as [|x q IH]; cbn; intros Hq Hm.
  - now rewrite Hm.
  - destruct (p x); [discriminate|]. now apply IH.
Qed.

Lemma deliver_to_mailbox (m : Message) (w : World) :
  accepting (operations w) m (posted w) = None ->
  deliver m w = set_mailbox (fun q => q ++ [m]) w.
Proof. intros E. unfold deliver. now rewrite E. Qed.

Lemma memcpy_from_value_fresh (T : Type) `{TriviallyCopyable T} (v : T) (w : World) :
  memcpy_from_value (replicate (sizeof T) zero_byte) v w = Returns (object_bytes v) w.
Proof.
  unfold memcpy_from_value. rewrite length_replicate, Nat.ltb_irrefl.
  rewrite overwrite_same_length;
    [reflexivity|now rewrite object_bytes_length, length_replicate].
Qed.

Lemma MPI_Send_buffered (w : World) (c : MPI_Comm) (i : CommInfo) (buf : bytes)
    (dest tag : Z) :
  c <> MPI_COMM_NULL -> comms w !! c = Some i ->
  valid_dest i dest tag = true ->
  accepting (operations w) (mkMessage (comm_context i) (comm_rank i) dest tag buf)
            (posted w) = None ->
  MPI_Send buf (Z.of_nat (length buf)) dest tag c w
  = Returns tt
      (log (EvSend buf dest tag c)
         (set_mailbox
            (fun q => q ++ [mkMessage (comm_context i) (comm_rank i) dest tag buf]) w)).
Proof.
  intros Hc Hi Hd Ha. unfold MPI_Send.
  rewrite (bind_returns _ _ _ _ _ (lookup_comm_valid c i w Hc Hi)).
  destruct (Z.ltb_spec (Z.of_nat (length buf)) 0); [lia|].
  rewrite Z.ltb_irrefl, Hd. cbn [negb].
  rewrite Nat2Z.id, take_ge by lia.
  unfold bind, modify. now rewrite deliver_to_mailbox.
Qed.

Lemma MPI_Isend_buffered (w : World) (c : MPI_Comm) (i : CommInfo) (buf : bytes)
    (dest tag : Z) :
  c <> MPI_COMM_NULL -> comms w !! c = Some i ->
  valid_dest i dest tag = true ->
  accepting (operations w) (mkMessage (comm_context i) (comm_rank i) dest tag buf)
            (posted w) = None ->
  MPI_Isend buf (Z.of_nat (length buf)) dest tag c w
  = Returns (fresh_handle (operations w))
      (log (EvIsend buf dest tag c (fresh_handle (operations w)))
         (set_operations
            (insert (fresh_handle (operations w))
               (SendOp (mkMessage (comm_context i) (comm_rank i) dest tag buf)))
            (set_mailbox
               (fun q => q ++ [mkMessage (comm_context i) (comm_rank i) dest tag buf]) w))).
Proof.
  intros Hc Hi Hd Ha. unfold MPI_Isend.
  rewrite (bind_returns _ _ _ _ _ (lookup_comm_valid c i w Hc Hi)).
  destruct (Z.ltb_spec (Z.of_nat (length buf)) 0); [lia|].
  rewrite Z.ltb_irrefl, Hd. cbn [negb].
  rewrite Nat2Z.id, take_ge by lia.
  unfold bind, modify, get_world, ret. now rewrite deliver_to_mailbox.
Qed.

Lemma pending_after_send (w : World) (c : MPI_Comm) (i : CommInfo) (source tag : Z)
    (m : Message) :
  c <> MPI_COMM_NULL -> comms w !! c = Some i ->
  pending w c source tag = None ->
  matches (comm_context i) (comm_rank i) source tag m = true ->
  pending (set_mailbox (fun q => q ++ [m]) w) c source tag = Some m.
Proof.
  intros Hc Hi Hp Hm. unfold pending.
  destruct (Nat.eqb_spec c MPI_COMM_NULL); [contradiction|].
  cbn. rewrite Hi. apply find_app_last; [|assumption].
  now apply (pending_none_inv w c).
Qed.

Lemma irecv_pending (c : Communicator) (source tag : Z) (m : Message) (w : World) :
  pending w (comm c) source tag = Some m ->
  Communicator.irecv c source tag w
  = Returns (mkRequest (fresh_handle (operations w))
                       (replicate (length (msg_data m)) zero_byte))
      (log (EvIrecv (Z.of_nat (length (msg_data m))) source tag (comm c)
                    (fresh_handle (operations w)))
         (set_operations
            (insert (fresh_handle (operations w))
                    (matched (storage_after_move
                                (replicate (length (msg_data m)) zero_byte))
                             m (length (msg_data m))))
            (consume (comm c) source tag (log (EvIprobe source tag (comm c) true) w)))).
Proof.
  intros Hm. unfold Communicator.irecv.
  rewrite (bind_returns _ _ _ _ _ (iprobe_pending _ _ _ _ _ Hm)).
  cbn [Status.count Status.of_MPI_Status Status.is_null null status
       MPI_Get_count status_of status_count].
  rewrite (bind_returns _ _ _ _ _ (string_fill_nat _ _)).
  rewrite length_replicate.
  rewrite (bind_returns _ _ _ _ _
             (MPI_Irecv_pending (log (EvIprobe source tag (comm c) true) w)
                _ _ _ m _ _ Hm)).
  reflexivity.
Qed.

Lemma get_T_matched (T : Type) `{TriviallyCopyable T} (r : Request) (m : Message)
    (w : World) :
  Request.is_null r = false ->
  operations w !! request r = Some (RecvMatched m (length (buffer r))) ->
  length (buffer r) = length (msg_data m) ->
  length (msg_data m) = sizeof T ->
  Request.get_T T r w
  = Returns (from_bytes (msg_data m), mkRequest MPI_REQUEST_NULL (msg_data m))
            (log (EvWait (request r)) (release (request r) w)).
Proof.
  intros Hnn Hop Hlen Hsz.
  rewrite get_T_right_size by lia.
  now rewrite (bind_returns _ _ _ _ _
                 (MPI_Wait_matched _ m _ _ (proj1 (Nat.eqb_neq _ _) Hnn) Hop Hlen)).
Qed.

Lemma MPI_Wait_stray (h : MPI_Request) (m : Message) (buf : bytes) (w : World) :
  h <> MPI_REQUEST_NULL ->
  operations w !! h = Some (RecvStray m (length buf)) ->
  length buf = length (msg_data m) ->
  MPI_Wait h buf w = Returns (MPI_REQUEST_NULL, buf) (log (EvWait h) (release h w)).
Proof.
  intros Hh Ho Hlen. unfold MPI_Wait, bind, lookup_operation.
  destruct (Nat.eqb_spec h MPI_REQUEST_NULL); [contradiction|].
  rewrite Ho. unfold modify, ret. now rewrite Hlen, Nat.ltb_irrefl.
Qed.

Lemma get_T_stray (T : Type) `{TriviallyCopyable T} (r : Request) (m : Message)
    (w : World) :
  Request.is_null r = false ->
  operations w !! request r = Some (RecvStray m (length (buffer r))) ->
  length (buffer r) = length (msg_data m) ->
  length (msg_data m) = sizeof T ->
  Request.get_T T r w
  = Returns (from_bytes (buffer r), mkRequest MPI_REQUEST_NULL (buffer r))
            (log (EvWait (request r)) (release (request r) w)).
Proof.
  intros Hnn Hop Hlen Hsz.
  rewrite get_T_right_size by lia.
  now rewrite (bind_returns _ _ _ _ _
                 (MPI_Wait_stray _ m _ _ (proj1 (Nat.eqb_neq _ _) Hnn) Hop Hlen)).
Qed.

Section TypedRoundTrip.
Context (T : Type) `{TriviallyCopyable T}.
Context (cs cr : Communicator) (si ri : CommInfo)
        (v : T) (tag source rtag : Z) (w : World).

Let m := mkMessage (comm_context si) (comm_rank si) (comm_rank ri) tag (object_bytes v).

Hypothesis Hcs : Communicator.is_null cs = false.
Hypothesis Hsi : comms w !! comm cs = Some si.
Hypothesis Hcr : Communicator.is_null cr = false.
Hypothesis Hri : comms w !! comm cr = Some ri.
Hypothesis Hfit : Z.of_nat (sizeof T) < 2 ^ 31.
Hypothesis Hd : valid_dest si (comm_rank ri) tag = true.
Hypothesis Hm : matches (comm_context ri) (comm_rank ri) source rtag m = true.
Hypothesis Ha : accepting (operations w) m (posted w) = None.
Hypothesis Hp : pending w (comm cr) source rtag = None.

Lemma pending_once_sent (w' : World) :
  comms w' = comms w -> mailbox w' = mailbox w ++ [m] ->
  pending w' (comm cr) source rtag = Some m.
Proof.
  intros Ec Eq.
  rewrite <- (pending_after_send w (comm cr) ri source rtag m
                (is_null_false _ Hcr) Hri Hp Hm).
  unfold pending. now rewrite Ec, Eq.
Qed.

Lemma send_T_recv_T :
  exists w1 w2,
    Communicator.send_T T cs v (comm_rank ri) tag w = Returns tt w1
    /\ Communicator.recv_T T cr source rtag w1 = Returns v w2.
Proof.
  eexists. eexists. split.
  - unfold Communicator.send_T, Communicator.send.
    rewrite (bind_returns _ _ _ _ _ (memcpy_from_value_fresh T v w)).
    rewrite object_bytes_length, to_signed_small by lia.
    rewrite <- (object_bytes_length v).
    now apply (MPI_Send_buffered w (comm cs) si _ _ _ (is_null_false _ Hcs)).
  - unfold Communicator.recv_T.
    pose proof (pending_once_sent
                  (log (EvSend (object_bytes v) (comm_rank ri) tag (comm cs))
                       (set_mailbox (fun q => q ++ [m]) w)) eq_refl eq_refl) as Hp2.
    rewrite (bind_returns _ _ _ _ _ (recv_pending cr source rtag m _ Hp2)).
    unfold m. cbn [msg_data]. rewrite object_bytes_length, Nat.eqb_refl. cbn [negb].
    rewrite memcpy_to_value_exact by apply object_bytes_length.
    now rewrite from_object_bytes.
Qed.

Lemma recv_T_pending (w1 : World) :
  pending w1 (comm cr) source rtag = Some m ->
  exists w2, Communicator.recv_T T cr source rtag w1 = Returns v w2.
Proof.
  intros Hp1. eexists. unfold Communicator.recv_T.
  rewrite (bind_returns _ _ _ _ _ (recv_pending cr source rtag m _ Hp1)).
  unfold m. cbn [msg_data]. rewrite object_bytes_length, Nat.eqb_refl. cbn [negb].
  rewrite memcpy_to_value_exact by apply object_bytes_length.
  now rewrite from_object_bytes.
Qed.

Lemma isend_T_irecv_get_T :
  exists rs w1 rr w2 rr' w3,
    Communicator.isend_T T cs v (comm_rank ri) tag w = Returns rs w1
    /\ pending w1 (comm cr) source rtag = Some m
    /\ Communicator.irecv cr source rtag w1 = Returns rr w2
    /\ buffer rr = replicate (sizeof T) zero_byte
    /\ operations w2 !! request rr
       = Some (matched (storage_after_move (buffer rr)) m (sizeof T))
    /\ Request.get_T T rr w2
       = Returns (if (sso_capacity <? sizeof T)%nat then v
                  else from_bytes (replicate (sizeof T) zero_byte), rr') w3.
Proof.
  assert (length (msg_data m) = sizeof T) as Hsz by apply object_bytes_length.
  eexists. eexists. eexists. eexists.
  exists (mkRequest MPI_REQUEST_NULL
            (if (sso_capacity <? sizeof T)%nat then object_bytes v
             else replicate (sizeof T) zero_byte)).
  eexists.
  split; [|split; [|split; [|split; [|split]]]].
  - unfold Communicator.isend_T, Communicator.isend.
    rewrite (bind_returns _ _ _ _ _ (memcpy_from_value_fresh T v w)).
    rewrite object_bytes_length, to_signed_small by lia.
    rewrite <- (object_bytes_length v).
    now rewrite (bind_returns _ _ _ _ _
                   (MPI_Isend_buffered w (comm cs) si _ _ _
                      (is_null_false _ Hcs) Hsi Hd Ha)).
  - now apply pending_once_sent.
  - apply (irecv_pending cr source rtag m). now apply pending_once_sent.
  - cbn [buffer]. now rewrite Hsz.
  - cbn [request buffer]. rewrite Hsz.
    unfold log, set_operations; cbn [operations]. apply lookup_insert_eq.
  - match goal with
    | |- Request.get_T T ?r ?w2 = Returns _ ?w3 =>
        unify w3 (log (EvWait (request r)) (release (request r) w2))
    end.
    unfold storage_after_move. rewrite length_replicate, Hsz.
    destruct (sso_capacity <? sizeof T)%nat; cbn [matched].
    + rewrite (get_T_matched T _ m).
      * unfold m. cbn [msg_data]. now rewrite from_object_bytes.
      * unfold Request.is_null. cbn [request].
        apply Nat.eqb_neq, fresh_handle_not_null.
      * cbn [request buffer]. rewrite ?length_replicate, ?Hsz.
        unfold log, set_operations; cbn [operations]. apply lookup_insert_eq.
      * cbn [buffer]. now rewrite length_replicate.
      * assumption.
    + rewrite (get_T_stray T _ m).
      * reflexivity.
      * unfold Request.is_null. cbn [request].
        apply Nat.eqb_neq, fresh_handle_not_null.
      * cbn [request buffer]. rewrite ?length_replicate, ?Hsz.
        unfold log, set_operations; cbn [operations]. apply lookup_insert_eq.
      * cbn [buffer]. now rewrite length_replicate.
      * assumption.
Qed.

End TypedRoundTrip.

(** C1.  The non-blocking half of the round trip loses the value.  Rank 0
    sends the [int] -5 to rank 1 with [isend<int>].  At that point the
    blocking [recv<int>] of rank 1 returns -5; [irecv] followed by
    [get<int>()] returns 0.  [irecv] starts the receive on the memory of a
    local four-byte string and then moves the string into the Request;
    four bytes are kept inside the string object, so the move copies them
    and the payload never reaches the buffer that [get<int>()] reads. *)
Theorem nonblocking_round_trip_loses_the_value :
  exists rs w1,
    Communicator.isend_T int comm_of_rank0 (int_of_Z (-5)) 1 126 two_ranks = Returns rs w1
    /\ (exists w2,
          Communicator.recv_T int comm_of_rank1 any_source 126 w1
          = Returns (int_of_Z (-5)) w2)
    /\ (exists rr w2 rr' w3,
          Communicator.irecv comm_of_rank1 any_source 126 w1 = Returns rr w2
          /\ operations w2 !! request rr
             = Some (RecvStray (mkMessage [] 0 1 126 (object_bytes (int_of_Z (-5)))) 4)
          /\ Request.get_T int rr w2 = Returns (int_of_Z 0, rr') w3)
    /\ int_of_Z 0 <> int_of_Z (-5).
Proof.
  destruct (isend_T_irecv_get_T int comm_of_rank0 comm_of_rank1
              (mkCommInfo [] 2 0 0) (mkCommInfo [] 2 1 0)
              (int_of_Z (-5)) 126 any_source 126 two_ranks)
    as (rs & w1 & rr & w2 & rr' & w3 & Hsend & Hpending & Hirecv & Hbuf & Hop & Hget);
    try reflexivity.
  exists rs, w1. split; [exact Hsend|]. split; [|split].
  - apply (recv_T_pending int comm_of_rank1 (mkCommInfo [] 2 0 0) (mkCommInfo [] 2 1 0)
             (int_of_Z (-5)) 126 any_source 126 w1 Hpending).
  - exists rr, w2, rr', w3. split; [exact Hirecv|]. split; [|exact Hget].
    rewrite Hop, Hbuf. reflexivity.
  - intros E. apply (f_equal proj1_sig) in E. vm_compute in E. discriminate.
Qed.

(** X20. Round trip with the blocking calls.  Rank [s] sends a value [v]
    of a trivially copyable type of less than 2^31 bytes to rank [r] on a
    shared context, the message being the first one the receiver's filters
    accept (nothing accepted by them is pending and no posted receive
    takes the message).  Then [send<T>] followed by [recv<T>] returns [v]:
    the bytes of the value received are the bytes of [v]. *)
Theorem typed_blocking_round_trip
    (T : Type) `{TriviallyCopyable T}
    (cs cr : Communicator) (si ri : CommInfo)
    (v : T) (tag source rtag : Z) (w : World) :
  let m := mkMessage (comm_context si) (comm_rank si) (comm_rank ri) tag (object_bytes v) in
  Communicator.is_null cs = false -> comms w !! comm cs = Some si ->
  Communicator.is_null cr = false -> comms w !! comm cr = Some ri ->
  Z.of_nat (sizeof T) < 2 ^ 31 ->
  valid_dest si (comm_rank ri) tag = true ->
  matches (comm_context ri) (comm_rank ri) source rtag m = true ->
  accepting (operations w) m (posted w) = None ->
  pending w (comm cr) source rtag = None ->
  exists w1 w2 v',
    Communicator.send_T T cs v (comm_rank ri) tag w = Returns tt w1
    /\ Communicator.recv_T T cr source rtag w1 = Returns v' w2
    /\ v' = v /\ object_bytes v' = object_bytes v.
Proof.
  intros m Hcs Hsi Hcr Hri Hfit Hd Hm Ha Hp.
  destruct (send_T_recv_T T cs cr si ri v tag source rtag w
              Hcs Hsi Hcr Hri Hfit Hd Hm Ha Hp) as (w1 & w2 & Hsend & Hrecv).
  exists w1, w2, v. repeat split; assumption.
Qed.

Lemma typed_blocking_round_trip_witness :
  exists w1 w2 v',
    Communicator.send_T int comm_of_rank0 (int_of_Z (-5)) 1 126 two_ranks = Returns tt w1
    /\ Communicator.recv_T int comm_of_rank1 any_source any_tag w1 = Returns v' w2
    /\ v' = int_of_Z (-5) /\ object_bytes v' = object_bytes (int_of_Z (-5)).
Proof.
  apply (typed_blocking_round_trip int comm_of_rank0 comm_of_rank1
           (mkCommInfo [] 2 0 0) (mkCommInfo [] 2 1 0)
           (int_of_Z (-5)) 126 any_source any_tag two_ranks).
  - reflexivity.
  - reflexivity.
  - reflexivity.
  - reflexivity.
  - vm_compute; reflexivity.
  - reflexivity.
  - reflexivity.
  - reflexivity.
  - reflexivity.
Defined.


(** The round trip of the non-blocking path needs the message to be there
    when [irecv] probes: otherwise [irecv] returns a null Request, whose
    empty buffer fails the size check of [get<T>()]. *)
Lemma get_T_after_early_irecv (T : Type) `{TriviallyCopyable T}
    (c : Communicator) (i : CommInfo) (source tag : Z) (w : World) :
  Communicator.is_null c = false ->
  comms w !! comm c = Some i ->
  pending w (comm c) source tag = None ->
  bind (Communicator.irecv c source tag) (fun r => Request.get_T T r) w
  = Throws (logic_error wrong_size) (log (EvIprobe source tag (comm c) false) w).
Proof.
  intros Hc Hi Hp.
  pose proof (iprobe_idle c i source tag w Hc Hi
                (pending_none_inv _ _ _ _ _ (is_null_false _ Hc) Hi Hp)) as Hprobe.
  unfold Communicator.irecv.
  unfold bind at 1 2. rewrite Hprobe. cbn [Status.is_null Status.default null].
  unfold ret. unfold Request.get_T. cbn [Request.default buffer length].
  pose proof (sizeof_pos (T := T)) as Hpos.
  destruct (Nat.eqb_spec 0 (sizeof T)) as [E|_]; [lia|reflexivity].
Qed.

(** ** All-to-all *)

Lemma in_ranks (n j : Z) : j ∈ ranks n <-> 0 <= j < n.
Proof.
  unfold ranks. rewrite list_elem_of_fmap. split.
  - intros (k & -> & Hk%elem_of_seq). lia.
  - intros Hj. exists (Z.to_nat j). split; [lia|]. apply elem_of_seq. lia.
Qed.

Lemma lookup_ranks (n j : Z) : 0 <= j < n -> ranks n !! Z.to_nat j = Some j.
Proof.
  intros Hj. unfold ranks. rewrite list_lookup_fmap, lookup_seq_lt by lia.
  cbn. f_equal. lia.
Qed.

Lemma forallb_ranks (f : Z -> bool) (n : Z) :
  (forall j, 0 <= j < n -> f j = true) -> forallb f (ranks n) = true.
Proof.
  intros Hf. apply forallb_forall. intros j Hj%list_elem_of_In%in_ranks. auto.
Qed.

Lemma length_concat_blocks (k : nat) (l : list bytes) :
  Forall (fun x => length x = k) l -> length (concat l) = (length l * k)%nat.
Proof.
  induction 1 as [|x l Hx _ IH]; [reflexivity|].
  cbn. rewrite length_app, IH, Hx. reflexivity.
Qed.

Lemma concat_block (k : nat) (l : list bytes) (j : nat) (b : bytes) :
  Forall (fun x => length x = k) l -> l !! j = Some b ->
  take k (drop (j * k) (concat l)) = b.
Proof.
  intros Hl. revert j. induction Hl as [|x l Hx _ IH]; intros j Hj; [discriminate|].
  destruct j as [|j]; cbn in Hj |- *.
  - injection Hj as ->. now apply take_app_length'.
  - rewrite drop_app_add' by (symmetry; exact Hx). now apply IH.
Qed.

Lemma length_share (k j : Z) (buf : bytes) :
  0 <= k -> 0 <= j -> (j + 1) * k <= Z.of_nat (length buf) ->
  length (share k j buf) = Z.to_nat k.
Proof.
  intros Hk Hj Hlen. unfold share. rewrite length_take, length_drop. nia.
Qed.

Lemma size_valid (c : Communicator) (i : CommInfo) (w : World) :
  Communicator.is_null c = false -> comms w !! comm c = Some i ->
  Communicator.size c w = Returns (comm_size i) (log (EvCommSize (comm c)) w).
Proof.
  intros Hc Hi. unfold Communicator.size, MPI_Comm_size. rewrite Hc.
  now rewrite (bind_returns _ _ _ _ _ (lookup_comm_valid _ i w (is_null_false _ Hc) Hi)).
Qed.

Lemma to_size_t_small (n : Z) : 0 <= n < 2 ^ 31 -> to_size_t n = n.
Proof. intros Hn. unfold to_size_t. apply Z.mod_small. lia. Qed.

Lemma MPI_Alltoall_agree (peers : Z -> bytes * Z) (sendbuf recvbuf : bytes) (k : Z)
    (c : MPI_Comm) (i : CommInfo) (w : World) :
  c <> MPI_COMM_NULL -> comms w !! c = Some i ->
  0 <= comm_rank i < comm_size i -> 0 <= k ->
  Z.of_nat (length sendbuf) = comm_size i * k ->
  Z.of_nat (length recvbuf) = comm_size i * k ->
  peers_enter peers (comm_size i) (comm_rank i) (comm_size i * k) k ->
  MPI_Alltoall peers sendbuf k recvbuf k c w
  = Returns
      (concat ((fun j => share k (comm_rank i) (contribution peers (comm_rank i) sendbuf j))
               <$> ranks (comm_size i)))
      (log (EvAlltoall k k c) w)
  /\ Forall (fun x => length x = Z.to_nat k)
       ((fun j => share k (comm_rank i) (contribution peers (comm_rank i) sendbuf j))
        <$> ranks (comm_size i)).
Proof.
  intros Hc Hi Hme Hk Hs Hr Hp.
  assert (forall j, 0 <= j < comm_size i ->
            contributed_count peers (comm_rank i) k j = k
            /\ Z.of_nat (length (contribution peers (comm_rank i) sendbuf j))
               = comm_size i * k) as Hent.
  { intros j Hj. unfold contributed_count, contribution.
    destruct (Z.eqb_spec j (comm_rank i)) as [->|Hne]; [auto|].
    now apply Hp. }
  assert (Forall (fun x => length x = Z.to_nat k)
            ((fun j => share k (comm_rank i) (contribution peers (comm_rank i) sendbuf j))
             <$> ranks (comm_size i))) as Hall.
  { apply Forall_fmap, Forall_forall. intros j Hj%in_ranks. cbn.
    apply length_share; [lia|lia|]. destruct (Hent j Hj) as [_ ->]. nia. }
  split; [|exact Hall].
  unfold MPI_Alltoall. rewrite (bind_returns _ _ _ _ _ (lookup_comm_valid c i w Hc Hi)).
  cbn zeta.
  destruct (Z.ltb_spec k 0); [lia|]. cbn [orb].
  rewrite forallb_ranks; cycle 1.
  { intros j Hj. destruct (Hent j Hj) as [-> ->]. apply Z.leb_refl. }
  cbn [negb].
  destruct (Z.ltb_spec (Z.of_nat (length recvbuf)) (comm_size i * k)); [lia|].
  rewrite forallb_ranks; cycle 1.
  { intros j Hj. destruct (Hent j Hj) as [-> _]. apply Z.eqb_refl. }
  cbn [negb]. unfold bind, modify, ret.
  rewrite overwrite_same_length; [reflexivity|].
  rewrite (length_concat_blocks _ _ Hall), length_fmap.
  unfold ranks. rewrite length_fmap, length_seq. nia.
Qed.

Lemma MPI_Alltoall_never_throws (peers : Z -> bytes * Z) (sendbuf recvbuf : bytes)
    (sendcount recvcount : Z) (c : MPI_Comm) (w w' : World) (e : exception) :
  MPI_Alltoall peers sendbuf sendcount recvbuf recvcount c w <> Throws e w'.
Proof.
  unfold MPI_Alltoall, bind, lookup_comm, modify, ret, fault, undefined.
  destruct (Nat.eqb c MPI_COMM_NULL); [discriminate|].
  destruct (comms w !! c) as [i|]; [|discriminate]. cbn zeta.
  destruct ((sendcount <? 0) || (recvcount <? 0)); [discriminate|].
  destruct (negb (forallb _ _)); [discriminate|].
  destruct (_ <? _); [discriminate|].
  destruct (negb (forallb _ _)); discriminate.
Qed.

Section StringForm.
Context (peers : Z -> bytes * Z) (c : Communicator) (i : CommInfo)
        (sendbuf : bytes) (w : World).
Hypothesis Hc : Communicator.is_null c = false.
Hypothesis Hi : comms w !! comm c = Some i.
Hypothesis Hme : 0 <= comm_rank i < comm_size i.
Hypothesis Hn : comm_size i < 2 ^ 31.

Let n := comm_size i.
Let len := Z.of_nat (length sendbuf).
Let w1 := log (EvCommSize (comm c)) w.
Let w3 := log (EvCommSize (comm c)) (log (EvCommSize (comm c)) w1).

Lemma all_to_all_check :
  Communicator.all_to_all peers c sendbuf w
  = if len mod n =? 0
    then MPI_Alltoall peers sendbuf (to_signed (len / n))
           (replicate (length sendbuf) zero_byte) (to_signed (len / n)) (comm c) w3
    else Throws (invalid_argument not_divisible) w1.
Proof.
  unfold Communicator.all_to_all.
  rewrite (bind_returns _ _ _ _ _ (size_valid c i w Hc Hi)).
  rewrite to_size_t_small by lia.
  unfold size_t_rem at 1. destruct (Z.eqb_spec (comm_size i) 0) as [E|_]; [lia|].
  unfold bind at 1. unfold ret at 1. fold n len.
  destruct (len mod n =? 0); cbn [negb]; [|reflexivity].
  rewrite (bind_returns _ _ _ _ _ (size_valid c i w1 Hc Hi)).
  rewrite to_size_t_small by lia.
  unfold size_t_div at 1. destruct (Z.eqb_spec (comm_size i) 0) as [E|_]; [lia|].
  unfold bind at 1. unfold ret at 1.
  rewrite (bind_returns _ _ _ _ _
             (size_valid c i (log (EvCommSize (comm c)) w1) Hc Hi)).
  rewrite to_size_t_small by lia.
  unfold size_t_div at 1. destruct (Z.eqb_spec (comm_size i) 0) as [E|_]; [lia|].
  unfold bind at 1. unfold ret at 1.
  rewrite length_replicate. reflexivity.
Qed.

Lemma all_to_all_throws_iff :
  (exists e w', Communicator.all_to_all peers c sendbuf w = Throws e w') <-> len mod n <> 0.
Proof.
  rewrite all_to_all_check. destruct (Z.eqb_spec (len mod n) 0) as [E|E].
  - split; [|contradiction]. intros (e & w' & Hthrow).
    now apply MPI_Alltoall_never_throws in Hthrow.
  - split; [auto|]. intros _. now eexists; eexists.
Qed.

Lemma all_to_all_divisible :
  len mod n = 0 ->
  len / n < 2 ^ 31 ->
  peers_enter peers n (comm_rank i) len (len / n) ->
  exists recvbuf,
    Communicator.all_to_all peers c sendbuf w
    = Returns recvbuf (log (EvAlltoall (len / n) (len / n) (comm c)) w3)
    /\ length recvbuf = length sendbuf
    /\ forall j, 0 <= j < n ->
         share (len / n) j recvbuf
         = share (len / n) (comm_rank i) (contribution peers (comm_rank i) sendbuf j).
Proof.
  intros Hdiv Hshare Hp. rewrite all_to_all_check, Hdiv. cbn [Z.eqb].
  assert (len = n * (len / n)) as Hlen by (apply Z.div_exact; lia).
  assert (0 <= len / n) as Hq by (apply Z.div_pos; lia).
  rewrite to_signed_small by lia.
  destruct (MPI_Alltoall_agree peers sendbuf (replicate (length sendbuf) zero_byte)
              (len / n) (comm c) i w3 (is_null_false _ Hc) Hi) as [Hrun Hall];
    [lia|lia|exact Hlen|rewrite length_replicate; exact Hlen| |].
  { unfold n, len in *. now rewrite <- Hlen. }
  eexists. split; [exact Hrun|]. split.
  - rewrite (length_concat_blocks _ _ Hall), length_fmap.
    unfold ranks. rewrite length_fmap, length_seq. fold n. nia.
  - intros j Hj. unfold share at 1.
    replace (Z.to_nat (j * (len / n))) with (Z.to_nat j * Z.to_nat (len / n))%nat by nia.
    apply (concat_block _ _ _ _ Hall).
    rewrite list_lookup_fmap, lookup_ranks by assumption. reflexivity.
Qed.

End StringForm.

Section TypedForm.
Context (T : Type) `{TriviallyCopyable T}.

Lemma object_blocks (v : list T) :
  Forall (fun x => length x = sizeof T) (object_bytes <$> v).
Proof. apply Forall_fmap, Forall_forall. intros x _. apply object_bytes_length. Qed.

Lemma length_vector_bytes (v : list T) :
  length (vector_bytes v) = (length v * sizeof T)%nat.
Proof.
  unfold vector_bytes. rewrite (length_concat_blocks _ _ (object_blocks v)).
  now rewrite length_fmap.
Qed.

Lemma vector_of_bytes_blocks (blocks : list bytes) :
  Forall (fun x => length x = sizeof T) blocks ->
  vector_of_bytes (length blocks) (concat blocks) = from_bytes <$> blocks.
Proof.
  induction 1 as [|x l Hx _ IH]; [reflexivity|].
  cbn. rewrite take_app_length', drop_app_length' by (symmetry; exact Hx).
  now rewrite IH.
Qed.

Lemma share_vector_bytes (v : list T) (me : Z) (x : T) :
  0 <= me -> v !! Z.to_nat me = Some x ->
  share (Z.of_nat (sizeof T)) me (vector_bytes v) = object_bytes x.
Proof.
  intros Hme Hx. unfold share, vector_bytes.
  replace (Z.to_nat (me * Z.of_nat (sizeof T))) with (Z.to_nat me * sizeof T)%nat by nia.
  rewrite Nat2Z.id. apply (concat_block _ _ _ _ (object_blocks v)).
  now rewrite list_lookup_fmap, Hx.
Qed.

Context (peers : Z -> bytes * Z) (c : Communicator) (i : CommInfo)
        (sendbuf : list T) (w : World).
Hypothesis Hc : Communicator.is_null c = false.
Hypothesis Hi : comms w !! comm c = Some i.
Hypothesis Hme : 0 <= comm_rank i < comm_size i.
Hypothesis Hn : comm_size i < 2 ^ 31.

Let n := comm_size i.
Let w1 := log (EvCommSize (comm c)) w.
Let w3 := log (EvCommSize (comm c)) (log (EvCommSize (comm c)) w1).

Lemma all_to_all_T_check :
  Communicator.all_to_all_T T peers c sendbuf w
  = if Z.of_nat (length sendbuf) =? n
    then bind (MPI_Alltoall peers
                 (vector_bytes sendbuf) (to_signed (Z.of_nat (sizeof T)))
                 (vector_bytes (replicate (length sendbuf) (value_init T)))
                 (to_signed (Z.of_nat (sizeof T))) (comm c))
              (fun b => ret (vector_of_bytes (length sendbuf) b)) w3
    else Throws (invalid_argument not_comm_size) w1.
Proof.
  unfold Communicator.all_to_all_T.
  rewrite (bind_returns _ _ _ _ _ (size_valid c i w Hc Hi)).
  rewrite to_size_t_small by lia. fold n.
  destruct (Z.eqb_spec (Z.of_nat (length sendbuf)) n) as [E|E]; cbn [negb];
    [|reflexivity].
  rewrite (bind_returns _ _ _ _ _ (size_valid c i w1 Hc Hi)).
  rewrite to_size_t_small by lia.
  unfold size_t_div at 1. destruct (Z.eqb_spec (comm_size i) 0) as [E0|_]; [lia|].
  unfold bind at 1. unfold ret at 1.
  rewrite (bind_returns _ _ _ _ _
             (size_valid c i (log (EvCommSize (comm c)) w1) Hc Hi)).
  rewrite to_size_t_small by lia.
  unfold size_t_div at 1. destruct (Z.eqb_spec (comm_size i) 0) as [E0|_]; [lia|].
  unfold bind at 1. unfold ret at 1.
  rewrite length_replicate, E. unfold n.
  rewrite Z.div_same, Z.mul_1_l by lia. reflexivity.
Qed.

Lemma all_to_all_T_throws_iff :
  (exists e w', Communicator.all_to_all_T T peers c sendbuf w = Throws e w')
  <-> Z.of_nat (length sendbuf) <> n.
Proof.
  rewrite all_to_all_T_check.
  destruct (Z.eqb_spec (Z.of_nat (length sendbuf)) n) as [E|E].
  - split; [|contradiction]. intros (e & w' & Hthrow). unfold bind in Hthrow.
    destruct (MPI_Alltoall _ _ _ _ _ _ _) eqn:Hrun; try discriminate.
    now apply MPI_Alltoall_never_throws in Hrun.
  - split; [auto|]. intros _. now eexists; eexists.
Qed.

Lemma all_to_all_T_exact (vec : Z -> list T) :
  Z.of_nat (length sendbuf) = n ->
  Z.of_nat (sizeof T) < 2 ^ 31 ->
  (forall j, 0 <= j < n -> j <> comm_rank i ->
     peers j = (vector_bytes (vec j), Z.of_nat (sizeof T))
     /\ Z.of_nat (length (vec j)) = n) ->
  exists recvbuf w',
    Communicator.all_to_all_T T peers c sendbuf w = Returns recvbuf w'
    /\ length recvbuf = length sendbuf
    /\ forall j, 0 <= j < n ->
         recvbuf !! Z.to_nat j
         = (if j =? comm_rank i then sendbuf else vec j) !! Z.to_nat (comm_rank i).
Proof.
  intros Hlen Hsize Hvec. rewrite all_to_all_T_check.
  destruct (Z.eqb_spec (Z.of_nat (length sendbuf)) n) as [_|E]; [|contradiction].
  rewrite to_signed_small by lia.
  assert (peers_enter peers (comm_size i) (comm_rank i)
            (comm_size i * Z.of_nat (sizeof T)) (Z.of_nat (sizeof T))) as Hp.
  { intros j Hj Hne. destruct (Hvec j Hj Hne) as [-> Hl]. cbn [fst snd].
    split; [reflexivity|]. rewrite length_vector_bytes. unfold n in Hl. nia. }
  destruct (MPI_Alltoall_agree peers (vector_bytes sendbuf)
              (vector_bytes (replicate (length sendbuf) (value_init T)))
              (Z.of_nat (sizeof T)) (comm c) i w3 (is_null_false _ Hc) Hi)
    as [Hrun Hall]; [lia|lia| | |exact Hp|].
  { rewrite length_vector_bytes. unfold n in Hlen. nia. }
  { rewrite length_vector_bytes, length_replicate. unfold n in Hlen. nia. }
  rewrite Nat2Z.id in Hall.
  rewrite (bind_returns _ _ _ _ _ Hrun). unfold ret.
  assert (length sendbuf
          = length ((fun j => share (Z.of_nat (sizeof T)) (comm_rank i)
                                (contribution peers (comm_rank i) (vector_bytes sendbuf) j))
                    <$> ranks (comm_size i))) as Hcount.
  { rewrite length_fmap. unfold ranks. rewrite length_fmap, length_seq.
    unfold n in Hlen. lia. }
  pose proof (vector_of_bytes_blocks _ Hall) as Hvob.
  rewrite <- Hcount in Hvob. rewrite Hvob.
  eexists. eexists. split; [reflexivity|]. split.
  - rewrite length_fmap. now rewrite <- Hcount.
  - intros j Hj. rewrite !list_lookup_fmap, lookup_ranks by assumption. cbn.
    assert (exists x, (if j =? comm_rank i then sendbuf else vec j)
                      !! Z.to_nat (comm_rank i) = Some x
                      /\ contribution peers (comm_rank i) (vector_bytes sendbuf) j
                         = vector_bytes (if j =? comm_rank i then sendbuf else vec j))
      as (x & Hx & ->).
    { unfold contribution. destruct (Z.eqb_spec j (comm_rank i)) as [->|Hne].
      - destruct (lookup_lt_is_Some_2 sendbuf (Z.to_nat (comm_rank i))) as [x Hx];
          [unfold n in Hlen; lia|]. now exists x.
      - destruct (Hvec j Hj Hne) as [-> Hl]. cbn [fst].
        destruct (lookup_lt_is_Some_2 (vec j) (Z.to_nat (comm_rank i))) as [x Hx];
          [unfold n in Hl; lia|]. now exists x. }
    rewrite Hx, (share_vector_bytes _ _ x) by (lia || assumption).
    now rewrite from_object_bytes.
Qed.

End TypedForm.

(** C4, as the code has it.  On a communicator of [n] ranks the byte-string
    form throws [std::invalid_argument] exactly when the buffer's length is
    not a multiple of [n], and the typed form exactly when the number of
    elements is not [n].  When the check passes and the other ranks enter
    the collective alike, the result holds at the position for sender [j]
    the share (for the typed form: the element) that rank [j] destined for
    this rank. *)
Theorem all_to_all_exchanges_shares
    (T : Type) `{TriviallyCopyable T}
    (peers tpeers : Z -> bytes * Z) (vec : Z -> list T)
    (c : Communicator) (i : CommInfo)
    (sendbuf : bytes) (tsendbuf : list T) (w : World) :
  Communicator.is_null c = false ->
  comms w !! comm c = Some i ->
  0 <= comm_rank i < comm_size i ->
  comm_size i < 2 ^ 31 ->
  let n := comm_size i in
  let me := comm_rank i in
  let len := Z.of_nat (length sendbuf) in
  ((exists e w', Communicator.all_to_all peers c sendbuf w = Throws e w')
   <-> len mod n <> 0)
  /\ (len mod n <> 0 ->
      Communicator.all_to_all peers c sendbuf w
      = Throws (invalid_argument not_divisible) (log (EvCommSize (comm c)) w))
  /\ (len mod n = 0 ->
      len / n < 2 ^ 31 ->
      peers_enter peers n me len (len / n) ->
      exists recvbuf w',
        Communicator.all_to_all peers c sendbuf w = Returns recvbuf w'
        /\ length recvbuf = length sendbuf
        /\ forall j, 0 <= j < n ->
             share (len / n) j recvbuf
             = share (len / n) me (contribution peers me sendbuf j))
  /\ ((exists e w', Communicator.all_to_all_T T tpeers c tsendbuf w = Throws e w')
      <-> Z.of_nat (length tsendbuf) <> n)
  /\ (Z.of_nat (length tsendbuf) <> n ->
      Communicator.all_to_all_T T tpeers c tsendbuf w
      = Throws (invalid_argument not_comm_size) (log (EvCommSize (comm c)) w))
  /\ (Z.of_nat (length tsendbuf) = n ->
      Z.of_nat (sizeof T) < 2 ^ 31 ->
      (forall j, 0 <= j < n -> j <> me ->
         tpeers j = (vector_bytes (vec j), Z.of_nat (sizeof T))
         /\ Z.of_nat (length (vec j)) = n) ->
      exists recvbuf w',
        Communicator.all_to_all_T T tpeers c tsendbuf w = Returns recvbuf w'
        /\ length recvbuf = length tsendbuf
        /\ forall j, 0 <= j < n ->
             recvbuf !! Z.to_nat j
             = (if j =? me then tsendbuf else vec j) !! Z.to_nat me).
Proof.
  intros Hc Hi Hme Hn n me len.
  split; [now apply all_to_all_throws_iff|].
  split.
  { intros Hnd. rewrite (all_to_all_check peers c i sendbuf w Hc Hi Hme Hn).
    now destruct (Z.eqb_spec (Z.of_nat (length sendbuf) mod comm_size i) 0). }
  split.
  { intros Hdiv Hshare Hp.
    destruct (all_to_all_divisible peers c i sendbuf w Hc Hi Hme Hn Hdiv Hshare Hp)
      as (recvbuf & Hrun & Hrest).
    exists recvbuf. eexists. split; [exact Hrun|exact Hrest]. }
  split; [now apply all_to_all_T_throws_iff|].
  split.
  { intros Hne. rewrite (all_to_all_T_check T tpeers c i tsendbuf w Hc Hi Hme Hn).
    now destruct (Z.eqb_spec (Z.of_nat (length tsendbuf)) (comm_size i)). }
  intros Hlen Hsize Hvec.
  now apply (all_to_all_T_exact T tpeers c i tsendbuf w Hc Hi Hme Hn vec).
Qed.

Lemma all_to_all_exchanges_shares_witness :
  (exists recvbuf w',
      Communicator.all_to_all peer_zero_one comm_of_rank1 a_b two_ranks = Returns recvbuf w'
      /\ length recvbuf = length a_b
      /\ forall j, 0 <= j < 2 ->
           share 1 j recvbuf = share 1 1 (contribution peer_zero_one 1 a_b j))
  /\ (exists recvbuf w',
         Communicator.all_to_all_T byte peer_zero_one comm_of_rank1 a_b two_ranks
         = Returns recvbuf w'
         /\ length recvbuf = length a_b
         /\ forall j, 0 <= j < 2 ->
              recvbuf !! Z.to_nat j = (if j =? 1 then a_b else zero_one) !! Z.to_nat 1)
  /\ Communicator.all_to_all peer_zero_one comm_of_rank1 (a_b ++ [zero_byte]) two_ranks
     = Throws (invalid_argument not_divisible) (log (EvCommSize 2%nat) two_ranks).
Proof.
  pose proof (all_to_all_exchanges_shares byte peer_zero_one peer_zero_one
                (fun _ => zero_one) comm_of_rank1 (mkCommInfo [] 2 1 0)
                a_b a_b two_ranks eq_refl eq_refl ltac:(cbn; lia) ltac:(cbn; lia))
    as (_ & _ & Hstr & _ & _ & Htyped).
  pose proof (all_to_all_exchanges_shares byte peer_zero_one peer_zero_one
                (fun _ => zero_one) comm_of_rank1 (mkCommInfo [] 2 1 0)
                (a_b ++ [zero_byte]) a_b two_ranks eq_refl eq_refl
                ltac:(cbn; lia) ltac:(cbn; lia))
    as (_ & Hodd & _).
  split; [|split].
  - apply Hstr; [reflexivity|reflexivity|]. intros j Hj Hne. split; reflexivity.
  - apply Htyped; [reflexivity|reflexivity|]. intros j Hj Hne. split; reflexivity.
  - apply Hodd. discriminate.
Defined.

(** With two ranks, the typed form rejects four elements although four is
    a multiple of two, so divisibility is not its criterion. *)
Lemma all_to_all_T_rejects_a_multiple :
  Communicator.size comm_of_rank1 two_ranks = Returns 2 (log (EvCommSize 2%nat) two_ranks)
  /\ Z.of_nat (length a_b_c_d) mod 2 = 0
  /\ Communicator.all_to_all_T byte peer_zero_one comm_of_rank1 a_b_c_d two_ranks
     = Throws (invalid_argument not_comm_size) (log (EvCommSize 2%nat) two_ranks)
  /\ ~ ((exists e w',
           Communicator.all_to_all_T byte peer_zero_one comm_of_rank1 a_b_c_d two_ranks
           = Throws e w')
        <-> Z.of_nat (length a_b_c_d) mod 2 <> 0).
Proof.
  split; [reflexivity|]. split; [reflexivity|]. split; [reflexivity|].
  intros [Hthrow _]. apply Hthrow; [|reflexivity].
  eexists. eexists. reflexivity.
Qed.

(** ** The divisibility check on a null communicator *)

(** C10. The check of [all_to_all] takes the remainder of the buffer's
    length by [size()] with no guard on the divisor.  On a null
    communicator [size()] is 0, the remainder is undefined and so is the
    call, which reports no usage error; on a communicator with a valid
    group of at least one rank the remainder is defined and is the one of
    the length by the number of ranks. *)
Theorem all_to_all_check_divides_by_size
    (peers : Z -> bytes * Z) (cn c : Communicator) (i : CommInfo)
    (sendbuf : bytes) (w : World) :
  Communicator.is_null cn = true ->
  Communicator.is_null c = false ->
  comms w !! comm c = Some i ->
  0 < comm_size i < 2 ^ 31 ->
  let check (x : Communicator) :=
    bind (Communicator.size x)
         (fun n => size_t_rem (Z.of_nat (length sendbuf)) (to_size_t n)) in
  Communicator.size cn w = Returns 0 w
  /\ check cn w = Undefined
  /\ Communicator.all_to_all peers cn sendbuf w = Undefined
  /\ (forall e w', Communicator.all_to_all peers cn sendbuf w <> Throws e w')
  /\ check c w = Returns (Z.of_nat (length sendbuf) mod comm_size i)
                         (log (EvCommSize (comm c)) w).
Proof.
  intros Hcn Hc Hi Hn check.
  assert (Communicator.size cn w = Returns 0 w) as Hsize.
  { unfold Communicator.size. now rewrite Hcn. }
  assert (Communicator.all_to_all peers cn sendbuf w = Undefined) as Hund.
  { unfold Communicator.all_to_all. now rewrite (bind_returns _ _ _ _ _ Hsize). }
  split; [exact Hsize|]. split.
  { unfold check. now rewrite (bind_returns _ _ _ _ _ Hsize). }
  split; [exact Hund|]. split.
  { intros e w'. rewrite Hund. discriminate. }
  unfold check. rewrite (bind_returns _ _ _ _ _ (size_valid c i w Hc Hi)).
  rewrite to_size_t_small by lia. unfold size_t_rem.
  destruct (Z.eqb_spec (comm_size i) 0); [lia|reflexivity].
Qed.

Lemma all_to_all_check_divides_by_size_witness :
  Communicator.size Communicator.default two_ranks = Returns 0 two_ranks
  /\ bind (Communicator.size Communicator.default)
          (fun n => size_t_rem (Z.of_nat (length a_b)) (to_size_t n)) two_ranks
     = Undefined
  /\ Communicator.all_to_all peer_zero_one Communicator.default a_b two_ranks = Undefined
  /\ (forall e w',
        Communicator.all_to_all peer_zero_one Communicator.default a_b two_ranks
        <> Throws e w')
  /\ bind (Communicator.size comm_of_rank1)
          (fun n => size_t_rem (Z.of_nat (length a_b)) (to_size_t n)) two_ranks
     = Returns (Z.of_nat (length a_b) mod 2) (log (EvCommSize 2%nat) two_ranks).
Proof.
  apply (all_to_all_check_divides_by_size peer_zero_one Communicator.default
           comm_of_rank1 (mkCommInfo [] 2 1 0) a_b two_ranks);
    [reflexivity|reflexivity|reflexivity|cbn; lia].
Defined.

(** ** Copying a Communicator *)

Lemma MPI_Comm_dup_valid (c : MPI_Comm) (i : CommInfo) (w : World) :
  c <> MPI_COMM_NULL -> comms w !! c = Some i ->
  MPI_Comm_dup c w
  = Returns (fresh_handle (comms w))
      (log (EvCommDup c (fresh_handle (comms w)))
         (set_comms
            (fun t =>
               <[fresh_handle (comms w) :=
                   mkCommInfo (comm_context i ++ [comm_children i])
                              (comm_size i) (comm_rank i) 0]>
                 (<[c := mkCommInfo (comm_context i) (comm_size i) (comm_rank i)
                                    (S (comm_children i))]> t)) w)).
Proof.
  intros Hc Hi. unfold MPI_Comm_dup.
  now rewrite (bind_returns _ _ _ _ _ (lookup_comm_valid c i w Hc Hi)).
Qed.

Lemma dup_same_group (c : MPI_Comm) (i : CommInfo) (w w' : World) (h : MPI_Comm) :
  c <> MPI_COMM_NULL -> comms w !! c = Some i ->
  MPI_Comm_dup c w = Returns h w' ->
  h <> MPI_COMM_NULL /\ h <> c /\ comms w !! h = None /\ same_group w' c h
  /\ communicator_objects w' = communicator_objects w.
Proof.
  intros Hc Hi. rewrite (MPI_Comm_dup_valid c i w Hc Hi). intros [= <- <-].
  pose proof (fresh_handle_unused (comms w)) as Hfresh.
  assert (fresh_handle (comms w) <> c) as Hne by (intros E; congruence).
  split; [apply fresh_handle_not_null|]. split; [exact Hne|]. split; [exact Hfresh|].
  split; [|reflexivity].
  eexists. eexists. cbn.
  rewrite lookup_insert_ne, !lookup_insert_eq by exact Hne. repeat split.
Qed.

Lemma close_valid (c : Communicator) (i : CommInfo) (w : World) :
  Communicator.is_null c = false -> comms w !! comm c = Some i ->
  Communicator.close c w
  = Returns Communicator.default
            (log (EvCommFree (comm c)) (set_comms (delete (comm c)) w)).
Proof.
  intros Hc Hi. unfold Communicator.close, MPI_Comm_free. rewrite Hc. cbn [negb].
  unfold bind. now rewrite (lookup_comm_valid _ i w (is_null_false _ Hc) Hi).
Qed.

Lemma close_null (c : Communicator) (w : World) :
  Communicator.is_null c = true -> Communicator.close c w = Returns c w.
Proof. intros Hc. unfold Communicator.close. now rewrite Hc. Qed.

(** Copy construction and copy assignment from another object: a null
    source gives a null communicator, a source with a valid group gives a
    new handle on the same group and leaves the source as it was. *)
Lemma copy_from_another (this other : addr) (c0 o : Communicator) (w : World) :
  this <> other ->
  communicator_objects w !! this = Some c0 ->
  Communicator.is_null c0 = true ->
  communicator_objects w !! other = Some o ->
  (Communicator.is_null o = true ->
   Communicator.copy_construct this other w
   = Returns tt (set_communicator_objects (insert this Communicator.default) w)
   /\ Communicator.copy_assign this other w
      = Returns tt (set_communicator_objects (insert this c0) w))
  /\ (Communicator.is_null o = false ->
      forall i, comms w !! comm o = Some i ->
      forall run, run = Communicator.copy_construct \/ run = Communicator.copy_assign ->
      exists w' h,
        run this other w = Returns tt w'
        /\ communicator_objects w' !! this = Some (mkCommunicator h)
        /\ communicator_objects w' !! other = Some o
        /\ h <> MPI_COMM_NULL /\ h <> comm o /\ comms w !! h = None
        /\ same_group w' (comm o) h).
Proof.
  intros Hne H0 Hc0 Ho. split.
  - intros Hnull. split.
    + unfold Communicator.copy_construct, Communicator.store, Communicator.load,
        bind, modify, ret. cbn. rewrite lookup_insert_ne, Ho, Hnull by exact Hne.
      reflexivity.
    + unfold Communicator.copy_assign, Communicator.store, Communicator.load,
        bind, modify, ret. rewrite H0, (close_null c0 w Hc0).
      cbn. rewrite lookup_insert_ne, Ho, Hnull by exact Hne. reflexivity.
  - intros Hnn i Hi run Hrun.
    assert (forall c1, exists w' h,
              bind (Communicator.store this c1)
                   (fun _ => bind (Communicator.load other)
                     (fun o' => if negb (Communicator.is_null o')
                                then bind (MPI_Comm_dup (comm o'))
                                       (fun h => Communicator.store this (mkCommunicator h))
                                else ret tt)) w = Returns tt w'
              /\ communicator_objects w' !! this = Some (mkCommunicator h)
              /\ communicator_objects w' !! other = Some o
              /\ h <> MPI_COMM_NULL /\ h <> comm o /\ comms w !! h = None
              /\ same_group w' (comm o) h) as Hcopy.
    { intros c1.
      unfold Communicator.store at 1. unfold Communicator.load, bind at 1 2, modify.
      cbn [communicator_objects set_communicator_objects].
      rewrite lookup_insert_ne, Ho, Hnn by exact Hne. cbn [negb].
      pose proof (MPI_Comm_dup_valid (comm o) i
                    (set_communicator_objects (insert this c1) w)
                    (is_null_false _ Hnn) Hi) as Hdup.
      destruct (dup_same_group (comm o) i
                  (set_communicator_objects (insert this c1) w) _ _
                  (is_null_false _ Hnn) Hi Hdup)
        as (Hh0 & Hho & Hfresh & Hsame & Hobj).
      rewrite (bind_returns _ _ _ _ _ Hdup).
      eexists. eexists. split; [reflexivity|].
      cbn [communicator_objects set_communicator_objects log set_comms].
      rewrite lookup_insert_eq, lookup_insert_ne, lookup_insert_ne, Ho by exact Hne.
      split; [reflexivity|]. split; [reflexivity|].
      split; [exact Hh0|]. split; [exact Hho|]. split; [exact Hfresh|].
      exact Hsame. }
    destruct Hrun as [-> | ->].
    + apply Hcopy.
    + unfold Communicator.copy_assign, Communicator.load at 1. unfold bind at 1.
      rewrite H0. unfold bind at 1. rewrite (close_null c0 w Hc0). apply Hcopy.
Qed.

(** Copy assignment over an object that holds a group of its own releases
    that group, then duplicates the source's. *)
Lemma copy_assign_over_valid (this other : addr) (c0 o : Communicator)
    (i0 i : CommInfo) (w : World) :
  this <> other ->
  communicator_objects w !! this = Some c0 ->
  communicator_objects w !! other = Some o ->
  Communicator.is_null c0 = false -> comms w !! comm c0 = Some i0 ->
  Communicator.is_null o = false -> comms w !! comm o = Some i ->
  comm c0 <> comm o ->
  exists w' h,
    Communicator.copy_assign this other w = Returns tt w'
    /\ communicator_objects w' !! this = Some (mkCommunicator h)
    /\ communicator_objects w' !! other = Some o
    /\ h <> MPI_COMM_NULL /\ h <> comm o
    /\ same_group w' (comm o) h
    /\ trace w' = trace w ++ [EvCommFree (comm c0); EvCommDup (comm o) h].
Proof.
  intros Hne H0 Ho Hc0 Hi0 Hnn Hi Hdiff.
  unfold Communicator.copy_assign, Communicator.load at 1. unfold bind at 1.
  rewrite H0. unfold bind at 1. rewrite (close_valid c0 i0 w Hc0 Hi0).
  unfold Communicator.store at 1. unfold Communicator.load, bind at 1 2, modify.
  cbn [communicator_objects set_communicator_objects log set_comms].
  rewrite lookup_insert_ne, Ho, Hnn by exact Hne. cbn [negb].
  match goal with |- context [bind _ _ ?w0] => set (w1 := w0) end.
  assert (comms w1 !! comm o = Some i) as Hi1.
  { unfold w1. cbn. now rewrite lookup_delete_ne. }
  pose proof (MPI_Comm_dup_valid (comm o) i w1 (is_null_false _ Hnn) Hi1) as Hdup.
  destruct (dup_same_group (comm o) i w1 _ _ (is_null_false _ Hnn) Hi1 Hdup)
    as (Hh0 & Hho & _ & Hsame & _).
  rewrite (bind_returns _ _ _ _ _ Hdup).
  eexists. eexists. split; [reflexivity|].
  cbn [communicator_objects set_communicator_objects log set_comms w1].
  rewrite lookup_insert_eq, lookup_insert_ne, lookup_insert_ne, Ho by exact Hne.
  split; [reflexivity|]. split; [reflexivity|].
  split; [exact Hh0|]. split; [exact Hho|]. split; [exact Hsame|].
  cbn. now rewrite <- app_assoc.
Qed.

(** Copy assignment of an object to itself: [close()] nulls the object,
    the source, being the same object, is then null, and nothing is
    duplicated. *)
Lemma copy_assign_self (this : addr) (c : Communicator) (i : CommInfo) (w : World) :
  communicator_objects w !! this = Some c ->
  Communicator.is_null c = false -> comms w !! comm c = Some i ->
  Communicator.copy_assign this this w
  = Returns tt
      (set_communicator_objects (insert this Communicator.default)
         (log (EvCommFree (comm c)) (set_comms (delete (comm c)) w))).
Proof.
  intros Hthis Hc Hi.
  unfold Communicator.copy_assign, Communicator.load at 1. unfold bind at 1.
  rewrite Hthis. unfold bind at 1. rewrite (close_valid c i w Hc Hi).
  unfold Communicator.store, Communicator.load, bind, modify.
  cbn [communicator_objects set_communicator_objects log set_comms].
  rewrite lookup_insert_eq. reflexivity.
Qed.

(** C6.  Copy assignment is not safe for self-assignment.  Assigning the
    Communicator object of rank 0 (address 10, handle 1, a group of two
    ranks) to itself returns with the object null, its group released and
    nothing duplicated, where a valid group equivalent to the one held
    before was to be expected.  Copies from another object duplicate the
    group, or give a null communicator for a null source
    ([copy_from_another], [copy_assign_over_valid]). *)
Theorem copy_assign_to_itself_nulls :
  communicator_objects two_ranks_objects !! 10%nat = Some comm_of_rank0
  /\ Communicator.is_null comm_of_rank0 = false
  /\ comms two_ranks_objects !! comm comm_of_rank0 = Some (mkCommInfo [] 2 0 0)
  /\ exists w',
       Communicator.copy_assign 10%nat 10%nat two_ranks_objects = Returns tt w'
       /\ communicator_objects w' !! 10%nat = Some Communicator.default
       /\ comms w' !! comm comm_of_rank0 = None
       /\ trace w' = trace two_ranks_objects ++ [EvCommFree (comm comm_of_rank0)]
       /\ ~ (exists c, communicator_objects w' !! 10%nat = Some c
                       /\ same_group w' (comm c) (comm c)).
Proof.
  split; [reflexivity|]. split; [reflexivity|]. split; [reflexivity|].
  eexists. split.
  - apply (copy_assign_self 10%nat comm_of_rank0 (mkCommInfo [] 2 0 0)); reflexivity.
  - split; [reflexivity|]. split; [reflexivity|]. split; [reflexivity|].
    intros (c & Hc & i1 & _ & Hi1 & _).
    vm_compute in Hc. injection Hc as <-. vm_compute in Hi1. discriminate.
Qed.

(** ** Dropping and overwriting a Request *)

Ltac lookup_objects :=
  repeat first
    [ rewrite lookup_insert_eq
    | rewrite lookup_insert_ne by congruence
    | rewrite lookup_delete_eq
    | rewrite lookup_delete_ne by congruence
    | progress cbn [request_objects set_request_objects operations set_operations
                    log release set_posted trace request buffer] ].

Lemma cancel_pending (r : Request) (o : Operation) (w : World) :
  Request.is_null r = false ->
  operations w !! request r = Some o ->
  exists w',
    Request.cancel r w = Returns (mkRequest MPI_REQUEST_NULL (buffer r)) w'
    /\ operations w' = delete (request r) (operations w)
    /\ trace w' = trace w ++ [EvCancel (request r); EvRequestFree (request r)]
    /\ request_objects w' = request_objects w.
Proof.
  intros Hnn Ho. pose proof (proj1 (Nat.eqb_neq _ _) Hnn) as Hh.
  unfold Request.cancel. rewrite Hnn. cbn [negb].
  unfold MPI_Cancel, MPI_Request_free, bind, lookup_operation, modify, ret.
  destruct (Nat.eqb_spec (request r) MPI_REQUEST_NULL) as [|_]; [contradiction|].
  rewrite Ho.
  destruct o as [m|s|m k|m k|]; lookup_objects; try rewrite Ho;
    eexists; (split; [reflexivity|]); lookup_objects;
    rewrite <- ?app_assoc, ?delete_insert_eq; auto.
Qed.

Lemma cancel_null (r : Request) (w : World) :
  Request.is_null r = true -> Request.cancel r w = Returns r w.
Proof. intros Hn. unfold Request.cancel. now rewrite Hn. Qed.

(** The body of the earlier revision's move assignment, which is also the
    tail of the current one: the fields of [other] move to [this], and
    [other] is left null. *)
Lemma steal_fields (this other : addr) (r o : Request) (w : World) :
  this <> other ->
  request_objects w !! this = Some r ->
  request_objects w !! other = Some o ->
  exists w',
    Part000.Request.move_assign this other w = Returns tt w'
    /\ request_objects w' !! this = Some (mkRequest (request o) (buffer o))
    /\ request_objects w' !! other = Some (mkRequest MPI_REQUEST_NULL [])
    /\ (forall a, a <> this -> a <> other ->
          request_objects w' !! a = request_objects w !! a)
    /\ operations w' = operations w
    /\ trace w' = trace w.
Proof.
  intros Hne Hthis Hother.
  unfold Part000.Request.move_assign, Request.move_buffer, Request.write_buffer,
    Request.write_request, Request.load, Request.store, bind, modify, ret.
  repeat first [rewrite Hother | rewrite Hthis | progress lookup_objects].
  eexists. split; [reflexivity|]. lookup_objects.
  split; [reflexivity|]. split; [reflexivity|].
  split; [|split; reflexivity].
  intros a Ha1 Ha2. now lookup_objects.
Qed.

Lemma move_assign_unfold (this other : addr) :
  Request.move_assign this other
  = bind (Request.load this)
      (fun r => bind (Request.cancel r)
         (fun r' => bind (Request.store this r')
            (fun _ => Part000.Request.move_assign this other))).
Proof. reflexivity. Qed.

(** Destroying a Request that tracks a pending operation, in both
    revisions: the operation is cancelled, its handle released, the object
    gone. *)
Lemma destroy_pending (this : addr) (r : Request) (o : Operation) (w : World) :
  request_objects w !! this = Some r ->
  Request.is_null r = false ->
  operations w !! request r = Some o ->
  exists w',
    Request.destroy this w = Returns tt w'
    /\ Part000.Request.destroy this w = Returns tt w'
    /\ operations w' = delete (request r) (operations w)
    /\ request_objects w' = delete this (request_objects w)
    /\ trace w' = trace w ++ [EvCancel (request r); EvRequestFree (request r)].
Proof.
  intros Hthis Hnn Ho.
  destruct (cancel_pending r o w Hnn Ho) as (w1 & Hcancel & Hops & Htrace & Hobj).
  exists (set_request_objects (delete this) w1).
  split; [|split].
  - unfold Request.destroy, Request.load. unfold bind at 1. rewrite Hthis.
    now rewrite (bind_returns _ _ _ _ _ Hcancel).
  - unfold Part000.Request.destroy, Request.load. unfold bind at 1. rewrite Hthis.
    unfold Part000.Request.is_null. fold (Request.is_null r). rewrite Hnn. cbn [negb].
    unfold Request.cancel in Hcancel. rewrite Hnn in Hcancel. cbn [negb] in Hcancel.
    unfold bind in Hcancel |- *.
    destruct (MPI_Cancel (request r) w) as [[] w2| | | |]; try discriminate.
    destruct (MPI_Request_free (request r) w2) as [h w3| | | |]; try discriminate.
    cbn in Hcancel |- *. now injection Hcancel as _ ->.
  - cbn. now rewrite Hops, Hobj, Htrace.
Qed.

(** Move assignment of the current revision over a Request that tracks a
    pending operation: the operation is cancelled and its handle released
    before the fields of [other] are taken. *)
Lemma move_assign_pending (this other : addr) (r o : Request) (op : Operation) (w : World) :
  this <> other ->
  request_objects w !! this = Some r ->
  request_objects w !! other = Some o ->
  Request.is_null r = false ->
  operations w !! request r = Some op ->
  exists w',
    Request.move_assign this other w = Returns tt w'
    /\ operations w' = delete (request r) (operations w)
    /\ trace w' = trace w ++ [EvCancel (request r); EvRequestFree (request r)]
    /\ request_objects w' !! this = Some (mkRequest (request o) (buffer o))
    /\ request_objects w' !! other = Some (mkRequest MPI_REQUEST_NULL [])
    /\ (forall a, a <> this -> a <> other ->
          request_objects w' !! a = request_objects w !! a).
Proof.
  intros Hne Hthis Hother Hnn Ho.
  destruct (cancel_pending r op w Hnn Ho) as (w1 & Hcancel & Hops & Htrace & Hobj).
  destruct (steal_fields this other (mkRequest MPI_REQUEST_NULL (buffer r)) o
              (set_request_objects (insert this (mkRequest MPI_REQUEST_NULL (buffer r))) w1)
              Hne)
    as (w2 & Hsteal & H2this & H2other & H2rest & H2ops & H2trace).
  { cbn. apply lookup_insert_eq. }
  { cbn. rewrite lookup_insert_ne, Hobj by exact Hne. exact Hother. }
  exists w2. split.
  - rewrite move_assign_unfold. unfold Request.load. unfold bind at 1. rewrite Hthis.
    rewrite (bind_returns _ _ _ _ _ Hcancel).
    unfold Request.store. unfold bind at 1. unfold modify. exact Hsteal.
  - rewrite H2ops, H2trace. cbn. rewrite Hops, Htrace.
    repeat split; try assumption.
    intros a Ha1 Ha2. rewrite (H2rest a Ha1 Ha2). cbn.
    now rewrite lookup_insert_ne, Hobj by congruence.
Qed.

(** With move assignment as the current revision has it, and with the
    destructor of either revision, nothing dangles afterwards. *)
Lemma drop_and_overwrite_keep_all_tracked
    (this other : addr) (r o : Request) (op : Operation) (w : World) :
  all_tracked w ->
  this <> other ->
  request_objects w !! this = Some r ->
  request_objects w !! other = Some o ->
  Request.is_null r = false ->
  operations w !! request r = Some op ->
  (exists w', Request.destroy this w = Returns tt w'
              /\ Part000.Request.destroy this w = Returns tt w'
              /\ operations w' !! request r = None /\ all_tracked w')
  /\ (exists w', Request.move_assign this other w = Returns tt w'
                 /\ operations w' !! request r = None /\ all_tracked w').
Proof.
  intros Hall Hne Hthis Hother Hnn Ho. split.
  - destruct (destroy_pending this r op w Hthis Hnn Ho)
      as (w' & Hrun & Hrun0 & Hops & Hobj & _).
    exists w'. split; [exact Hrun|]. split; [exact Hrun0|].
    split; [rewrite Hops; apply lookup_delete_eq|].
    intros h [[x Hx] Hnone]. rewrite Hops in Hx.
    apply lookup_delete_Some in Hx as [Hh Hx].
    apply (Hall h). split; [now exists x|].
    intros a r' Ha E. destruct (decide (a = this)) as [->|Hat].
    + rewrite Hthis in Ha. injection Ha as <-. congruence.
    + apply (Hnone a r'); [|exact E]. rewrite Hobj. now rewrite lookup_delete_ne.
  - destruct (move_assign_pending this other r o op w Hne Hthis Hother Hnn Ho)
      as (w' & Hrun & Hops & _ & H2this & H2other & H2rest).
    exists w'. split; [exact Hrun|].
    split; [rewrite Hops; apply lookup_delete_eq|].
    intros h [[x Hx] Hnone]. rewrite Hops in Hx.
    apply lookup_delete_Some in Hx as [Hh Hx].
    apply (Hall h). split; [now exists x|].
    intros a r' Ha E. destruct (decide (a = this)) as [->|Hat].
    + rewrite Hthis in Ha. injection Ha as <-. congruence.
    + destruct (decide (a = other)) as [->|Hao].
      * rewrite Hother in Ha. injection Ha as <-.
        now apply (Hnone this (mkRequest (request o) (buffer o))).
      * apply (Hnone a r'); [|exact E]. now rewrite (H2rest a Hat Hao).
Qed.

(** Move assignment of the earlier revision over a Request that is the
    only one to track a pending operation: no transport call is made, the
    operation stays active and no object tracks it any more. *)
Lemma part000_move_assign_dangles
    (this other : addr) (r o : Request) (op : Operation) (w : World) :
  this <> other ->
  request_objects w !! this = Some r ->
  request_objects w !! other = Some o ->
  Request.is_null r = false ->
  operations w !! request r = Some op ->
  (forall a r', request_objects w !! a = Some r' -> a <> this -> request r' <> request r) ->
  exists w',
    Part000.Request.move_assign this other w = Returns tt w'
    /\ trace w' = trace w
    /\ operations w' !! request r = Some op
    /\ dangling w' (request r).
Proof.
  intros Hne Hthis Hother Hnn Ho Hsole.
  destruct (steal_fields this other r o w Hne Hthis Hother)
    as (w' & Hrun & H2this & H2other & H2rest & H2ops & H2trace).
  exists w'. split; [exact Hrun|]. split; [exact H2trace|].
  split; [now rewrite H2ops|]. split; [rewrite H2ops; now exists op|].
  intros a r' Ha. destruct (decide (a = this)) as [->|Hat].
  - rewrite H2this in Ha. injection Ha as <-. cbn.
    apply (Hsole other o Hother). congruence.
  - destruct (decide (a = other)) as [->|Hao].
    + rewrite H2other in Ha. injection Ha as <-. cbn.
      intros E. apply (proj1 (Nat.eqb_neq _ _) Hnn). now symmetry.
    + rewrite (H2rest a Hat Hao) in Ha. now apply (Hsole a r').
Qed.

(** C5.  Cancellation on drop and on overwrite holds of the current
    revision and of both destructors ([destroy_pending],
    [move_assign_pending], [drop_and_overwrite_keep_all_tracked]); it is
    missing from the move assignment of the earlier revision.  Rank 0 has
    two sends in flight, tracked by the Requests at addresses 20 (handle 1)
    and 21 (handle 2).  Move-assigning the second over the first with the
    earlier revision's operator makes no transport call and leaves
    operation 1 active with no Request tracking it; the current revision's
    operator cancels and releases it. *)
Theorem overwritten_request_dangles_in_earlier_revision :
  request_objects two_ranks_objects !! 20%nat = Some (mkRequest 1 hi)
  /\ request_objects two_ranks_objects !! 21%nat = Some (mkRequest 2 hi)
  /\ all_tracked two_ranks_objects
  /\ (exists w',
        Part000.Request.move_assign 20%nat 21%nat two_ranks_objects = Returns tt w'
        /\ trace w' = trace two_ranks_objects
        /\ operations w' !! 1%nat = Some (SendOp hi_message)
        /\ dangling w' 1%nat
        /\ ~ all_tracked w')
  /\ (exists w',
        Request.move_assign 20%nat 21%nat two_ranks_objects = Returns tt w'
        /\ trace w' = trace two_ranks_objects ++ [EvCancel 1%nat; EvRequestFree 1%nat]
        /\ operations w' !! 1%nat = None
        /\ all_tracked w').
Proof.
  assert (all_tracked two_ranks_objects) as Hall.
  { intros h [[x Hx] Hnone].
    destruct (decide (h = 1%nat)) as [->|H1].
    - now apply (Hnone 20%nat (mkRequest 1 hi)).
    - destruct (decide (h = 2%nat)) as [->|H2].
      + now apply (Hnone 21%nat (mkRequest 2 hi)).
      + cbn in Hx. rewrite lookup_insert_ne, lookup_singleton_ne in Hx by congruence.
        discriminate. }
  split; [reflexivity|]. split; [reflexivity|]. split; [exact Hall|]. split.
  - destruct (part000_move_assign_dangles 20%nat 21%nat (mkRequest 1 hi) (mkRequest 2 hi)
                (SendOp hi_message) two_ranks_objects)
      as (w' & Hrun & Htrace & Hop & Hdangling);
      [congruence|reflexivity|reflexivity|reflexivity|reflexivity| |].
    { intros a r' Ha Hne. cbn in Ha. rewrite lookup_insert_ne in Ha by congruence.
      destruct (decide (a = 21%nat)) as [->|H21].
      - rewrite lookup_singleton_eq in Ha. injection Ha as <-. cbn. congruence.
      - rewrite lookup_singleton_ne in Ha by congruence. discriminate. }
    exists w'. repeat split; try assumption.
    + now destruct Hdangling.
    + now destruct Hdangling.
    + intros Hall'. now apply (Hall' 1%nat).
  - destruct (drop_and_overwrite_keep_all_tracked 20%nat 21%nat
                (mkRequest 1 hi) (mkRequest 2 hi) (SendOp hi_message) two_ranks_objects Hall)
      as [_ (w' & Hrun & Hop & Hall')];
      [congruence|reflexivity|reflexivity|reflexivity|reflexivity|].
    destruct (move_assign_pending 20%nat 21%nat (mkRequest 1 hi) (mkRequest 2 hi)
                (SendOp hi_message) two_ranks_objects)
      as (w'' & Hrun' & _ & Htrace & _);
      [congruence|reflexivity|reflexivity|reflexivity|reflexivity|].
    rewrite Hrun in Hrun'. injection Hrun' as <-.
    exists w'. auto.
Qed.

(** * Further properties of the classes *)

(** ** Untyped messages *)


(** X1. Round trip of raw bytes with the blocking calls.  A byte string
    shorter than 2^31 bytes, so that its length fits the [int] count of the
    transport, sent with [send] is what [recv] returns, the message being
    the first one the receiver's filters accept. *)
Theorem untyped_round_trip
    (cs cr : Communicator) (si ri : CommInfo)
    (buf : bytes) (tag source rtag : Z) (w : World) :
  let m := mkMessage (comm_context si) (comm_rank si) (comm_rank ri) tag buf in
  Communicator.is_null cs = false -> comms w !! comm cs = Some si ->
  Communicator.is_null cr = false -> comms w !! comm cr = Some ri ->
  Z.of_nat (length buf) < 2 ^ 31 ->
  valid_dest si (comm_rank ri) tag = true ->
  matches (comm_context ri) (comm_rank ri) source rtag m = true ->
  accepting (operations w) m (posted w) = None ->
  pending w (comm cr) source rtag = None ->
  exists w1 w2,
    Communicator.send cs buf (comm_rank ri) tag w = Returns tt w1
    /\ mailbox w1 = mailbox w ++ [m]
    /\ Communicator.recv cr source rtag w1 = Returns buf w2
    /\ mailbox w2 = mailbox w.
Proof.
  intros m Hcs Hsi Hcr Hri Hfit Hd Hm Ha Hp.
  apply is_null_false in Hcs. pose proof (is_null_false _ Hcr) as Hcr'.
  assert (pending (log (EvSend buf (comm_rank ri) tag (comm cs))
                       (set_mailbox (fun q => q ++ [m]) w)) (comm cr) source rtag
          = Some m) as Hp2.
  { rewrite <- (pending_after_send w (comm cr) ri source rtag m Hcr' Hri Hp Hm).
    reflexivity. }
  eexists. eexists. split; [|split; [|split]].
  - unfold Communicator.send. rewrite to_signed_small by lia.
    now apply (MPI_Send_buffered w (comm cs) si).
  - reflexivity.
  - exact (recv_pending cr source rtag m _ Hp2).
  - cbn [mailbox log]. unfold consume. cbn [comms log set_mailbox]. rewrite Hri.
    cbn [mailbox set_mailbox log].
    apply pending_none_inv with (i := ri) in Hp; [|assumption|assumption].
    clear Hp2. induction (mailbox w) as [|x q IH]; cbn [app remove_first].
    + now rewrite Hm.
    + cbn [List.find] in Hp.
      destruct (matches (comm_context ri) (comm_rank ri) source rtag x);
        [discriminate|]. now rewrite IH.
Qed.

Lemma untyped_round_trip_witness :
  exists w1 w2,
    Communicator.send comm_of_rank0 hi 1 7 two_ranks = Returns tt w1
    /\ mailbox w1 = mailbox two_ranks ++ [mkMessage [] 0 1 7 hi]
    /\ Communicator.recv comm_of_rank1 any_source any_tag w1 = Returns hi w2
    /\ mailbox w2 = mailbox two_ranks.
Proof.
  apply (untyped_round_trip comm_of_rank0 comm_of_rank1
           (mkCommInfo [] 2 0 0) (mkCommInfo [] 2 1 0) hi 7 any_source any_tag
           two_ranks).
  - reflexivity.
  - reflexivity.
  - reflexivity.
  - reflexivity.
  - vm_compute; reflexivity.
  - reflexivity.
  - reflexivity.
  - reflexivity.
  - reflexivity.
Defined.




(** X2. [isend(buf, ...).get()] is a blocking send, for a buffer shorter
    than 2^31 bytes (so that its length fits the [int] count of the
    transport): wherever the message goes (to the queue, or to a receive
    already posted), the transport is left with the same queue and the
    same operations as after [send], and the Request that is left is
    null. *)
Theorem isend_then_get_is_send
    (c : Communicator) (i : CommInfo) (buf : bytes) (dest tag : Z) (w : World) :
  Communicator.is_null c = false ->
  comms w !! comm c = Some i ->
  Z.of_nat (length buf) < 2 ^ 31 ->
  valid_dest i dest tag = true ->
  exists r w1 r' w2 w3,
    Communicator.isend c buf dest tag w = Returns r w1
    /\ Request.get r w1 = Returns (buf, r') w2
    /\ Request.is_null r' = true
    /\ Communicator.send c buf dest tag w = Returns tt w3
    /\ mailbox w2 = mailbox w3
    /\ operations w2 = operations w3
    /\ comms w2 = comms w3.
Proof.
  intros Hc Hi Hfit Hd. pose proof (is_null_false _ Hc) as Hc'.
  set (m := mkMessage (comm_context i) (comm_rank i) dest tag buf).
  set (h := fresh_handle (operations (deliver m w))).
  assert (Communicator.isend c buf dest tag w
          = Returns (mkRequest h buf)
              (log (EvIsend buf dest tag (comm c) h)
                 (set_operations (insert h (SendOp m)) (deliver m w)))) as Hisend.
  { unfold Communicator.isend. rewrite to_signed_small by lia.
    unfold MPI_Isend, bind, modify, get_world, ret.
    rewrite (lookup_comm_valid _ i w Hc' Hi).
    destruct (Z.ltb_spec (Z.of_nat (length buf)) 0); [lia|].
    rewrite Z.ltb_irrefl, Hd. cbn [negb].
    rewrite Nat2Z.id, take_ge by lia. reflexivity. }
  assert (Communicator.send c buf dest tag w
          = Returns tt (log (EvSend buf dest tag (comm c)) (deliver m w))) as Hsend.
  { unfold Communicator.send. rewrite to_signed_small by lia.
    unfold MPI_Send, bind, modify, ret.
    rewrite (lookup_comm_valid _ i w Hc' Hi).
    destruct (Z.ltb_spec (Z.of_nat (length buf)) 0); [lia|].
    rewrite Z.ltb_irrefl, Hd. cbn [negb].
    rewrite Nat2Z.id, take_ge by lia. reflexivity. }
  pose proof (fresh_handle_not_null (operations (deliver m w))) as Hh0.
  pose proof (fresh_handle_unused (operations (deliver m w))) as Hfresh.
  fold h in Hh0, Hfresh.
  eexists. eexists. eexists. eexists. eexists.
  split; [exact Hisend|]. split.
  - unfold Request.get, MPI_Wait, bind, lookup_operation, modify, ret. cbn [request buffer].
    destruct (Nat.eqb_spec h MPI_REQUEST_NULL) as [E|_]; [contradiction|].
    cbn [operations log set_operations]. rewrite lookup_insert_eq. reflexivity.
  - split; [reflexivity|]. split; [exact Hsend|].
    split; [reflexivity|]. split; [|reflexivity].
    cbn. rewrite delete_insert_eq. now apply delete_id.
Qed.

Lemma isend_then_get_is_send_witness :
  exists r w1 r' w2 w3,
    Communicator.isend comm_of_rank0 hi 1 7 two_ranks = Returns r w1
    /\ Request.get r w1 = Returns (hi, r') w2
    /\ Request.is_null r' = true
    /\ Communicator.send comm_of_rank0 hi 1 7 two_ranks = Returns tt w3
    /\ mailbox w2 = mailbox w3
    /\ operations w2 = operations w3
    /\ comms w2 = comms w3.
Proof.
  apply (isend_then_get_is_send comm_of_rank0 (mkCommInfo [] 2 0 0) hi 1 7 two_ranks).
  - reflexivity.
  - reflexivity.
  - vm_compute; reflexivity.
  - reflexivity.
Defined.

(** ** Moving a Request onto itself *)

Lemma steal_own_fields (this : addr) (r : Request) (w : World) :
  request_objects w !! this = Some r ->
  exists w',
    Part000.Request.move_assign this this w = Returns tt w'
    /\ request_objects w' !! this = Some (mkRequest MPI_REQUEST_NULL [])
    /\ operations w' = operations w
    /\ trace w' = trace w.
Proof.
  intros Hthis.
  unfold Part000.Request.move_assign, Request.move_buffer, Request.write_buffer,
    Request.write_request, Request.load, Request.store, bind, modify, ret.
  repeat first [rewrite Hthis | progress lookup_objects].
  eexists. split; [reflexivity|]. lookup_objects.
  repeat split.
Qed.

(** X22. Moving a Request onto itself.  In the current revision [cancel()]
    runs first, so a pending operation is cancelled and released; then the
    object takes its own fields, the buffer emptied by the move and the
    handle null.  In the earlier revision nothing is cancelled: the object
    ends null with an empty buffer while the operation stays active in the
    transport. *)
Theorem request_move_assign_self
    (this : addr) (r : Request) (o : Operation) (w : World) :
  request_objects w !! this = Some r ->
  Request.is_null r = false ->
  operations w !! request r = Some o ->
  (exists w',
      Request.move_assign this this w = Returns tt w'
      /\ request_objects w' !! this = Some (mkRequest MPI_REQUEST_NULL [])
      /\ operations w' = delete (request r) (operations w)
      /\ trace w' = trace w ++ [EvCancel (request r); EvRequestFree (request r)])
  /\ (exists w',
         Part000.Request.move_assign this this w = Returns tt w'
         /\ request_objects w' !! this = Some (mkRequest MPI_REQUEST_NULL [])
         /\ operations w' = operations w
         /\ operations w' !! request r = Some o
         /\ trace w' = trace w).
Proof.
  intros Hthis Hnn Ho. split.
  - destruct (cancel_pending r o w Hnn Ho) as (w1 & Hcancel & Hops & Htrace & Hobj).
    destruct (steal_own_fields this (mkRequest MPI_REQUEST_NULL (buffer r))
                (set_request_objects
                   (insert this (mkRequest MPI_REQUEST_NULL (buffer r))) w1))
      as (w2 & Hsteal & H2this & H2ops & H2trace).
    { cbn. apply lookup_insert_eq. }
    exists w2. split.
    + rewrite move_assign_unfold. unfold Request.load. unfold bind at 1. rewrite Hthis.
      rewrite (bind_returns _ _ _ _ _ Hcancel).
      unfold Request.store. unfold bind at 1. unfold modify. exact Hsteal.
    + rewrite H2ops, H2trace. cbn. rewrite Hops, Htrace. now repeat split.
  - destruct (steal_own_fields this r w Hthis) as (w2 & Hsteal & H2this & H2ops & H2trace).
    exists w2. rewrite H2ops. now repeat split.
Qed.

Lemma request_move_assign_self_witness :
  (exists w',
      Request.move_assign 20%nat 20%nat two_ranks_objects = Returns tt w'
      /\ request_objects w' !! 20%nat = Some (mkRequest MPI_REQUEST_NULL [])
      /\ operations w' = delete 1%nat (operations two_ranks_objects)
      /\ trace w' = trace two_ranks_objects ++ [EvCancel 1%nat; EvRequestFree 1%nat])
  /\ (exists w',
         Part000.Request.move_assign 20%nat 20%nat two_ranks_objects = Returns tt w'
         /\ request_objects w' !! 20%nat = Some (mkRequest MPI_REQUEST_NULL [])
         /\ operations w' = operations two_ranks_objects
         /\ operations w' !! 1%nat = Some (SendOp hi_message)
         /\ trace w' = trace two_ranks_objects).
Proof.
  apply (request_move_assign_self 20%nat (mkRequest 1%nat hi) (SendOp hi_message)
           two_ranks_objects).
  - reflexivity.
  - reflexivity.
  - reflexivity.
Defined.

(** ** Polling, waiting and getting *)

Lemma null_request_eta (r : Request) :
  Request.is_null r = true -> r = mkRequest MPI_REQUEST_NULL (buffer r).
Proof.
  destruct r as [h b]. unfold Request.is_null. cbn. now intros ->%Nat.eqb_eq.
Qed.

Lemma get_null (r : Request) (w : World) :
  Request.is_null r = true ->
  Request.get r w = Returns (buffer r, r) (log (EvWait MPI_REQUEST_NULL) w).
Proof.
  destruct r as [h b]. unfold Request.is_null. cbn [request buffer].
  now intros ->%Nat.eqb_eq.
Qed.

Lemma part000_null_throws (r : Request) (w : World) :
  Request.is_null r = true ->
  Part000.Request.test r w = Throws (logic_error null_request) w
  /\ Part000.Request.wait r w = Throws (logic_error null_request) w
  /\ Part000.Request.get r w = Throws (logic_error null_request) w.
Proof.
  intros Hn.
  unfold Part000.Request.get, Part000.Request.wait, Part000.Request.test,
    Part000.Request.throw_if_null, Part000.Request.is_null, bind.
  fold (Request.is_null r). now rewrite Hn.
Qed.





(** ** Null Requests and moved Requests *)

Lemma destroy_null (this : addr) (r : Request) (w : World) :
  request_objects w !! this = Some r ->
  Request.is_null r = true ->
  Request.destroy this w = Returns tt (set_request_objects (delete this) w)
  /\ Part000.Request.destroy this w = Returns tt (set_request_objects (delete this) w).
Proof.
  intros Hthis Hn. split.
  - unfold Request.destroy, Request.load. unfold bind at 1. rewrite Hthis.
    now rewrite (bind_returns _ _ _ _ _ (cancel_null r w Hn)).
  - unfold Part000.Request.destroy, Request.load. unfold bind at 1. rewrite Hthis.
    unfold Part000.Request.is_null. fold (Request.is_null r). now rewrite Hn.
Qed.

(** X5. A null Request never reaches the transport's operations.  In the
    current revision [get()] returns the buffer at once, [cancel()] does
    nothing and [is_ready()] answers true; in the earlier revision
    [test()], [wait()] and [get()] throw a logic error instead; and the
    destructor of either revision cancels nothing. *)
Theorem null_request_methods (this : addr) (r : Request) (w : World) :
  request_objects w !! this = Some r ->
  Request.is_null r = true ->
  Request.get r w = Returns (buffer r, r) (log (EvWait MPI_REQUEST_NULL) w)
  /\ Request.cancel r w = Returns r w
  /\ Request.is_ready r w
     = Returns true (log (EvRequestGetStatus MPI_REQUEST_NULL true) w)
  /\ Part000.Request.test r w = Throws (logic_error null_request) w
  /\ Part000.Request.wait r w = Throws (logic_error null_request) w
  /\ Part000.Request.get r w = Throws (logic_error null_request) w
  /\ Request.destroy this w = Returns tt (set_request_objects (delete this) w)
  /\ Part000.Request.destroy this w = Returns tt (set_request_objects (delete this) w).
Proof.
  intros Hthis Hn.
  destruct (part000_null_throws r w Hn) as (Htest & Hwait & Hget).
  destruct (destroy_null this r w Hthis Hn) as [Hd Hd0].
  split; [now apply get_null|]. split; [now apply cancel_null|]. split.
  { rewrite (null_request_eta r Hn). reflexivity. }
  auto 10.
Qed.

Lemma null_request_methods_witness :
  Request.get Request.default
    (set_request_objects (insert 30%nat Request.default) two_ranks)
  = Returns ([], Request.default)
      (log (EvWait MPI_REQUEST_NULL)
         (set_request_objects (insert 30%nat Request.default) two_ranks))
  /\ Part000.Request.get Request.default
       (set_request_objects (insert 30%nat Request.default) two_ranks)
     = Throws (logic_error null_request)
         (set_request_objects (insert 30%nat Request.default) two_ranks).
Proof.
  pose proof (null_request_methods 30%nat Request.default
                (set_request_objects (insert 30%nat Request.default) two_ranks)
                eq_refl eq_refl) as (Hget & _ & _ & _ & _ & Hget0 & _).
  split; assumption.
Defined.

Lemma move_construct_unfold (this other : addr) :
  Request.move_construct this other
  = bind (Request.store this Request.default)
         (fun _ => Part000.Request.move_assign this other).
Proof. reflexivity. Qed.

(** X6. Move construction hands the operation over.  Constructing a
    Request at a fresh address from another one makes no transport call;
    the new object holds the handle and the buffer, the source is null,
    every operation that was tracked still is; and destroying the source
    afterwards cancels nothing, so the operation stays with the new
    object. *)
Theorem request_move_construct_transfers
    (this other : addr) (o : Request) (w : World) :
  this <> other ->
  request_objects w !! this = None ->
  request_objects w !! other = Some o ->
  operations w !! MPI_REQUEST_NULL = None ->
  all_tracked w ->
  exists w1 w2,
    Request.move_construct this other w = Returns tt w1
    /\ request_objects w1 !! this = Some (mkRequest (request o) (buffer o))
    /\ request_objects w1 !! other = Some (mkRequest MPI_REQUEST_NULL [])
    /\ operations w1 = operations w /\ trace w1 = trace w
    /\ all_tracked w1
    /\ Request.destroy other w1 = Returns tt w2
    /\ request_objects w2 !! this = Some (mkRequest (request o) (buffer o))
    /\ operations w2 = operations w /\ trace w2 = trace w
    /\ all_tracked w2.
Proof.
  intros Hne Hfresh Hother Hnull Hall.
  destruct (steal_fields this other Request.default o
              (set_request_objects (insert this Request.default) w) Hne)
    as (w1 & Hrun & H1this & H1other & H1rest & H1ops & H1trace).
  { cbn. apply lookup_insert_eq. }
  { cbn. now rewrite lookup_insert_ne. }
  assert (all_tracked w1) as Hall1.
  { intros h [[x Hx] Hnone]. rewrite H1ops in Hx. cbn in Hx.
    apply (Hall h). split; [now exists x|].
    intros a r' Ha E. destruct (decide (a = other)) as [->|Hao].
    - rewrite Hother in Ha. injection Ha as <-.
      now apply (Hnone this (mkRequest (request o) (buffer o))).
    - destruct (decide (a = this)) as [->|Hat]; [congruence|].
      apply (Hnone a r'); [|exact E]. rewrite (H1rest a Hat Hao). cbn.
      now rewrite lookup_insert_ne. }
  destruct (destroy_null other (mkRequest MPI_REQUEST_NULL []) w1 H1other eq_refl)
    as [Hdestroy _].
  exists w1. eexists.
  split; [rewrite move_construct_unfold; exact Hrun|].
  split; [exact H1this|]. split; [exact H1other|].
  split; [exact H1ops|]. split; [exact H1trace|]. split; [exact Hall1|].
  split; [exact Hdestroy|].
  split; [cbn; now rewrite lookup_delete_ne|].
  split; [exact H1ops|]. split; [exact H1trace|].
  intros h [[x Hx] Hnone]. cbn in Hx.
  apply (Hall1 h). split; [now exists x|].
  intros a r' Ha E. destruct (decide (a = other)) as [->|Hao].
  - rewrite H1other in Ha. injection Ha as <-. cbn in E. subst h.
    rewrite H1ops in Hx. cbn in Hx. congruence.
  - apply (Hnone a r'); [|exact E]. cbn. now rewrite lookup_delete_ne.
Qed.

Lemma request_move_construct_transfers_witness :
  exists w1 w2,
    Request.move_construct 22%nat 20%nat two_ranks_objects = Returns tt w1
    /\ request_objects w1 !! 22%nat = Some (mkRequest 1 hi)
    /\ request_objects w1 !! 20%nat = Some (mkRequest MPI_REQUEST_NULL [])
    /\ operations w1 = operations two_ranks_objects
    /\ trace w1 = trace two_ranks_objects
    /\ all_tracked w1
    /\ Request.destroy 20%nat w1 = Returns tt w2
    /\ request_objects w2 !! 22%nat = Some (mkRequest 1 hi)
    /\ operations w2 = operations two_ranks_objects
    /\ trace w2 = trace two_ranks_objects
    /\ all_tracked w2.
Proof.
  apply (request_move_construct_transfers 22%nat 20%nat (mkRequest 1 hi) two_ranks_objects);
    [congruence|reflexivity|reflexivity|reflexivity|].
  intros h [[x Hx] Hnone].
  destruct (decide (h = 1%nat)) as [->|H1].
  - now apply (Hnone 20%nat (mkRequest 1 hi)).
  - destruct (decide (h = 2%nat)) as [->|H2].
    + now apply (Hnone 21%nat (mkRequest 2 hi)).
    + cbn in Hx. rewrite lookup_insert_ne, lookup_singleton_ne in Hx by congruence.
      discriminate.
Defined.

(** ** Moving, closing and destroying a Communicator *)

Lemma null_communicator_eta (c : Communicator) :
  Communicator.is_null c = true -> c = Communicator.default.
Proof.
  destruct c as [h]. unfold Communicator.is_null. cbn. now intros ->%Nat.eqb_eq.
Qed.

Lemma close_run (c : Communicator) (w : World) :
  Communicator.is_null c = true \/ is_Some (comms w !! comm c) ->
  Communicator.close c w = Returns Communicator.default (closed c w).
Proof.
  unfold closed. destruct (Communicator.is_null c) eqn:Hc; intros Hv.
  - rewrite (close_null c w Hc). now rewrite (null_communicator_eta c Hc).
  - destruct Hv as [Hv|[i Hi]]; [discriminate|]. now apply (close_valid c i).
Qed.

(** X7. Moving a Communicator from another object never duplicates.  Move
    construction and move assignment leave the target with the very handle
    the source had and the source null; move assignment first releases the
    group the target held, if any; the only transport call is that
    release. *)
Theorem communicator_move_transfers
    (this other : addr) (c0 o : Communicator) (w : World) :
  this <> other ->
  communicator_objects w !! this = Some c0 ->
  communicator_objects w !! other = Some o ->
  Communicator.is_null c0 = true \/ is_Some (comms w !! comm c0) ->
  (exists w',
      Communicator.move_assign this other w = Returns tt w'
      /\ communicator_objects w' !! this = Some o
      /\ communicator_objects w' !! other = Some Communicator.default
      /\ comms w' = comms (closed c0 w)
      /\ trace w' = trace (closed c0 w))
  /\ (exists w',
         Communicator.move_construct this other w = Returns tt w'
         /\ communicator_objects w' !! this = Some o
         /\ communicator_objects w' !! other = Some Communicator.default
         /\ comms w' = comms w
         /\ trace w' = trace w).
Proof.
  intros Hne Hthis Hother Hv. destruct o as [h]. split.
  - eexists. split.
    + unfold Communicator.move_assign, Communicator.load at 1. unfold bind at 1.
      rewrite Hthis. unfold bind at 1. rewrite (close_run c0 w Hv).
      unfold Communicator.store, Communicator.load, bind, modify.
      cbn [communicator_objects set_communicator_objects].
      assert (communicator_objects (closed c0 w) = communicator_objects w) as ->.
      { unfold closed. now destruct (Communicator.is_null c0). }
      rewrite lookup_insert_ne, Hother by exact Hne. reflexivity.
    + cbn [communicator_objects set_communicator_objects comm].
      rewrite lookup_insert_ne, !lookup_insert_eq by congruence.
      repeat split.
  - eexists. split.
    + unfold Communicator.move_construct, Communicator.store, Communicator.load,
        bind, modify.
      cbn [communicator_objects set_communicator_objects].
      rewrite lookup_insert_ne, Hother by exact Hne. reflexivity.
    + cbn [communicator_objects set_communicator_objects comm].
      rewrite lookup_insert_ne, !lookup_insert_eq by congruence.
      repeat split.
Qed.

Lemma communicator_move_transfers_witness :
  (exists w',
      Communicator.move_assign 11%nat 10%nat two_ranks_objects = Returns tt w'
      /\ communicator_objects w' !! 11%nat = Some comm_of_rank0
      /\ communicator_objects w' !! 10%nat = Some Communicator.default
      /\ comms w' = comms (closed Communicator.default two_ranks_objects)
      /\ trace w' = trace (closed Communicator.default two_ranks_objects))
  /\ (exists w',
         Communicator.move_construct 11%nat 10%nat two_ranks_objects = Returns tt w'
         /\ communicator_objects w' !! 11%nat = Some comm_of_rank0
         /\ communicator_objects w' !! 10%nat = Some Communicator.default
         /\ comms w' = comms two_ranks_objects
         /\ trace w' = trace two_ranks_objects).
Proof.
  apply (communicator_move_transfers 11%nat 10%nat Communicator.default comm_of_rank0
           two_ranks_objects); [congruence|reflexivity|reflexivity|].
  now left.
Defined.

(** X8. Moving a Communicator onto itself loses the group: [close()] runs
    first, then the object takes its own, now null, handle. *)
Theorem communicator_move_assign_self
    (this : addr) (c : Communicator) (i : CommInfo) (w : World) :
  communicator_objects w !! this = Some c ->
  Communicator.is_null c = false ->
  comms w !! comm c = Some i ->
  exists w',
    Communicator.move_assign this this w = Returns tt w'
    /\ communicator_objects w' !! this = Some Communicator.default
    /\ comms w' = delete (comm c) (comms w)
    /\ trace w' = trace w ++ [EvCommFree (comm c)].
Proof.
  intros Hthis Hc Hi. eexists. split.
  - unfold Communicator.move_assign, Communicator.load at 1. unfold bind at 1.
    rewrite Hthis. unfold bind at 1. rewrite (close_valid c i w Hc Hi).
    unfold Communicator.store, Communicator.load, bind, modify.
    cbn [communicator_objects set_communicator_objects log set_comms].
    rewrite lookup_insert_eq. reflexivity.
  - cbn. rewrite lookup_insert_eq. repeat split.
Qed.

Lemma communicator_move_assign_self_witness :
  exists w',
    Communicator.move_assign 10%nat 10%nat two_ranks_objects = Returns tt w'
    /\ communicator_objects w' !! 10%nat = Some Communicator.default
    /\ comms w' = delete (comm comm_of_rank0) (comms two_ranks_objects)
    /\ trace w' = trace two_ranks_objects ++ [EvCommFree (comm comm_of_rank0)].
Proof.
  exact (communicator_move_assign_self 10%nat comm_of_rank0 (mkCommInfo [] 2 0 0)
           two_ranks_objects eq_refl eq_refl eq_refl).
Defined.

Lemma rank_valid (c : Communicator) (i : CommInfo) (w : World) :
  Communicator.is_null c = false -> comms w !! comm c = Some i ->
  Communicator.rank c w = Returns (comm_rank i) (log (EvCommRank (comm c)) w).
Proof.
  intros Hc Hi. unfold Communicator.rank, MPI_Comm_rank. rewrite Hc.
  now rewrite (bind_returns _ _ _ _ _ (lookup_comm_valid _ i w (is_null_false _ Hc) Hi)).
Qed.

Lemma communicator_destroy_valid (this : addr) (c : Communicator) (i : CommInfo)
    (w : World) :
  communicator_objects w !! this = Some c ->
  Communicator.is_null c = false -> comms w !! comm c = Some i ->
  Communicator.destroy this w
  = Returns tt
      (set_communicator_objects (delete this)
         (log (EvCommFree (comm c)) (set_comms (delete (comm c)) w))).
Proof.
  intros Hthis Hc Hi. unfold Communicator.destroy, Communicator.load.
  unfold bind at 1. rewrite Hthis.
  now rewrite (bind_returns _ _ _ _ _ (close_valid c i w Hc Hi)).
Qed.

Lemma copy_construct_valid (this other : addr) (o : Communicator) (i : CommInfo)
    (w : World) :
  this <> other ->
  communicator_objects w !! other = Some o ->
  Communicator.is_null o = false -> comms w !! comm o = Some i ->
  Communicator.copy_construct this other w
  = Returns tt
      (set_communicator_objects (insert this (mkCommunicator (fresh_handle (comms w))))
         (log (EvCommDup (comm o) (fresh_handle (comms w)))
            (set_comms
               (fun t =>
                  <[fresh_handle (comms w) :=
                      mkCommInfo (comm_context i ++ [comm_children i])
                                 (comm_size i) (comm_rank i) 0]>
                    (<[comm o := mkCommInfo (comm_context i) (comm_size i) (comm_rank i)
                                            (S (comm_children i))]> t))
               (set_communicator_objects (insert this Communicator.default) w)))).
Proof.
  intros Hne Hother Hnn Hi.
  unfold Communicator.copy_construct, Communicator.store at 1.
  unfold Communicator.load, bind at 1 2, modify.
  cbn [communicator_objects set_communicator_objects].
  rewrite lookup_insert_ne, Hother, Hnn by exact Hne. cbn [negb].
  now rewrite (bind_returns _ _ _ _ _
                 (MPI_Comm_dup_valid (comm o) i
                    (set_communicator_objects (insert this Communicator.default) w)
                    (is_null_false _ Hnn) Hi)).
Qed.

(** X9. A copy and its source do not depend on each other.  After copy
    construction from a Communicator with a valid group, destroying the
    copy leaves the source answering [size()] and [rank()] as before, and
    destroying the source instead leaves the copy answering them. *)
Theorem copy_and_source_are_independent
    (this other : addr) (o : Communicator) (i : CommInfo) (w : World) :
  this <> other ->
  communicator_objects w !! other = Some o ->
  Communicator.is_null o = false ->
  comms w !! comm o = Some i ->
  exists copy w1 w2 w3,
    Communicator.copy_construct this other w = Returns tt w1
    /\ communicator_objects w1 !! this = Some copy
    /\ Communicator.is_null copy = false /\ comm copy <> comm o
    /\ Communicator.destroy this w1 = Returns tt w2
    /\ communicator_objects w2 !! other = Some o
    /\ Communicator.size o w2 = Returns (comm_size i) (log (EvCommSize (comm o)) w2)
    /\ Communicator.rank o w2 = Returns (comm_rank i) (log (EvCommRank (comm o)) w2)
    /\ Communicator.destroy other w1 = Returns tt w3
    /\ communicator_objects w3 !! this = Some copy
    /\ Communicator.size copy w3
       = Returns (comm_size i) (log (EvCommSize (comm copy)) w3)
    /\ Communicator.rank copy w3
       = Returns (comm_rank i) (log (EvCommRank (comm copy)) w3).
Proof.
  intros Hne Hother Hnn Hi.
  pose proof (fresh_handle_not_null (comms w)) as Hh0.
  pose proof (fresh_handle_unused (comms w)) as Hfresh.
  assert (fresh_handle (comms w) <> comm o) as Hho by (intros E; congruence).
  assert (Communicator.is_null (mkCommunicator (fresh_handle (comms w))) = false) as Hcopy.
  { unfold Communicator.is_null. cbn. now apply Nat.eqb_neq. }
  exists (mkCommunicator (fresh_handle (comms w))). eexists. eexists. eexists.
  split; [now apply (copy_construct_valid this other o i)|].
  split; [cbn; apply lookup_insert_eq|].
  split; [exact Hcopy|]. split; [exact Hho|].
  split.
  { eapply (communicator_destroy_valid this (mkCommunicator (fresh_handle (comms w)))); [|exact Hcopy|].
    - cbn. apply lookup_insert_eq.
    - cbn. apply lookup_insert_eq. }
  split.
  { cbn. rewrite lookup_delete_ne, !lookup_insert_ne by congruence. exact Hother. }
  split.
  { apply (size_valid o (mkCommInfo (comm_context i) (comm_size i) (comm_rank i)
                                    (S (comm_children i)))); [exact Hnn|].
    cbn. rewrite lookup_delete_ne, lookup_insert_ne by congruence.
    apply lookup_insert_eq. }
  split.
  { apply (rank_valid o (mkCommInfo (comm_context i) (comm_size i) (comm_rank i)
                                    (S (comm_children i)))); [exact Hnn|].
    cbn. rewrite lookup_delete_ne, lookup_insert_ne by congruence.
    apply lookup_insert_eq. }
  split.
  { eapply (communicator_destroy_valid other o); [|exact Hnn|].
    - cbn. rewrite !lookup_insert_ne by congruence. exact Hother.
    - cbn. rewrite lookup_insert_ne by congruence. apply lookup_insert_eq. }
  split.
  { cbn. rewrite lookup_delete_ne by congruence. apply lookup_insert_eq. }
  split.
  { apply (size_valid (mkCommunicator (fresh_handle (comms w)))
             (mkCommInfo (comm_context i ++ [comm_children i])
                         (comm_size i) (comm_rank i) 0)); [exact Hcopy|].
    cbn. rewrite lookup_delete_ne by congruence. apply lookup_insert_eq. }
  apply (rank_valid (mkCommunicator (fresh_handle (comms w)))
           (mkCommInfo (comm_context i ++ [comm_children i])
                       (comm_size i) (comm_rank i) 0)); [exact Hcopy|].
  cbn. rewrite lookup_delete_ne by congruence. apply lookup_insert_eq.
Qed.

Lemma copy_and_source_are_independent_witness :
  exists copy w1 w2 w3,
    Communicator.copy_construct 12%nat 10%nat two_ranks_objects = Returns tt w1
    /\ communicator_objects w1 !! 12%nat = Some copy
    /\ Communicator.is_null copy = false /\ comm copy <> comm comm_of_rank0
    /\ Communicator.destroy 12%nat w1 = Returns tt w2
    /\ communicator_objects w2 !! 10%nat = Some comm_of_rank0
    /\ Communicator.size comm_of_rank0 w2 = Returns 2 (log (EvCommSize 1%nat) w2)
    /\ Communicator.rank comm_of_rank0 w2 = Returns 0 (log (EvCommRank 1%nat) w2)
    /\ Communicator.destroy 10%nat w1 = Returns tt w3
    /\ communicator_objects w3 !! 12%nat = Some copy
    /\ Communicator.size copy w3 = Returns 2 (log (EvCommSize (comm copy)) w3)
    /\ Communicator.rank copy w3 = Returns 0 (log (EvCommRank (comm copy)) w3).
Proof.
  exact (copy_and_source_are_independent 12%nat 10%nat comm_of_rank0
           (mkCommInfo [] 2 0 0) two_ranks_objects
           ltac:(congruence) eq_refl eq_refl eq_refl).
Defined.

(** X10. [close()] is idempotent.  It leaves a communicator that is null
    or holds a valid group in the null state, with the group released;
    [size()] is then 0 and [rank()] -1, and closing again makes no
    transport call. *)
Theorem close_is_idempotent (c : Communicator) (w : World) :
  Communicator.is_null c = true \/ is_Some (comms w !! comm c) ->
  exists c1 w1,
    Communicator.close c w = Returns c1 w1
    /\ Communicator.is_null c1 = true
    /\ (Communicator.is_null c = false -> comms w1 !! comm c = None)
    /\ Communicator.close c1 w1 = Returns c1 w1
    /\ Communicator.size c1 w1 = Returns 0 w1
    /\ Communicator.rank c1 w1 = Returns (-1) w1.
Proof.
  intros Hv. exists Communicator.default, (closed c w).
  split; [now apply close_run|]. split; [reflexivity|]. split.
  - intros Hc. unfold closed. rewrite Hc. cbn. apply lookup_delete_eq.
  - repeat split.
Qed.

Lemma close_is_idempotent_witness :
  exists c1 w1,
    Communicator.close comm_of_rank0 two_ranks = Returns c1 w1
    /\ Communicator.is_null c1 = true
    /\ (Communicator.is_null comm_of_rank0 = false
        -> comms w1 !! comm comm_of_rank0 = None)
    /\ Communicator.close c1 w1 = Returns c1 w1
    /\ Communicator.size c1 w1 = Returns 0 w1
    /\ Communicator.rank c1 w1 = Returns (-1) w1.
Proof.
  apply (close_is_idempotent comm_of_rank0 two_ranks). right. now eexists.
Defined.

(** X11. [comm_world()] duplicates the world communicator: the result is
    non-null, on a handle of its own, and answers [size()] and [rank()] as
    the world communicator does, which stays valid; when the world handle
    is not valid the call is a transport fault. *)
Theorem comm_world_duplicates (world bad : MPI_Comm) (i : CommInfo) (w : World) :
  world <> MPI_COMM_NULL ->
  comms w !! world = Some i ->
  comms w !! bad = None ->
  (exists c w',
      comm_world world w = Returns c w'
      /\ Communicator.is_null c = false
      /\ comm c <> world
      /\ Communicator.size c w' = Returns (comm_size i) (log (EvCommSize (comm c)) w')
      /\ Communicator.rank c w' = Returns (comm_rank i) (log (EvCommRank (comm c)) w')
      /\ MPI_Comm_size world w' = Returns (comm_size i) (log (EvCommSize world) w'))
  /\ comm_world bad w = Fault.
Proof.
  intros Hw Hi Hbad. split.
  - pose proof (fresh_handle_not_null (comms w)) as Hh0.
    pose proof (fresh_handle_unused (comms w)) as Hfresh.
    assert (fresh_handle (comms w) <> world) as Hne by (intros E; congruence).
    assert (Communicator.is_null (mkCommunicator (fresh_handle (comms w))) = false)
      as Hc.
    { unfold Communicator.is_null. cbn. now apply Nat.eqb_neq. }
    exists (mkCommunicator (fresh_handle (comms w))). eexists.
    split.
    { unfold comm_world.
      now rewrite (bind_returns _ _ _ _ _ (MPI_Comm_dup_valid world i w Hw Hi)). }
    split; [exact Hc|]. split; [exact Hne|]. split.
    { apply (size_valid _ (mkCommInfo (comm_context i ++ [comm_children i])
                                      (comm_size i) (comm_rank i) 0)); [exact Hc|].
      cbn. apply lookup_insert_eq. }
    split.
    { apply (rank_valid _ (mkCommInfo (comm_context i ++ [comm_children i])
                                      (comm_size i) (comm_rank i) 0)); [exact Hc|].
      cbn. apply lookup_insert_eq. }
    match goal with
    | |- MPI_Comm_size world ?w' = _ =>
        assert (comms w' !! world
                = Some (mkCommInfo (comm_context i) (comm_size i) (comm_rank i)
                                   (S (comm_children i)))) as Hworld
    end.
    { cbn. rewrite lookup_insert_ne by exact Hne. apply lookup_insert_eq. }
    unfold MPI_Comm_size.
    rewrite (bind_returns _ _ _ _ _ (lookup_comm_valid world _ _ Hw Hworld)).
    reflexivity.
  - unfold comm_world, MPI_Comm_dup, bind, lookup_comm.
    destruct (Nat.eqb bad MPI_COMM_NULL); [reflexivity|]. now rewrite Hbad.
Qed.

Lemma comm_world_duplicates_witness :
  (exists c w',
      comm_world 1%nat two_ranks = Returns c w'
      /\ Communicator.is_null c = false
      /\ comm c <> 1%nat
      /\ Communicator.size c w' = Returns 2 (log (EvCommSize (comm c)) w')
      /\ Communicator.rank c w' = Returns 0 (log (EvCommRank (comm c)) w')
      /\ MPI_Comm_size 1%nat w' = Returns 2 (log (EvCommSize 1%nat) w'))
  /\ comm_world 9%nat two_ranks = Fault.
Proof.
  exact (comm_world_duplicates 1%nat 9%nat (mkCommInfo [] 2 0 0) two_ranks
           ltac:(discriminate) eq_refl eq_refl).
Defined.

(** ** All-gather *)

Lemma length_ranks (n : Z) : length (ranks n) = Z.to_nat n.
Proof. unfold ranks. now rewrite length_fmap, length_seq. Qed.

Lemma ranks_succ (k : nat) :
  ranks (Z.of_nat (S k)) = ranks (Z.of_nat k) ++ [Z.of_nat k].
Proof. unfold ranks. rewrite !Nat2Z.id, seq_S, fmap_app. reflexivity. Qed.

Lemma MPI_Allgather_agree (peers : Z -> bytes * Z) (sendbuf recvbuf : bytes) (k : Z)
    (c : MPI_Comm) (i : CommInfo) (w : World) :
  c <> MPI_COMM_NULL -> comms w !! c = Some i ->
  0 <= k ->
  Z.of_nat (length recvbuf) = comm_size i * k ->
  (forall j, 0 <= j < comm_size i ->
     contributed_count peers (comm_rank i) k j = k
     /\ Z.of_nat (length (contribution peers (comm_rank i) sendbuf j)) = k) ->
  MPI_Allgather peers sendbuf k recvbuf k c w
  = Returns
      (concat (contribution peers (comm_rank i) sendbuf <$> ranks (comm_size i)))
      (log (EvAllgather k k c) w).
Proof.
  intros Hc Hi Hk Hr Hent.
  unfold MPI_Allgather. rewrite (bind_returns _ _ _ _ _ (lookup_comm_valid c i w Hc Hi)).
  cbn zeta.
  destruct (Z.ltb_spec k 0); [lia|]. cbn [orb].
  rewrite forallb_ranks; cycle 1.
  { intros j Hj. destruct (Hent j Hj) as [-> ->]. apply Z.leb_refl. }
  cbn [negb].
  destruct (Z.ltb_spec (Z.of_nat (length recvbuf)) (comm_size i * k)); [lia|].
  rewrite forallb_ranks; cycle 1.
  { intros j Hj. destruct (Hent j Hj) as [-> _]. apply Z.eqb_refl. }
  cbn [negb]. unfold bind, modify, ret.
  assert ((fun j => take (Z.to_nat k) (contribution peers (comm_rank i) sendbuf j))
            <$> ranks (comm_size i)
          = contribution peers (comm_rank i) sendbuf <$> ranks (comm_size i)) as ->.
  { apply list_fmap_ext. intros n j Hj%list_elem_of_lookup_2%in_ranks.
    apply take_ge. destruct (Hent j Hj) as [_ Hl]. lia. }
  rewrite overwrite_same_length; [reflexivity|].
  rewrite (length_concat_blocks (Z.to_nat k)).
  - rewrite length_fmap, length_ranks. nia.
  - apply Forall_fmap, Forall_forall. intros j Hj%in_ranks. cbn.
    destruct (Hent j Hj) as [_ Hl]. lia.
Qed.

Lemma vector_of_vector_bytes {T} `{TriviallyCopyable T} (v : list T) (rest : bytes) :
  vector_of_bytes (length v) (vector_bytes v ++ rest) = v.
Proof.
  induction v as [|x v IH]; [reflexivity|].
  change (vector_bytes (x :: v)) with (object_bytes x ++ vector_bytes v).
  cbn [length vector_of_bytes]. rewrite <- app_assoc.
  rewrite take_app_length', drop_app_length' by (symmetry; apply object_bytes_length).
  now rewrite from_object_bytes, IH.
Qed.

Section GatherValue.
Context (T : Type) `{TriviallyCopyable T}.
Context (peers : Z -> bytes * Z) (c : Communicator) (i : CommInfo) (w : World).
Hypothesis Hc : Communicator.is_null c = false.
Hypothesis Hi : comms w !! comm c = Some i.
Hypothesis Hme : 0 <= comm_rank i < comm_size i.
Hypothesis Hn : comm_size i < 2 ^ 31.
Hypothesis Hfit : comm_size i * Z.of_nat (sizeof T) <= 2 ^ 63 - 1.

Lemma all_gather_T_run (vals : Z -> T) :
  (forall j, 0 <= j < comm_size i -> j <> comm_rank i ->
     peers j = (object_bytes (vals j), Z.of_nat (sizeof T))) ->
  Communicator.all_gather_T T peers c (vals (comm_rank i)) w
  = Returns (vals <$> ranks (comm_size i))
      (log (EvAllgather (Z.of_nat (sizeof T)) (Z.of_nat (sizeof T)) (comm c))
         (log (EvCommSize (comm c)) w)).
Proof.
  intros Hp. unfold Communicator.all_gather_T.
  rewrite (bind_returns _ _ _ _ _ (size_valid c i w Hc Hi)).
  rewrite to_size_t_small by lia.
  unfold vector_fill at 1.
  destruct (Z.ltb_spec (2 ^ 63 - 1) (comm_size i * Z.of_nat (sizeof T))); [lia|].
  unfold bind at 1. unfold ret at 1.
  destruct (Z.to_nat (comm_size i)) as [|m] eqn:Hm; [lia|].
  rewrite <- Hm. clear m Hm.
  assert (first_element (replicate (Z.to_nat (comm_size i)) (value_init T))
            (log (EvCommSize (comm c)) w)
          = Returns tt (log (EvCommSize (comm c)) w)) as Hfirst.
  { destruct (Z.to_nat (comm_size i)) eqn:E; [lia|reflexivity]. }
  unfold bind at 1. rewrite Hfirst.
  assert (forall j, 0 <= j < comm_size i ->
            contribution peers (comm_rank i) (object_bytes (vals (comm_rank i))) j
            = object_bytes (vals j)
            /\ contributed_count peers (comm_rank i) (Z.of_nat (sizeof T)) j
               = Z.of_nat (sizeof T)) as Hent.
  { intros j Hj. unfold contribution, contributed_count.
    destruct (Z.eqb_spec j (comm_rank i)) as [->|Hne]; [auto|].
    now rewrite (Hp j Hj Hne). }
  pose proof (MPI_Allgather_agree peers (object_bytes (vals (comm_rank i)))
                (vector_bytes (replicate (Z.to_nat (comm_size i)) (value_init T)))
                (Z.of_nat (sizeof T)) (comm c) i (log (EvCommSize (comm c)) w)
                (is_null_false _ Hc) Hi) as Hrun.
  rewrite (bind_returns _ _ _ _ _ (Hrun ltac:(lia)
             ltac:(rewrite length_vector_bytes, length_replicate; nia)
             ltac:(intros j Hj; destruct (Hent j Hj) as [-> ->];
                   now rewrite object_bytes_length))).
  clear Hrun.
  unfold ret. f_equal.
  assert (contribution peers (comm_rank i) (object_bytes (vals (comm_rank i)))
            <$> ranks (comm_size i)
          = object_bytes <$> (vals <$> ranks (comm_size i))) as ->.
  { rewrite <- list_fmap_compose. apply list_fmap_ext.
    intros n j Hj%list_elem_of_lookup_2%in_ranks. now destruct (Hent j Hj). }
  rewrite length_replicate.
  replace (Z.to_nat (comm_size i)) with (length (vals <$> ranks (comm_size i)))
    by now rewrite length_fmap, length_ranks.
  rewrite <- (app_nil_r (concat _)). apply vector_of_vector_bytes.
Qed.

End GatherValue.

(** X12. [all_gather(value)] collects one value of every rank.  On a valid
    communicator of [n] ranks whose other ranks enter the collective with a
    value of the same type, the result has [n] elements and element [j] is
    the value rank [j] passed; this rank's own value is at its own rank. *)
Theorem all_gather_collects
    (T : Type) `{TriviallyCopyable T}
    (peers : Z -> bytes * Z) (vals : Z -> T)
    (c : Communicator) (i : CommInfo) (w : World) :
  Communicator.is_null c = false ->
  comms w !! comm c = Some i ->
  0 <= comm_rank i < comm_size i ->
  comm_size i < 2 ^ 31 ->
  comm_size i * Z.of_nat (sizeof T) <= 2 ^ 63 - 1 ->
  (forall j, 0 <= j < comm_size i -> j <> comm_rank i ->
     peers j = (object_bytes (vals j), Z.of_nat (sizeof T))) ->
  exists res w',
    Communicator.all_gather_T T peers c (vals (comm_rank i)) w = Returns res w'
    /\ Z.of_nat (length res) = comm_size i
    /\ forall j, 0 <= j < comm_size i -> res !! Z.to_nat j = Some (vals j).
Proof.
  intros Hc Hi Hme Hn Hfit Hp. eexists. eexists.
  split; [now apply all_gather_T_run|]. split.
  - rewrite length_fmap, length_ranks. lia.
  - intros j Hj. now rewrite list_lookup_fmap, lookup_ranks.
Qed.

Lemma all_gather_collects_witness :
  exists res w',
    Communicator.all_gather_T int
      (fun _ => (int_bytes (int_of_Z 7), 4)) comm_of_rank0 (int_of_Z 7) two_ranks
    = Returns res w'
    /\ Z.of_nat (length res) = 2
    /\ forall j, 0 <= j < 2 -> res !! Z.to_nat j = Some (int_of_Z 7).
Proof.
  apply (all_gather_collects int (fun _ => (int_bytes (int_of_Z 7), 4))
           (fun _ => int_of_Z 7) comm_of_rank0 (mkCommInfo [] 2 0 0) two_ranks).
  - reflexivity.
  - reflexivity.
  - cbn; lia.
  - cbn; lia.
  - vm_compute; discriminate.
  - reflexivity.
Defined.

Lemma take_ranks (j n : nat) :
  (j <= n)%nat -> take j (ranks (Z.of_nat n)) = ranks (Z.of_nat j).
Proof.
  intros Hj. unfold ranks. rewrite <- fmap_take, take_seq, !Nat2Z.id.
  now rewrite Nat.min_l.
Qed.

Lemma int_of_Z_small (z : Z) : 0 <= z < 2 ^ 31 -> proj1_sig (int_of_Z z) = z.
Proof. intros Hz. cbn. now apply to_signed_small. Qed.

Lemma displacements_cons (count : int) (rest : list int) (last : Z) :
  Communicator.displacements (count :: rest) last
  = (int_of_Z last :: fst (Communicator.displacements rest (to_size_t (last + `count))),
     snd (Communicator.displacements rest (to_size_t (last + `count)))).
Proof. reflexivity. Qed.

Lemma displacements_prefix {A} (vs : list (list A)) (last : nat) :
  Z.of_nat (last + length (concat vs)) < 2 ^ 31 ->
  snd (Communicator.displacements ((fun v => int_of_Z (Z.of_nat (length v))) <$> vs) (Z.of_nat last))
  = Z.of_nat (last + length (concat vs))
  /\ forall j, (j < length vs)%nat ->
       (proj1_sig <$> fst (Communicator.displacements
                            ((fun v => int_of_Z (Z.of_nat (length v))) <$> vs)
                            (Z.of_nat last))) !! j
       = Some (Z.of_nat (last + length (concat (take j vs)))).
Proof.
  revert last. induction vs as [|v vs IH]; intros last Hsum.
  - split; [cbn; f_equal; lia|]. intros j Hj. cbn in Hj. lia.
  - cbn [concat] in Hsum. rewrite length_app in Hsum.
    rewrite fmap_cons, displacements_cons, int_of_Z_small by lia.
    rewrite to_size_t_small by lia. rewrite <- Nat2Z.inj_add.
    destruct (IH (last + length v)%nat) as [Hsnd Hfst]; [lia|].
    cbn [fst snd]. split.
    + rewrite Hsnd. cbn [concat]. rewrite length_app. f_equal. lia.
    + intros [|j] Hj.
      * rewrite fmap_cons. cbn [lookup list_lookup]. rewrite int_of_Z_small by lia.
        cbn. f_equal. lia.
      * rewrite fmap_cons. cbn [lookup list_lookup] in *. cbn [length] in Hj.
        rewrite Hfst by lia. cbn [take concat]. rewrite length_app. f_equal. lia.
Qed.

Lemma gather_writes (off : Z -> nat) (data : Z -> bytes) (recvbuf : bytes) (n : nat) :
  (forall k, (k < n)%nat ->
     off (Z.of_nat k) = length (concat (data <$> ranks (Z.of_nat k)))) ->
  foldl (fun buf j => write_at (off j) (data j) buf) recvbuf (ranks (Z.of_nat n))
  = concat (data <$> ranks (Z.of_nat n))
    ++ drop (length (concat (data <$> ranks (Z.of_nat n)))) recvbuf.
Proof.
  induction n as [|n IH]; intros Hoff.
  - cbn. now rewrite drop_0.
  - rewrite ranks_succ, foldl_app, IH by (intros k Hk; apply Hoff; lia).
    cbn [foldl]. unfold write_at. rewrite (Hoff n) by lia.
    rewrite fmap_app, concat_app. cbn [fmap list_fmap concat]. rewrite app_nil_r.
    rewrite take_app_length, length_app.
    rewrite drop_app_add, drop_drop. rewrite <- app_assoc. reflexivity.
Qed.

Lemma concat_eq_by_lengths {A} (xs ys : list (list A)) :
  length <$> xs = length <$> ys -> concat xs = concat ys -> xs = ys.
Proof.
  revert ys. induction xs as [|x xs IH]; intros [|y ys] Hl Hc; try discriminate;
    [reflexivity|].
  cbn in Hl, Hc. injection Hl as Hxy Hl.
  apply app_inj_1 in Hc as [-> Hc]; [|exact Hxy]. f_equal. now apply IH.
Qed.

Section GatherVector.
Context (T : Type) `{TriviallyCopyable T}.

Lemma fill_rows_run (rows : nat) :
  forall (i : nat) (rc : list int) (recv : list T) (w : World),
  Forall (fun x : int => 0 <= `x) rc ->
  rows = length (drop i rc) ->
  (sum_list ((fun x : int => Z.to_nat (`x)) <$> drop i rc) <= length recv)%nat ->
  exists res,
    Communicator.fill_rows T rows i rc recv w = Returns res w
    /\ length <$> res = (fun x : int => Z.to_nat (`x)) <$> drop i rc
    /\ concat res = take (sum_list ((fun x : int => Z.to_nat (`x)) <$> drop i rc)) recv.
Proof.
  induction rows as [|rows IH]; intros i rc recv w Hpos Hrows Hlen.
  - symmetry in Hrows. apply nil_length_inv in Hrows. rewrite Hrows.
    exists []. cbn. split; [reflexivity|]. split; [reflexivity|]. now rewrite take_0.
  - cbn [Communicator.fill_rows].
    destruct (_ !! _) as [x|] eqn:Hx in |- *; unfold int, dsig in *; cycle 1.
    { exfalso. apply lookup_ge_None in Hx. rewrite length_drop in Hrows. lia. }
    rewrite (drop_S _ _ _ Hx) in Hrows, Hlen |- *.
    cbn [length fmap list_fmap sum_list sum_list_with] in Hrows, Hlen |- *.
    assert (0 <= `x) as Hx0 by exact (Forall_lookup_1 _ _ _ _ Hpos Hx).
    unfold sum_list, id in *.
    destruct (Z.ltb_spec (`x) 0); [exfalso; lia|].
    destruct (Z.ltb_spec (Z.of_nat (length recv)) (`x)); [exfalso; lia|].
    destruct (IH (S i) rc (drop (Z.to_nat (`x)) recv) w Hpos) as (rest & Hrun & Hl & Hcat).
    { lia. }
    { rewrite length_drop. lia. }
    rewrite (bind_returns _ _ _ _ _ Hrun). eexists. split; [reflexivity|]. split.
    + cbn. rewrite Hl, length_take. f_equal. lia.
    + cbn. rewrite Hcat. apply take_take_drop.
Qed.

End GatherVector.

Lemma length_in_concat {A} (vs : list (list A)) (v : list A) :
  v ∈ vs -> (length v <= length (concat vs))%nat.
Proof.
  induction 1 as [v vs|v u vs _ IH]; cbn; rewrite length_app; lia.
Qed.

Lemma length_concat_take {A} (vs : list (list A)) (k : nat) :
  (length (concat (take k vs)) <= length (concat vs))%nat.
Proof.
  rewrite <- (take_drop k vs) at 2. rewrite concat_app, length_app. lia.
Qed.

Lemma length_displacements (recvcounts : list int) (last : Z) :
  length (fst (Communicator.displacements recvcounts last)) = length recvcounts.
Proof.
  revert last. induction recvcounts as [|x l IH]; intros last; [reflexivity|].
  cbn. now rewrite IH.
Qed.

Lemma length_concat_sum {A} (vs : list (list A)) :
  length (concat vs) = sum_list (length <$> vs).
Proof.
  induction vs as [|v vs IH]; [reflexivity|].
  cbn. rewrite length_app, IH. reflexivity.
Qed.

Lemma length_vector_of_bytes {T} `{TriviallyCopyable T} (n : nat) (b : bytes) :
  length (vector_of_bytes n b) = n.
Proof.
  revert b. induction n as [|n IH]; intros b; [reflexivity|].
  cbn. now rewrite IH.
Qed.

Lemma MPI_Allgatherv_agree (peers : Z -> bytes * Z) (sendbuf recvbuf : bytes)
    (sendcount : Z) (recvcounts displs : list Z)
    (c : MPI_Comm) (i : CommInfo) (w : World) :
  c <> MPI_COMM_NULL -> comms w !! c = Some i ->
  Z.of_nat (length recvcounts) = comm_size i ->
  Z.of_nat (length displs) = comm_size i ->
  0 <= sendcount ->
  (forall j, 0 <= j < comm_size i ->
     0 <= nth (Z.to_nat j) recvcounts 0
     /\ 0 <= nth (Z.to_nat j) displs 0
     /\ contributed_count peers (comm_rank i) sendcount j = nth (Z.to_nat j) recvcounts 0
     /\ nth (Z.to_nat j) recvcounts 0
        <= Z.of_nat (length (contribution peers (comm_rank i) sendbuf j))
     /\ nth (Z.to_nat j) displs 0 + nth (Z.to_nat j) recvcounts 0
        <= Z.of_nat (length recvbuf)) ->
  MPI_Allgatherv peers sendbuf sendcount recvbuf recvcounts displs c w
  = Returns
      (foldl (fun buf j =>
                write_at (Z.to_nat (nth (Z.to_nat j) displs 0))
                  (take (Z.to_nat (nth (Z.to_nat j) recvcounts 0))
                        (contribution peers (comm_rank i) sendbuf j)) buf)
             recvbuf (ranks (comm_size i)))
      (log (EvAllgatherv sendcount recvcounts displs c) w).
Proof.
  intros Hc Hi Hrc Hds Hs Hent.
  unfold MPI_Allgatherv.
  rewrite (bind_returns _ _ _ _ _ (lookup_comm_valid c i w Hc Hi)). cbv zeta.
  destruct (Z.ltb_spec (Z.of_nat (length recvcounts)) (comm_size i)); [lia|].
  destruct (Z.ltb_spec (Z.of_nat (length displs)) (comm_size i)); [lia|].
  cbn [orb].
  destruct (Z.ltb_spec sendcount 0); [lia|].
  rewrite forallb_ranks; cycle 1.
  { intros j Hj. destruct (Hent j Hj) as (Ha & Hb & _).
    apply andb_true_intro. split; apply Z.leb_le; assumption. }
  cbn [negb].
  rewrite forallb_ranks; cycle 1.
  { intros j Hj. destruct (Hent j Hj) as (_ & _ & Hcnt & Hle & _).
    apply Z.leb_le. now rewrite Hcnt. }
  cbn [negb].
  rewrite forallb_ranks; cycle 1.
  { intros j Hj. destruct (Hent j Hj) as (_ & _ & _ & _ & Hfits). now apply Z.leb_le. }
  cbn [negb].
  rewrite forallb_ranks; cycle 1.
  { intros j Hj. destruct (Hent j Hj) as (_ & _ & Hcnt & _). now apply Z.eqb_eq. }
  cbn [negb]. reflexivity.
Qed.

Section GatherVectorRun.
Context (T : Type) `{TriviallyCopyable T}.
Context (peers_counts peers_values : Z -> bytes * Z) (vec : Z -> list T)
        (c : Communicator) (i : CommInfo) (w : World).
Hypothesis Hc : Communicator.is_null c = false.
Hypothesis Hi : comms w !! comm c = Some i.
Hypothesis Hme : 0 <= comm_rank i < comm_size i.
Hypothesis Hn : comm_size i < 2 ^ 31.

Let n := comm_size i.
Let me := comm_rank i.
Let vs := vec <$> ranks n.
Let total := length (concat vs).
Let count_of (j : Z) : int := int_of_Z (Z.of_nat (length (vec j))).

Hypothesis Htotal : Z.of_nat total < 2 ^ 31.
Hypothesis Hfit : Z.of_nat total * Z.of_nat (sizeof T) <= 2 ^ 63 - 1.
Hypothesis Hcounts : forall j, 0 <= j < n -> j <> me ->
  peers_counts j = (object_bytes (count_of j), Z.of_nat (sizeof int)).
Hypothesis Hvalues : forall j, 0 <= j < n -> j <> me ->
  peers_values j = (vector_bytes (vec j), Z.of_nat (length (vec j))).

Let w2 := log (EvAllgather (Z.of_nat (sizeof int)) (Z.of_nat (sizeof int)) (comm c))
            (log (EvCommSize (comm c)) w).

Lemma length_vec (j : Z) : 0 <= j < n -> (length (vec j) <= total)%nat.
Proof.
  intros Hj. apply length_in_concat. unfold vs.
  apply list_elem_of_fmap. exists j. split; [reflexivity|]. now apply in_ranks.
Qed.

Lemma count_of_value (j : Z) : 0 <= j < n -> proj1_sig (count_of j) = Z.of_nat (length (vec j)).
Proof.
  intros Hj. unfold count_of. apply int_of_Z_small.
  pose proof (length_vec j Hj). lia.
Qed.

Lemma gather_counts :
  Communicator.all_gather_T int peers_counts c
    (int_of_Z (Z.of_nat (length (vec me)))) w
  = Returns ((fun v => int_of_Z (Z.of_nat (length v))) <$> vs) w2.
Proof.
  unfold vs. rewrite <- list_fmap_compose.
  assert (comm_size i * Z.of_nat (sizeof int) <= 2 ^ 63 - 1) as Hfit4
    by (change (Z.of_nat (sizeof int)) with 4; lia).
  exact (all_gather_T_run int peers_counts c i w Hc Hi Hme Hn Hfit4 count_of Hcounts).
Qed.

Lemma prefix_step (k : nat) :
  (k < Z.to_nat n)%nat ->
  length (concat (take (S k) vs))
  = (length (concat (take k vs)) + length (vec (Z.of_nat k)))%nat.
Proof.
  intros Hk.
  assert (vs !! k = Some (vec (Z.of_nat k))) as Hv.
  { unfold vs. rewrite list_lookup_fmap.
    replace k with (Z.to_nat (Z.of_nat k)) at 1 by lia.
    rewrite lookup_ranks by lia. reflexivity. }
  rewrite (take_S_r _ _ _ Hv), concat_app, length_app. cbn [concat].
  now rewrite app_nil_r.
Qed.

Let data (j : Z) : bytes := take (length (vec j)) (vector_bytes (vec j)).
Let gathered : bytes := concat (data <$> ranks n).

Lemma length_data (j : Z) : length (data j) = length (vec j).
Proof.
  unfold data. rewrite length_take, length_vector_bytes. apply Nat.min_l.
  pose proof (sizeof_pos (T := T)). nia.
Qed.

Lemma length_gathered_prefix (k : nat) :
  (k <= Z.to_nat n)%nat ->
  length (concat (data <$> ranks (Z.of_nat k))) = length (concat (take k vs)).
Proof.
  induction k as [|k IH]; intros Hk; [reflexivity|].
  rewrite ranks_succ, fmap_app, concat_app, length_app, IH by lia.
  rewrite prefix_step by lia. cbn [concat fmap list_fmap].
  now rewrite app_nil_r, length_data.
Qed.

Lemma all_gather_vector_run :
  vec me <> [] ->
  exists rows w',
    Communicator.all_gather_vector_T T peers_counts peers_values c (vec me) w
    = Returns rows w'
    /\ length <$> rows = length <$> vs
    /\ concat rows
       = vector_of_bytes total
           (gathered ++ drop total (vector_bytes (replicate total (value_init T)))).
Proof.
  intros Hown.
  unfold Communicator.all_gather_vector_T.
  rewrite (bind_returns _ _ _ _ _ gather_counts). cbv zeta.
  destruct (displacements_prefix vs 0) as [Hsnd Hfst]; [fold total; lia|].
  change (Z.of_nat 0) with 0 in Hsnd, Hfst. cbn [Nat.add] in Hsnd, Hfst.
  fold total in Hsnd. rewrite Hsnd.
  unfold vector_fill at 1.
  destruct (Z.ltb_spec (2 ^ 63 - 1) (Z.of_nat total * Z.of_nat (sizeof T))); [lia|].
  unfold bind at 1. unfold ret at 1. rewrite Nat2Z.id.
  pose proof (length_vec me Hme) as Hlme.
  assert (length vs = Z.to_nat n) as Hlvs by (unfold vs; now rewrite length_fmap, length_ranks).
  assert (forall A (l : list A) (u : World), l <> [] -> first_element l u = Returns tt u)
    as Hfirst by (intros A [|x l] u Hl; [contradiction|reflexivity]).
  unfold bind at 1. rewrite Hfirst by exact Hown.
  unfold bind at 1. rewrite Hfirst; cycle 1.
  { destruct (vec me); [contradiction|]. cbn in Hlme.
    destruct total; [lia|discriminate]. }
  unfold bind at 1. rewrite Hfirst; cycle 1.
  { intros E%(f_equal length). rewrite length_fmap, Hlvs in E. cbn in E. lia. }
  unfold bind at 1. rewrite Hfirst; cycle 1.
  { specialize (Hfst 0%nat ltac:(lia)). intros E. rewrite E in Hfst. discriminate. }
  assert (comms w2 !! comm c = Some i) as Hi2 by exact Hi.
  assert (forall v, v ∈ vs ->
            proj1_sig (int_of_Z (Z.of_nat (length v))) = Z.of_nat (length v)) as Hsmall.
  { intros v Hv. apply int_of_Z_small.
    pose proof (length_in_concat vs v Hv). fold total in H1. lia. }
  set (rcs := (fun v : list T => int_of_Z (Z.of_nat (length v))) <$> vs) in *.
  set (dss := proj1_sig <$> fst (Communicator.displacements rcs 0)) in *.
  assert (forall j, 0 <= j < n ->
            nth (Z.to_nat j) (proj1_sig <$> rcs) 0 = Z.of_nat (length (vec j))) as Hrc.
  { intros j Hj. rewrite nth_lookup. unfold rcs, vs.
    rewrite !list_lookup_fmap, lookup_ranks by exact Hj. cbn.
    now apply count_of_value. }
  assert (forall j, 0 <= j < n ->
            nth (Z.to_nat j) dss 0
            = Z.of_nat (length (concat (take (Z.to_nat j) vs)))) as Hds.
  { intros j Hj. rewrite nth_lookup, Hfst by lia. reflexivity. }
  assert (forall j, 0 <= j < n ->
            contribution peers_values me (vector_bytes (vec me)) j = vector_bytes (vec j)
            /\ contributed_count peers_values me
                 (to_signed (Z.of_nat (length (vec me)))) j
               = Z.of_nat (length (vec j))) as Hent.
  { intros j Hj. unfold contribution, contributed_count.
    destruct (Z.eqb_spec j me) as [->|Hne].
    - split; [reflexivity|]. apply to_signed_small. lia.
    - now rewrite (Hvalues j Hj Hne). }
  pose proof (sizeof_pos (T := T)) as Hpos.
  opose proof* (MPI_Allgatherv_agree peers_values (vector_bytes (vec me))
                  (vector_bytes (replicate total (value_init T)))
                  (to_signed (Z.of_nat (length (vec me)))) (proj1_sig <$> rcs) dss
                  (comm c) i w2 (is_null_false _ Hc) Hi2) as Hrun.
  { unfold rcs. rewrite !length_fmap, Hlvs. fold n. lia. }
  { unfold dss, rcs. rewrite length_fmap, length_displacements, length_fmap, Hlvs.
    fold n. lia. }
  { rewrite to_signed_small; lia. }
  { intros j Hj. fold me.
    pose proof (Hrc j Hj) as Hrcj. pose proof (Hds j Hj) as Hdsj.
    destruct (Hent j Hj) as [Hbuf Hcnt].
    pose proof (length_concat_take vs (S (Z.to_nat j))) as Hle.
    rewrite prefix_step in Hle by lia.
    rewrite Z2Nat.id in Hle by lia. fold total in Hle.
    rewrite Hbuf, Hcnt, !length_vector_bytes, length_replicate.
    unfold int in *. rewrite Hrcj, Hdsj.
    repeat split; nia. }
  rewrite (bind_returns _ _ _ _ _ Hrun). clear Hrun.
  rewrite (bind_returns _ _ _ _ _
             (size_valid c i (log (EvAllgatherv _ _ _ _) w2) Hc Hi2)).
  rewrite to_size_t_small by lia.
  set (off := fun j : Z => Z.to_nat (nth (Z.to_nat j) dss 0)).
  set (sent := fun j : Z =>
                 take (Z.to_nat (nth (Z.to_nat j) (proj1_sig <$> rcs) 0))
                      (contribution peers_values (comm_rank i)
                                    (vector_bytes (vec me)) j)).
  assert (forall k, (k <= Z.to_nat n)%nat ->
            sent <$> ranks (Z.of_nat k) = data <$> ranks (Z.of_nat k)) as Hsent.
  { intros k Hk. apply list_fmap_ext.
    intros ? j Hj%list_elem_of_lookup_2%in_ranks. unfold sent, data.
    rewrite Hrc by lia. destruct (Hent j ltac:(lia)) as [Hbuf _].
    fold me. rewrite Hbuf. now rewrite Nat2Z.id. }
  assert (length gathered = total) as Hgathered.
  { unfold gathered. replace n with (Z.of_nat (Z.to_nat n)) by lia.
    rewrite length_gathered_prefix by lia.
    rewrite take_ge by lia. reflexivity. }
  assert (foldl (fun buf j => write_at (off j) (sent j) buf)
                (vector_bytes (replicate total (value_init T))) (ranks (comm_size i))
          = gathered ++ drop total (vector_bytes (replicate total (value_init T))))
    as Hb.
  { fold n. replace n with (Z.of_nat (Z.to_nat n)) at 1 by lia.
    rewrite gather_writes.
    - rewrite Hsent by lia. replace (Z.of_nat (Z.to_nat n)) with n by lia.
      fold gathered. now rewrite Hgathered.
    - intros k Hk. rewrite Hsent, length_gathered_prefix by lia.
      unfold off. rewrite Hds by lia. now rewrite !Nat2Z.id. }
  unfold off, sent in Hb. rewrite Hb, length_replicate. clear Hb Hsent off sent.
  assert ((fun x : int => Z.to_nat (`x)) <$> rcs = length <$> vs) as Hlens.
  { unfold rcs. rewrite <- list_fmap_compose. apply list_fmap_ext.
    intros ? v Hv%list_elem_of_lookup_2. cbn [compose].
    rewrite (Hsmall v Hv). apply Nat2Z.id. }
  destruct (fill_rows_run T (Z.to_nat (comm_size i)) 0 rcs
              (vector_of_bytes total
                 (gathered ++ drop total (vector_bytes (replicate total (value_init T)))))
              (log (EvCommSize (comm c))
                 (log (EvAllgatherv (to_signed (Z.of_nat (length (vec me))))
                         (proj1_sig <$> rcs) dss (comm c)) w2)))
    as (rows & Hrows & Hshape & Hcat).
  { apply Forall_forall. intros x Hx. unfold rcs in Hx.
    apply list_elem_of_fmap in Hx as (v & -> & Hv). rewrite (Hsmall v Hv). lia. }
  { rewrite drop_0. unfold rcs. rewrite length_fmap, Hlvs. reflexivity. }
  { rewrite drop_0, Hlens, <- length_concat_sum, length_vector_of_bytes. fold total. lia. }
  rewrite drop_0 in Hshape, Hcat. rewrite Hlens in Hshape, Hcat.
  exists rows. eexists. split; [exact Hrows|]. split; [exact Hshape|].
  rewrite Hcat, <- length_concat_sum. fold total.
  apply take_ge. rewrite length_vector_of_bytes. lia.
Qed.

End GatherVectorRun.


Lemma vector_bytes_concat {T} `{TriviallyCopyable T} (vs : list (list T)) :
  vector_bytes (concat vs) = concat (vector_bytes <$> vs).
Proof.
  induction vs as [|v vs IH]; [reflexivity|].
  cbn [concat fmap list_fmap]. rewrite <- IH. unfold vector_bytes.
  now rewrite fmap_app, concat_app.
Qed.

Lemma lookup_vector_of_bytes {T} `{TriviallyCopyable T} (n k : nat) (b : bytes) :
  (k < n)%nat ->
  vector_of_bytes n b !! k = Some (from_bytes (take (sizeof T) (drop (k * sizeof T) b))).
Proof.
  revert k b. induction n as [|n IH]; intros k b Hk; [lia|].
  destruct k as [|k]; cbn [vector_of_bytes lookup list_lookup].
  - now rewrite drop_0.
  - rewrite IH by lia. now rewrite drop_drop.
Qed.

(** X13. For a rank that passes a non-empty vector, [all_gather(values)]
    returns one row per rank, and row [j] has as many elements as rank [j]
    passed.  The calls count in elements but transfer [MPI_CHAR]s: of the
    [n_j] elements of rank [j] only the first [n_j] bytes arrive, packed
    from the start of the receive buffer, and the rest of that buffer keeps
    its value-initialised elements; the rows are cut from that buffer. *)
Theorem all_gather_vector_shape
    (T : Type) `{TriviallyCopyable T}
    (peers_counts peers_values : Z -> bytes * Z) (vec : Z -> list T)
    (c : Communicator) (i : CommInfo) (w : World) :
  Communicator.is_null c = false ->
  comms w !! comm c = Some i ->
  0 <= comm_rank i < comm_size i ->
  comm_size i < 2 ^ 31 ->
  let n := comm_size i in
  let total := length (concat (vec <$> ranks n)) in
  Z.of_nat total < 2 ^ 31 ->
  Z.of_nat total * Z.of_nat (sizeof T) <= 2 ^ 63 - 1 ->
  (forall j, 0 <= j < n -> j <> comm_rank i ->
     peers_counts j
     = (object_bytes (int_of_Z (Z.of_nat (length (vec j)))), Z.of_nat (sizeof int))) ->
  (forall j, 0 <= j < n -> j <> comm_rank i ->
     peers_values j = (vector_bytes (vec j), Z.of_nat (length (vec j)))) ->
  vec (comm_rank i) <> [] ->
  exists rows w',
    Communicator.all_gather_vector_T T peers_counts peers_values c
      (vec (comm_rank i)) w
    = Returns rows w'
    /\ Z.of_nat (length rows) = n
    /\ (forall j, 0 <= j < n ->
          length <$> rows !! Z.to_nat j = Some (length (vec j)))
    /\ concat rows
       = vector_of_bytes total
           (concat ((fun j => take (length (vec j)) (vector_bytes (vec j))) <$> ranks n)
            ++ drop total (vector_bytes (replicate total (value_init T)))).
Proof.
  intros Hc Hi Hme Hn n total Htotal Hfit Hcounts Hvalues Hown.
  destruct (all_gather_vector_run T peers_counts peers_values vec c i w
              Hc Hi Hme Hn Htotal Hfit Hcounts Hvalues Hown)
    as (rows & w' & Hrun & Hshape & Hcat).
  exists rows, w'. split; [exact Hrun|]. split; [|split; [|exact Hcat]].
  - apply (f_equal length) in Hshape. rewrite !length_fmap, length_ranks in Hshape.
    unfold n. lia.
  - intros j Hj. rewrite <- list_lookup_fmap, Hshape, !list_lookup_fmap.
    now rewrite lookup_ranks.
Qed.

Lemma all_gather_vector_shape_witness :
  let vec := fun j : Z => if j =? 0 then [int_of_Z 7] else [int_of_Z 1; int_of_Z 2] in
  let counts := fun j : Z => (int_bytes (int_of_Z (Z.of_nat (length (vec j)))), 4) in
  let values := fun j : Z => (vector_bytes (vec j), Z.of_nat (length (vec j))) in
  exists rows w',
    Communicator.all_gather_vector_T int counts values comm_of_rank0 (vec 0) two_ranks
    = Returns rows w'
    /\ Z.of_nat (length rows) = 2
    /\ (forall j, 0 <= j < 2 ->
          length <$> rows !! Z.to_nat j = Some (length (vec j)))
    /\ concat rows
       = vector_of_bytes 3
           (concat ((fun j => take (length (vec j)) (vector_bytes (vec j))) <$> ranks 2)
            ++ drop 3 (vector_bytes (replicate 3 (value_init int)))).
Proof.
  intros vec counts values.
  apply (all_gather_vector_shape int counts values vec comm_of_rank0
           (mkCommInfo [] 2 0 0) two_ranks).
  - reflexivity.
  - reflexivity.
  - cbn; lia.
  - cbn; lia.
  - vm_compute; reflexivity.
  - vm_compute; discriminate.
  - reflexivity.
  - reflexivity.
  - discriminate.
Defined.

(** X14. For a type of one byte the variable-length [all_gather] is
    exact: on a valid communicator whose ranks all enter the call, row [j]
    of the result is the vector rank [j] passed. *)
Theorem all_gather_vector_exact_for_bytes
    (T : Type) `{TriviallyCopyable T}
    (peers_counts peers_values : Z -> bytes * Z) (vec : Z -> list T)
    (c : Communicator) (i : CommInfo) (w : World) :
  sizeof T = 1%nat ->
  Communicator.is_null c = false ->
  comms w !! comm c = Some i ->
  0 <= comm_rank i < comm_size i ->
  comm_size i < 2 ^ 31 ->
  let n := comm_size i in
  Z.of_nat (length (concat (vec <$> ranks n))) < 2 ^ 31 ->
  (forall j, 0 <= j < n -> j <> comm_rank i ->
     peers_counts j
     = (object_bytes (int_of_Z (Z.of_nat (length (vec j)))), Z.of_nat (sizeof int))) ->
  (forall j, 0 <= j < n -> j <> comm_rank i ->
     peers_values j = (vector_bytes (vec j), Z.of_nat (length (vec j)))) ->
  vec (comm_rank i) <> [] ->
  exists w',
    Communicator.all_gather_vector_T T peers_counts peers_values c
      (vec (comm_rank i)) w
    = Returns (vec <$> ranks n) w'.
Proof.
  intros Hone Hc Hi Hme Hn n Htotal Hcounts Hvalues Hown.
  assert (Z.of_nat (length (concat (vec <$> ranks n))) * Z.of_nat (sizeof T)
          <= 2 ^ 63 - 1) as Hfit by (rewrite Hone; lia).
  destruct (all_gather_vector_run T peers_counts peers_values vec c i w
              Hc Hi Hme Hn Htotal Hfit Hcounts Hvalues Hown)
    as (rows & w' & Hrun & Hshape & Hcat).
  exists w'. rewrite Hrun. f_equal.
  apply concat_eq_by_lengths; [exact Hshape|]. rewrite Hcat.
  fold n. set (vs := vec <$> ranks n).
  rewrite drop_ge by (rewrite length_vector_bytes, length_replicate, Hone; lia).
  assert ((fun j => take (length (vec j)) (vector_bytes (vec j))) <$> ranks n
          = vector_bytes <$> vs) as ->.
  { unfold vs. rewrite <- list_fmap_compose. apply list_fmap_ext.
    intros ? j _. cbn [compose]. apply take_ge.
    rewrite length_vector_bytes, Hone. lia. }
  rewrite <- vector_bytes_concat. apply vector_of_vector_bytes.
Qed.

Lemma all_gather_vector_exact_for_bytes_witness :
  let vec := fun j : Z => if j =? 0 then ["a"%byte] else ["b"%byte; "c"%byte] in
  let counts := fun j : Z => (int_bytes (int_of_Z (Z.of_nat (length (vec j)))), 4) in
  let values := fun j : Z => (vector_bytes (vec j), Z.of_nat (length (vec j))) in
  exists w',
    Communicator.all_gather_vector_T byte counts values comm_of_rank0 (vec 0) two_ranks
    = Returns (vec <$> ranks 2) w'.
Proof.
  intros vec counts values.
  apply (all_gather_vector_exact_for_bytes byte counts values vec comm_of_rank0
           (mkCommInfo [] 2 0 0) two_ranks).
  - reflexivity.
  - reflexivity.
  - reflexivity.
  - cbn; lia.
  - cbn; lia.
  - vm_compute; reflexivity.
  - reflexivity.
  - reflexivity.
  - discriminate.
Defined.

(** X15. For a larger type the variable-length [all_gather] loses data:
    with [sizeof(T) >= 2] and for a rank that passes a non-empty vector,
    every element of the result from offset [total / sizeof(T)] (rounded
    up) on, rows taken in order, is [T()] whatever the elements were that
    the ranks passed. *)
Theorem all_gather_vector_truncates
    (T : Type) `{TriviallyCopyable T}
    (peers_counts peers_values : Z -> bytes * Z) (vec : Z -> list T)
    (c : Communicator) (i : CommInfo) (w : World) :
  (2 <= sizeof T)%nat ->
  Communicator.is_null c = false ->
  comms w !! comm c = Some i ->
  0 <= comm_rank i < comm_size i ->
  comm_size i < 2 ^ 31 ->
  let n := comm_size i in
  let total := length (concat (vec <$> ranks n)) in
  Z.of_nat total < 2 ^ 31 ->
  Z.of_nat total * Z.of_nat (sizeof T) <= 2 ^ 63 - 1 ->
  (forall j, 0 <= j < n -> j <> comm_rank i ->
     peers_counts j
     = (object_bytes (int_of_Z (Z.of_nat (length (vec j)))), Z.of_nat (sizeof int))) ->
  (forall j, 0 <= j < n -> j <> comm_rank i ->
     peers_values j = (vector_bytes (vec j), Z.of_nat (length (vec j)))) ->
  vec (comm_rank i) <> [] ->
  exists rows w',
    Communicator.all_gather_vector_T T peers_counts peers_values c
      (vec (comm_rank i)) w
    = Returns rows w'
    /\ forall k, (k < total)%nat -> (total <= k * sizeof T)%nat ->
         concat rows !! k = Some (value_init T).
Proof.
  intros Htwo Hc Hi Hme Hn n total Htotal Hfit Hcounts Hvalues Hown.
  destruct (all_gather_vector_run T peers_counts peers_values vec c i w
              Hc Hi Hme Hn Htotal Hfit Hcounts Hvalues Hown)
    as (rows & w' & Hrun & Hshape & Hcat).
  exists rows, w'. split; [exact Hrun|]. intros k Hk Hfar.
  rewrite Hcat. fold n total. rewrite lookup_vector_of_bytes by exact Hk.
  set (gathered := concat _).
  assert (length gathered = total) as Hgathered.
  { unfold gathered. rewrite length_concat_sum, <- list_fmap_compose.
    unfold total. rewrite length_concat_sum, <- list_fmap_compose.
    f_equal. apply list_fmap_ext. intros ? j _. cbn [compose].
    rewrite length_take, length_vector_bytes. nia. }
  rewrite drop_app_ge by lia. rewrite drop_drop, Hgathered.
  replace (total + (k * sizeof T - total))%nat with (k * sizeof T)%nat by lia.
  unfold vector_bytes.
  rewrite (concat_block _ _ _ (object_bytes (value_init T)) (object_blocks T _)).
  - now rewrite from_object_bytes.
  - rewrite list_lookup_fmap, lookup_replicate_2 by exact Hk. reflexivity.
Qed.

Lemma all_gather_vector_truncates_witness :
  let vec := fun j : Z => if j =? 0 then [int_of_Z 7] else [int_of_Z 1; int_of_Z 2] in
  let counts := fun j : Z => (int_bytes (int_of_Z (Z.of_nat (length (vec j)))), 4) in
  let values := fun j : Z => (vector_bytes (vec j), Z.of_nat (length (vec j))) in
  exists rows w',
    Communicator.all_gather_vector_T int counts values comm_of_rank0 (vec 0) two_ranks
    = Returns rows w'
    /\ forall k, (k < 3)%nat -> (3 <= k * sizeof int)%nat ->
         concat rows !! k = Some (value_init int).
Proof.
  intros vec counts values.
  apply (all_gather_vector_truncates int counts values vec comm_of_rank0
           (mkCommInfo [] 2 0 0) two_ranks).
  - cbn; lia.
  - reflexivity.
  - reflexivity.
  - cbn; lia.
  - cbn; lia.
  - vm_compute; reflexivity.
  - vm_compute; discriminate.
  - reflexivity.
  - reflexivity.
  - discriminate.
Defined.

(** X17. The collectives do not guard against a null Communicator.  There
    [size()] is 0, so the byte-string [all_to_all] takes a remainder by
    zero whatever it is given; the typed [all_to_all] throws
    [std::invalid_argument] for a non-empty vector and divides by zero for
    an empty one; both forms of [all_gather] take the address of the first
    element of an empty vector. *)
Theorem collectives_on_null_communicator
    (T : Type) `{TriviallyCopyable T}
    (peers peers' : Z -> bytes * Z) (c : Communicator) (w : World)
    (sendbuf : bytes) (values : list T) (value : T) :
  Communicator.is_null c = true ->
  Communicator.all_to_all peers c sendbuf w = Undefined
  /\ (values <> [] ->
      Communicator.all_to_all_T T peers c values w
      = Throws (invalid_argument not_comm_size) w)
  /\ Communicator.all_to_all_T T peers c [] w = Undefined
  /\ Communicator.all_gather_T T peers c value w = Undefined
  /\ Communicator.all_gather_vector_T T peers peers' c values w = Undefined.
Proof.
  intros Hc.
  assert (Communicator.size c w = Returns 0 w) as Hsize
    by (unfold Communicator.size; now rewrite Hc).
  repeat split.
  - unfold Communicator.all_to_all. now rewrite (bind_returns _ _ _ _ _ Hsize).
  - intros Hv. unfold Communicator.all_to_all_T.
    rewrite (bind_returns _ _ _ _ _ Hsize).
    destruct values as [|x l]; [contradiction|]. reflexivity.
  - unfold Communicator.all_to_all_T.
    rewrite (bind_returns _ _ _ _ _ Hsize). cbn [length].
    change (negb (Z.of_nat 0 =? to_size_t 0)) with false. cbv iota.
    now rewrite (bind_returns _ _ _ _ _ Hsize).
  - unfold Communicator.all_gather_T. now rewrite (bind_returns _ _ _ _ _ Hsize).
  - unfold Communicator.all_gather_vector_T, Communicator.all_gather_T.
    unfold bind at 1 2. now rewrite Hsize.
Qed.

Lemma collectives_on_null_communicator_witness :
  Communicator.all_to_all peer_zero_one Communicator.default zero_one two_ranks
  = Undefined
  /\ ([int_of_Z 1] <> [] ->
      Communicator.all_to_all_T int peer_zero_one Communicator.default [int_of_Z 1]
        two_ranks
      = Throws (invalid_argument not_comm_size) two_ranks)
  /\ Communicator.all_to_all_T int peer_zero_one Communicator.default [] two_ranks
     = Undefined
  /\ Communicator.all_gather_T int peer_zero_one Communicator.default (int_of_Z 1)
       two_ranks
     = Undefined
  /\ Communicator.all_gather_vector_T int peer_zero_one peer_zero_one
       Communicator.default [int_of_Z 1] two_ranks
     = Undefined.
Proof.
  apply (collectives_on_null_communicator int peer_zero_one peer_zero_one
           Communicator.default two_ranks zero_one [int_of_Z 1] (int_of_Z 1)).
  reflexivity.
Defined.

(** X18. The point-to-point calls and [barrier] do not guard against a null
    Communicator either: they hand the null handle to the transport, which
    faults; no exception is thrown and no message is sent or taken. *)
Theorem point_to_point_on_null_communicator
    (T : Type) `{TriviallyCopyable T}
    (c : Communicator) (w : World) (buf : bytes) (value : T) (rank tag : Z) :
  Communicator.is_null c = true ->
  Communicator.barrier c w = Fault
  /\ Communicator.probe c rank tag w = Fault
  /\ Communicator.iprobe c rank tag w = Fault
  /\ Communicator.recv c rank tag w = Fault
  /\ Communicator.irecv c rank tag w = Fault
  /\ Communicator.send c buf rank tag w = Fault
  /\ Communicator.isend c buf rank tag w = Fault
  /\ Communicator.send_T T c value rank tag w = Fault
  /\ Communicator.isend_T T c value rank tag w = Fault
  /\ Communicator.recv_T T c rank tag w = Fault.
Proof.
  intros Hc. unfold Communicator.is_null in Hc.
  assert (forall A (k : CommInfo -> M A), bind (lookup_comm (comm c)) k w = Fault)
    as Hnull by (intros A k; unfold bind, lookup_comm; now rewrite Hc).
  assert (Communicator.probe c rank tag w = Fault) as Hprobe.
  { unfold Communicator.probe, MPI_Probe. unfold bind at 1. now rewrite Hnull. }
  assert (Communicator.iprobe c rank tag w = Fault) as Hiprobe.
  { unfold Communicator.iprobe, MPI_Iprobe. unfold bind at 1. now rewrite Hnull. }
  assert (Communicator.recv c rank tag w = Fault) as Hrecv.
  { unfold Communicator.recv. unfold bind at 1. now rewrite Hprobe. }
  assert (forall b, Communicator.send c b rank tag w = Fault) as Hsend.
  { intros b. unfold Communicator.send, MPI_Send. apply Hnull. }
  assert (forall b, Communicator.isend c b rank tag w = Fault) as Hisend.
  { intros b. unfold Communicator.isend, MPI_Isend. unfold bind at 1. now rewrite Hnull. }
  assert (memcpy_from_value (replicate (sizeof T) zero_byte) value w
          = Returns (overwrite (object_bytes value) (replicate (sizeof T) zero_byte)) w)
    as Hcopy.
  { unfold memcpy_from_value. rewrite length_replicate, Nat.ltb_irrefl. reflexivity. }
  repeat split.
  - unfold Communicator.barrier, MPI_Barrier. apply Hnull.
  - exact Hprobe.
  - exact Hiprobe.
  - exact Hrecv.
  - unfold Communicator.irecv. unfold bind at 1. now rewrite Hiprobe.
  - apply Hsend.
  - apply Hisend.
  - unfold Communicator.send_T. rewrite (bind_returns _ _ _ _ _ Hcopy). apply Hsend.
  - unfold Communicator.isend_T. rewrite (bind_returns _ _ _ _ _ Hcopy). apply Hisend.
  - unfold Communicator.recv_T. unfold bind at 1. now rewrite Hrecv.
Qed.

Lemma point_to_point_on_null_communicator_witness :
  Communicator.barrier Communicator.default two_ranks_hi = Fault
  /\ Communicator.probe Communicator.default MPI_ANY_SOURCE MPI_ANY_TAG two_ranks_hi
     = Fault
  /\ Communicator.iprobe Communicator.default MPI_ANY_SOURCE MPI_ANY_TAG two_ranks_hi
     = Fault
  /\ Communicator.recv Communicator.default MPI_ANY_SOURCE MPI_ANY_TAG two_ranks_hi
     = Fault
  /\ Communicator.irecv Communicator.default MPI_ANY_SOURCE MPI_ANY_TAG two_ranks_hi
     = Fault
  /\ Communicator.send Communicator.default hi MPI_ANY_SOURCE MPI_ANY_TAG two_ranks_hi
     = Fault
  /\ Communicator.isend Communicator.default hi MPI_ANY_SOURCE MPI_ANY_TAG two_ranks_hi
     = Fault
  /\ Communicator.send_T int Communicator.default (int_of_Z 1)
       MPI_ANY_SOURCE MPI_ANY_TAG two_ranks_hi
     = Fault
  /\ Communicator.isend_T int Communicator.default (int_of_Z 1)
       MPI_ANY_SOURCE MPI_ANY_TAG two_ranks_hi
     = Fault
  /\ Communicator.recv_T int Communicator.default MPI_ANY_SOURCE MPI_ANY_TAG
       two_ranks_hi
     = Fault.
Proof.
  apply (point_to_point_on_null_communicator int Communicator.default two_ranks_hi hi
           (int_of_Z 1) MPI_ANY_SOURCE MPI_ANY_TAG).
  reflexivity.
Defined.

(** ** Probing, then receiving what was probed *)

Lemma matches_reported (ctx : context) (me source tag : Z) (m x : Message) :
  matches ctx me source tag m = true ->
  matches ctx me (msg_source m) (msg_tag m) x = true ->
  matches ctx me source tag x = true.
Proof.
  unfold matches. intros Hm Hx.
  repeat (apply andb_prop in Hm as [Hm ?]). repeat (apply andb_prop in Hx as [Hx ?]).
  repeat (apply andb_true_intro; split); try assumption.
  - destruct (Z.eqb_spec source MPI_ANY_SOURCE) as [|Hs]; [reflexivity|].
    destruct (Z.eqb_spec (msg_source m) source) as [Es|]; [|discriminate].
    destruct (Z.eqb_spec (msg_source m) MPI_ANY_SOURCE) as [Ea|_]; [congruence|].
    cbn [orb] in *. destruct (Z.eqb_spec (msg_source x) (msg_source m)); [|discriminate].
    apply Z.eqb_eq. congruence.
  - destruct (Z.eqb_spec tag MPI_ANY_TAG) as [|Ht]; [reflexivity|].
    destruct (Z.eqb_spec (msg_tag m) tag) as [Et|]; [|discriminate].
    destruct (Z.eqb_spec (msg_tag m) MPI_ANY_TAG) as [Ea|_]; [congruence|].
    cbn [orb] in *. destruct (Z.eqb_spec (msg_tag x) (msg_tag m)); [|discriminate].
    apply Z.eqb_eq. congruence.
Qed.

Lemma matches_own_envelope (ctx : context) (me source tag : Z) (m : Message) :
  matches ctx me source tag m = true ->
  matches ctx me (msg_source m) (msg_tag m) m = true.
Proof.
  unfold matches. intros Hm.
  repeat (apply andb_prop in Hm as [Hm ?]).
  repeat (apply andb_true_intro; split); try assumption.
  - rewrite Z.eqb_refl. apply orb_true_r.
  - rewrite Z.eqb_refl. apply orb_true_r.
Qed.

Lemma find_reported (ctx : context) (me source tag : Z) (m : Message) (q : list Message) :
  List.find (matches ctx me source tag) q = Some m ->
  List.find (matches ctx me (msg_source m) (msg_tag m)) q = Some m.
Proof.
  intros Hfind.
  assert (matches ctx me source tag m = true) as Hm
    by (now apply List.find_some in Hfind).
  induction q as [|x q IH]; [discriminate|].
  cbn [List.find] in Hfind |- *.
  destruct (matches ctx me source tag x) eqn:Hx.
  - injection Hfind as ->. now rewrite (matches_own_envelope ctx me source tag _ Hm).
  - destruct (matches ctx me (msg_source m) (msg_tag m) x) eqn:Hx'; [|now apply IH].
    rewrite (matches_reported ctx me source tag m x Hm Hx') in Hx. discriminate.
Qed.

(** X19. Probe, then receive what was probed.  When a message is pending
    for the filters, [probe] returns a non-null status that carries the
    message's source, tag and length and takes nothing; a [recv] with the
    source and the tag the status reports then returns that very message,
    of [count()] bytes, also when the probe used the wildcards. *)
Theorem probe_then_recv_reported
    (c : Communicator) (source tag : Z) (m : Message) (w : World) :
  pending w (comm c) source tag = Some m ->
  exists st w1 w2,
    Communicator.probe c source tag w = Returns st w1
    /\ Status.is_null st = false
    /\ Status.source st = msg_source m
    /\ Status.tag st = msg_tag m
    /\ Status.count st = Z.of_nat (length (msg_data m))
    /\ mailbox w1 = mailbox w
    /\ Communicator.recv c (Status.source st) (Status.tag st) w1
       = Returns (msg_data m) w2.
Proof.
  intros Hm.
  exists (Status.of_MPI_Status (status_of m)). eexists. eexists.
  split; [now apply probe_pending|].
  repeat (split; [reflexivity|]).
  apply recv_pending. rewrite pending_log.
  apply pending_inv in Hm as (i & Hc & Hi & Hq).
  unfold pending. destruct (Nat.eqb_spec (comm c) MPI_COMM_NULL); [contradiction|].
  rewrite Hi. exact (find_reported _ _ source tag m _ Hq).
Qed.

Lemma probe_then_recv_reported_witness :
  exists st w1 w2,
    Communicator.probe comm_of_rank1 MPI_ANY_SOURCE MPI_ANY_TAG two_ranks_hi
    = Returns st w1
    /\ Status.is_null st = false
    /\ Status.source st = msg_source hi_message
    /\ Status.tag st = msg_tag hi_message
    /\ Status.count st = Z.of_nat (length (msg_data hi_message))
    /\ mailbox w1 = mailbox two_ranks_hi
    /\ Communicator.recv comm_of_rank1 (Status.source st) (Status.tag st) w1
       = Returns (msg_data hi_message) w2.
Proof.
  apply (probe_then_recv_reported comm_of_rank1 MPI_ANY_SOURCE MPI_ANY_TAG
           hi_message two_ranks_hi).
  reflexivity.
Defined.
